(** * Order tracking of the Additive Artisan store: model and properties

    A shallow embedding of the order-tracking pipeline of the site:
    - [js/api_helpers.js]   ([fetchWithTimeout], [fetchWithRetry]),
    - [js/order_tracker.js] (status registry, lookup client, view updates),
    - [js/utils.js]         ([escapeHTML], [isValidURL], [formatDate]),
    - [js/main.js]          ([handleOrderSearch] and the form errors).

    Conventions.  A JavaScript string is a [string] holding its UTF-8
    bytes.  A JavaScript number that the code only uses as a loop bound,
    an index or a delay is a [Z]; module [Number] takes the bound of
    the retry loop as any number.  Asynchronous code is written in a
    small state-and-exception monad over a [world]: the number of
    requests issued so far, the trace of requests and timer waits, and
    the page.  The network, the URL parser and the date formatter belong
    to the host and are fields of a [host] record. *)

From Stdlib Require Import ZArith QArith Qround Lqa Ascii String DecimalString Lia.
From stdpp Require Import base option list strings gmap.

Local Open Scope string_scope.
Local Open Scope list_scope.
Local Open Scope Z_scope.

(** ** JavaScript values used by the code *)

Module JS.

(** An [Error] object: the code reads [name] and [message] only. *)
Record error := mkError { err_name : string; err_message : string }.

(** [new Error(message)] *)
Definition Error (message : string) : error :=
  {| err_name := "Error"; err_message := message |}.

(** The [TypeError] thrown when a property of [undefined] is read;
    the wording of the message is the engine's (here V8's). *)
Definition TypeError_undefined (prop : string) : error :=
  {| err_name := "TypeError";
     err_message :=
       "Cannot read properties of undefined (reading '" +:+ prop +:+ "')" |}.

(** Truthiness of a string: only the empty string is falsy. *)
Definition truthy (s : string) : bool :=
  match s with EmptyString => false | _ => true end.

(** Truthiness of a property that may be [undefined]. *)
Definition truthy_opt (o : option string) : bool :=
  match o with Some s => truthy s | None => false end.

(** [a || b] on a possibly-undefined string and a string default. *)
Definition or_default (o : option string) (d : string) : string :=
  match o with
  | Some s => if truthy s then s else d
  | None => d
  end.

(** Conversion of a non-negative integer to a string, as a template
    literal does. *)
Definition number_to_string (n : N) : string :=
  NilZero.string_of_uint (N.to_uint n).

(** The [TypeError] thrown when a property of [null] is read. *)
Definition TypeError_null (prop : string) : error :=
  {| err_name := "TypeError";
     err_message :=
       "Cannot read properties of null (reading '" +:+ prop +:+ "')" |}.

Definition bytes (codes : list nat) : string :=
  string_of_list_ascii (map ascii_of_nat codes).

(** *** [String.prototype.trim] *)

(** The UTF-8 encodings of the code points ECMAScript counts as white
    space or line terminators: U+0009..U+000D, U+0020, U+00A0, U+1680,
    U+2000..U+200A, U+2028, U+2029, U+202F, U+205F, U+3000, U+FEFF. *)
Definition whitespace : list string :=
  map (fun c => bytes [c]) [9; 10; 11; 12; 13; 32]%nat
  ++ [bytes [194; 160]; bytes [225; 154; 128]]%nat
  ++ map (fun k => bytes [226; 128; 128 + k]%nat) (seq 0 11)
  ++ [bytes [226; 128; 168]; bytes [226; 128; 169]; bytes [226; 128; 175];
      bytes [226; 129; 159]; bytes [227; 128; 128]; bytes [239; 187; 191]]%nat.

Fixpoint strip_prefix (p s : string) : option string :=
  match p, s with
  | EmptyString, _ => Some s
  | String a p', String b s' => if Ascii.eqb a b then strip_prefix p' s' else None
  | String _ _, EmptyString => None
  end.

(** Removes one leading character when it is one of [pats]. *)
Fixpoint strip_one (pats : list string) (s : string) : option string :=
  match pats with
  | [] => None
  | p :: pats' =>
      match strip_prefix p s with
      | Some r => Some r
      | None => strip_one pats' s
      end
  end.

(** Removes leading characters while they are among [pats]; [n] bounds
    the number of characters removed (the length of the string is
    enough). *)
Fixpoint strip_all (n : nat) (pats : list string) (s : string) : string :=
  match n with
  | O => s
  | S n' =>
      match strip_one pats s with
      | Some r => strip_all n' pats r
      | None => s
      end
  end.

Definition trimStart (s : string) : string :=
  strip_all (String.length s) whitespace s.

Definition trimEnd (s : string) : string :=
  String.rev (strip_all (String.length s) (map String.rev whitespace) (String.rev s)).

Definition trim (s : string) : string := trimEnd (trimStart s).

(** *** [encodeURIComponent] *)

Definition code_in (lo hi : nat) (c : ascii) : bool :=
  (lo <=? nat_of_ascii c)%nat && (nat_of_ascii c <=? hi)%nat.

Definition is_alpha (c : ascii) : bool := code_in 65 90 c || code_in 97 122 c.
Definition is_digit (c : ascii) : bool := code_in 48 57 c.

(** Characters left as they are: [A-Za-z0-9] and [- _ . ! ~ * ' ( )]. *)
Definition uri_unreserved (c : ascii) : bool :=
  is_alpha c || is_digit c
  || existsb (Ascii.eqb c) (list_ascii_of_string "-_.!~*'()").

Definition hex_digit (n : nat) : ascii :=
  match String.get n "0123456789ABCDEF" with
  | Some c => c
  | None => "0"%char
  end.

Definition percent_encode (c : ascii) : string :=
  let n := nat_of_ascii c in
  String "%" (String (hex_digit (n / 16)) (String (hex_digit (n mod 16)) EmptyString)).

Fixpoint encodeURIComponent (s : string) : string :=
  match s with
  | EmptyString => EmptyString
  | String c r =>
      (if uri_unreserved c then String c EmptyString else percent_encode c)
      +:+ encodeURIComponent r
  end.

(** *** [DOMTokenList]: the [classList] of an element *)

Abbreviation classList := (list string).

Definition class_remove (tokens : list string) (cl : classList) : classList :=
  filter (fun c => c ∉ tokens) cl.

Definition class_add (token : string) (cl : classList) : classList :=
  if decide (token ∈ cl) then cl else (cl ++ [token])%list.

Definition class_contains (token : string) (cl : classList) : bool :=
  bool_decide (token ∈ cl).

(** *** Regular expressions of the form [/^r$/] *)

Inductive regex :=
| Never
| Empty
| Class (ranges : list (ascii * ascii))
| Seq (r1 r2 : regex)
| Alt (r1 r2 : regex)
| Star (r : regex).

Definition in_ranges (c : ascii) (ranges : list (ascii * ascii)) : bool :=
  existsb (fun '(lo, hi) => code_in (nat_of_ascii lo) (nat_of_ascii hi) c) ranges.

Fixpoint nullable (r : regex) : bool :=
  match r with
  | Never => false
  | Empty => true
  | Class _ => false
  | Seq r1 r2 => nullable r1 && nullable r2
  | Alt r1 r2 => nullable r1 || nullable r2
  | Star _ => true
  end.

Definition seq_ (r1 r2 : regex) : regex :=
  match r1, r2 with
  | Never, _ => Never
  | _, Never => Never
  | Empty, _ => r2
  | _, _ => Seq r1 r2
  end.

Definition alt_ (r1 r2 : regex) : regex :=
  match r1, r2 with
  | Never, _ => r2
  | _, Never => r1
  | _, _ => Alt r1 r2
  end.

(** What is left to match after reading [c]. *)
Fixpoint deriv (c : ascii) (r : regex) : regex :=
  match r with
  | Never | Empty => Never
  | Class ranges => if in_ranges c ranges then Empty else Never
  | Seq r1 r2 =>
      alt_ (seq_ (deriv c r1) r2) (if nullable r1 then deriv c r2 else Never)
  | Alt r1 r2 => alt_ (deriv c r1) (deriv c r2)
  | Star r1 => seq_ (deriv c r1) (Star r1)
  end.

(** [/^r$/.test(s)]: the whole of [s] matches [r]. *)
Fixpoint test (r : regex) (s : string) : bool :=
  match s with
  | EmptyString => nullable r
  | String c s' => test (deriv c r) s'
  end.

Definition chr (c : ascii) : regex := Class [(c, c)].
Definition sequence (rs : list regex) : regex := foldr Seq Empty rs.
Definition times (n : nat) (r : regex) : list regex := replicate n r.
Definition plus (r : regex) : regex := Seq r (Star r).
Definition at_least (n : nat) (r : regex) : regex := Seq (sequence (times n r)) (Star r).

(** [\d] *)
Definition digit : regex := Class [("0", "9")]%char.

End JS.

(** ** The host: network and browser services *)

(** The [order] object of a lookup response. *)
Record envelope_order := mkOrder {
  orderId : string;
  status : string;
  product : option string;
  trackingNumber : option string;
  createdDate : option string;
  updatedDate : option string
}.

(** The JSON envelope [{success, order?, error?}]. *)
Record envelope := mkEnvelope {
  success : bool;
  order : option envelope_order;
  error : option string
}.

(** A [Response]: the fields the code reads, and what [response.json()]
    settles with. *)
Record response := mkResponse {
  ok : bool;
  resp_status : N;
  statusText : string;
  json : JS.error + envelope  (* [inl e]: [response.json()] rejects with [e] *)
}.

(** How one call of the browser's [fetch] settles. *)
Inductive fetch_outcome :=
| FetchResolve (r : response)
| FetchReject (e : JS.error).

(** The [DOMException] a fetch rejects with when its signal aborts. *)
Definition AbortError : JS.error :=
  {| JS.err_name := "AbortError"; JS.err_message := "The user aborted a request." |}.

(** [window.AdditiveArtisanConfig?.orderTracker] *)
Record tracker_config := mkTrackerConfig {
  apiEndpoint : option string;
  animationMode : option string;
  lottieUrls : option (gmap string string)
}.

Record host := mkHost {
  (** the outcome of the [n]-th request, given its URL and the delay of
      the abort timer attached to it ([None]: no signal) *)
  transport : nat -> string -> option Z -> fetch_outcome;
  (** [new URL(u).protocol]; [None] when the constructor throws *)
  url_protocol : string -> option string;
  (** [new Date(d).toLocaleDateString("en-US", ...)] *)
  toLocaleDateString : string -> string;
  orderTracker : option tracker_config;
  api_loaded : bool;      (* [window.AdditiveArtisanAPI] *)
  utils_loaded : bool;    (* [window.AdditiveArtisanUtils] *)
  tracker_loaded : bool   (* [window.AdditiveArtisanTracker] *)
}.

(** ** Observable events and the monad of asynchronous code *)

Inductive event :=
| EvFetch (url : string) (abort_after : option Z)
| EvWait (ms : Z).

Section Monad.
Context {page : Type}.

Record world := mkWorld {
  calls : nat;
  trace : list event;
  dom : page
}.

Inductive outcome (A : Type) :=
| Ok (a : A)
| Throw (e : JS.error).
Global Arguments Ok {A} a.
Global Arguments Throw {A} e.

Definition M (A : Type) : Type := world -> outcome A * world.

Definition ret {A} (a : A) : M A := fun w => (Ok a, w).

Definition bind {A B} (m : M A) (k : A -> M B) : M B :=
  fun w =>
    match m w with
    | (Ok a, w') => k a w'
    | (Throw e, w') => (Throw e, w')
    end.

Definition throw {A} (e : JS.error) : M A := fun w => (Throw e, w).

(** [try { m } catch (error) { h error }] *)
Definition try_catch {A} (m : M A) (h : JS.error -> M A) : M A :=
  fun w =>
    match m w with
    | (Ok a, w') => (Ok a, w')
    | (Throw e, w') => h e w'
    end.

Definition log (ev : event) : M unit :=
  fun w => (Ok tt, {| calls := calls w; trace := trace w ++ [ev]; dom := dom w |}).

(** A synchronous update of the page. *)
Definition update (f : page -> page) : M unit :=
  fun w => (Ok tt, {| calls := calls w; trace := trace w; dom := f (dom w) |}).

(** [await fetch(url, {signal})]: the request is issued, the host
    decides how it settles. *)
Definition fetch (h : host) (url : string) (abort_after : option Z) : M response :=
  fun w =>
    let w' := {| calls := S (calls w);
                 trace := trace w ++ [EvFetch url abort_after];
                 dom := dom w |} in
    match transport h (calls w) url abort_after with
    | FetchResolve r => (Ok r, w')
    | FetchReject e => (Throw e, w')
    end.

(** Reading the page. *)
Definition get_page : M page := fun w => (Ok (dom w), w).

(** [await new Promise(resolve => setTimeout(resolve, ms))] *)
Definition sleep (ms : Z) : M unit := log (EvWait ms).

End Monad.

Global Arguments world : clear implicits.
Global Arguments M : clear implicits.

Notation "x <- m ;; k" := (bind m (fun x => k))
  (at level 100, m at next level, right associativity).
Notation "m ;;; k" := (bind m (fun _ => k))
  (at level 100, right associativity).

(** ** [js/api_helpers.js] *)

Module Api.
Section Api.
Context {page : Type}.
Variable h : host.

(** A value a promise of [fetchWithRetry] is fulfilled with. *)
Inductive value :=
| VUndefined
| VResponse (r : response).

Definition fetchWithTimeout (url : string) (timeout : Z) : M page response :=
  try_catch
    (fetch h url (Some timeout))
    (fun error =>
       if String.eqb (JS.err_name error) "AbortError"
       then throw (JS.Error "Request timeout - please try again")
       else throw error).

(** One pass through the body of the [for] loop; [Some v] is
    [return v], [None] falls through to the backoff wait. *)
Definition attempt (url : string) (maxRetries i : Z) : M page (option value) :=
  try_catch
    (response <- fetchWithTimeout url 10000 ;;
     if ok response then ret (Some (VResponse response))
     else if i =? maxRetries - 1
          then throw (JS.Error ("HTTP " +:+ JS.number_to_string (resp_status response)
                                  +:+ ": " +:+ statusText response))
          else ret None)
    (fun error =>
       if i =? maxRetries - 1 then throw error else ret None).

(** [for (let i = ...; i < maxRetries; i++) { ... }]; [n] bounds the
    number of iterations still possible. *)
Fixpoint retry_loop (n : nat) (url : string) (maxRetries i : Z) : M page value :=
  match n with
  | O => ret VUndefined
  | S n' =>
      if i <? maxRetries then
        r <- attempt url maxRetries i ;;
        match r with
        | Some v => ret v
        | None =>
            sleep (2 ^ i * 1000) ;;;
            retry_loop n' url maxRetries (i + 1)
        end
      else ret VUndefined
  end.

Definition fetchWithRetry {options : Type} (url : string) (opts : options)
    (maxRetries : Z) : M page value :=
  retry_loop (Z.to_nat maxRetries) url maxRetries 0.

End Api.
End Api.

(** ** [fetchWithRetry] for a bound that is any number

    [maxRetries] reaches the loop through [i < maxRetries] and
    [i === maxRetries - 1] only, which both see the number it converts
    to.  A finite number is a rational here, with exact arithmetic (as
    doubles have it up to 2^53). *)

Module Number.

Inductive number :=
| NaN
| Infinity (negative : bool)
| Finite (q : Q).

(** [i < maxRetries] *)
Definition index_below (i : Z) (maxRetries : number) : bool :=
  match maxRetries with
  | NaN => false
  | Infinity negative => negb negative
  | Finite q => negb (Qle_bool q (inject_Z i))
  end.

(** [i === maxRetries - 1] *)
Definition index_last (i : Z) (maxRetries : number) : bool :=
  match maxRetries with
  | NaN | Infinity _ => false
  | Finite q => Qeq_bool (inject_Z i) (q - 1)
  end.

(** How many of the indices 0, 1, 2, ... lie below the number: none
    for [NaN], all of them for [+Infinity]. *)
Definition iterations (maxRetries : number) : option nat :=
  match maxRetries with
  | NaN => Some 0%nat
  | Infinity negative => if negative then Some 0%nat else None
  | Finite q => Some (Z.to_nat (Qceiling q))
  end.

(** The number is an integer. *)
Definition integral (maxRetries : number) : bool :=
  match maxRetries with
  | NaN | Infinity _ => false
  | Finite q => Qeq_bool q (inject_Z (Qceiling q))
  end.

Definition positive_integer (maxRetries : number) : Prop :=
  integral maxRetries = true /\ index_below 0 maxRetries = true.

Section Retry.
Context {page : Type}.
Variable h : host.

(** One pass through the body of the loop; [last] is
    [i === maxRetries - 1]. *)
Definition attempt (url : string) (last : bool) : M page (option Api.value) :=
  try_catch
    (response <- Api.fetchWithTimeout h url 10000 ;;
     if ok response then ret (Some (Api.VResponse response))
     else if last
          then throw (JS.Error ("HTTP " +:+ JS.number_to_string (resp_status response)
                                  +:+ ": " +:+ statusText response))
          else ret None)
    (fun error => if last then throw error else ret None).

(** The loop, followed for [n] iterations at most: [None] says that it
    is still running then, which a bound of [+Infinity] allows. *)
Fixpoint retry_loop (n : nat) (url : string) (maxRetries : number) (i : Z)
    : M page (option Api.value) :=
  match n with
  | O => ret (if index_below i maxRetries then None else Some Api.VUndefined)
  | S n' =>
      if index_below i maxRetries then
        r <- attempt url (index_last i maxRetries) ;;
        match r with
        | Some v => ret (Some v)
        | None =>
            sleep (2 ^ i * 1000) ;;;
            retry_loop n' url maxRetries (i + 1)
        end
      else ret (Some Api.VUndefined)
  end.

Definition fetchWithRetry {options : Type} (n : nat) (url : string) (opts : options)
    (maxRetries : number) : M page (option Api.value) :=
  retry_loop n url maxRetries 0.

(** A run of the loop with an integer bound, read as a run that has
    ended. *)
Definition ended (run : outcome Api.value * world page)
    : outcome (option Api.value) * world page :=
  (match run.1 with
   | Ok v => Ok (Some v)
   | Throw e => Throw e
   end, run.2).

End Retry.
End Number.


(** ** The page

    The elements the tracker and the search form address.  A selector
    that finds nothing is [None]; each selector is taken to resolve to an
    element of its own, and each input to sit in a form group of its own. *)

Inductive content :=
| Text (s : string)          (* [textContent = s] *)
| Html (markup : string)     (* [innerHTML = markup] *)
| Child (tag : string) (attributes : list (string * string)).  (* one child element *)

Record field_error := mkFieldError {
  fe_id : string;
  fe_role : option string;
  fe_classes : JS.classList;
  fe_text : string
}.

Record form_group := mkFormGroup {
  fg_classes : JS.classList;
  fg_error : option field_error      (* [.field-error] inside the group *)
}.

Record input := mkInput {
  in_id : string;
  in_value : string;
  in_group : option form_group;      (* [closest('.form-group')] *)
  aria_invalid : option string;
  aria_describedby : option string
}.

Record page := mkPage {
  status_emoji : option content;            (* [#status-emoji] *)
  status_title : option string;             (* [.status-title], its text *)
  status_message : option content;          (* [.status-message] *)
  order_product : option string;            (* [#order-product], its text *)
  order_date : option string;               (* [#order-date], its text *)
  tracking_container : option JS.classList; (* [#tracking-container] *)
  tracking_number : option string;          (* [#tracking-number], its text *)
  order_details : option JS.classList;      (* [#order-details] *)
  order_status : option JS.classList;       (* [#order-status] *)
  timeline_steps : list JS.classList;       (* [.timeline-step], in document order *)
  status_timeline : option string;          (* [.status-timeline], its [style.display] *)
  order_id_input : option input;            (* [#order-id] *)
  order_email_input : option input          (* [#order-email] *)
}.

Module Dom.

(** [element.textContent = v]; [undefined] is written as the empty
    string. *)
Definition text_of (v : option string) : string := default "" v.

Definition set_status_emoji (c : content) (p : page) : page :=
  mkPage (Some c) (status_title p) (status_message p) (order_product p)
    (order_date p) (tracking_container p) (tracking_number p) (order_details p)
    (order_status p) (timeline_steps p) (status_timeline p) (order_id_input p)
    (order_email_input p).

Definition set_status_title (t : string) (p : page) : page :=
  mkPage (status_emoji p) (Some t) (status_message p) (order_product p)
    (order_date p) (tracking_container p) (tracking_number p) (order_details p)
    (order_status p) (timeline_steps p) (status_timeline p) (order_id_input p)
    (order_email_input p).

Definition set_status_message (c : content) (p : page) : page :=
  mkPage (status_emoji p) (status_title p) (Some c) (order_product p)
    (order_date p) (tracking_container p) (tracking_number p) (order_details p)
    (order_status p) (timeline_steps p) (status_timeline p) (order_id_input p)
    (order_email_input p).

Definition set_order_product (t : string) (p : page) : page :=
  mkPage (status_emoji p) (status_title p) (status_message p) (Some t)
    (order_date p) (tracking_container p) (tracking_number p) (order_details p)
    (order_status p) (timeline_steps p) (status_timeline p) (order_id_input p)
    (order_email_input p).

Definition set_order_date (t : string) (p : page) : page :=
  mkPage (status_emoji p) (status_title p) (status_message p) (order_product p)
    (Some t) (tracking_container p) (tracking_number p) (order_details p)
    (order_status p) (timeline_steps p) (status_timeline p) (order_id_input p)
    (order_email_input p).

Definition set_tracking_container (cl : JS.classList) (p : page) : page :=
  mkPage (status_emoji p) (status_title p) (status_message p) (order_product p)
    (order_date p) (Some cl) (tracking_number p) (order_details p)
    (order_status p) (timeline_steps p) (status_timeline p) (order_id_input p)
    (order_email_input p).

Definition set_tracking_number (t : string) (p : page) : page :=
  mkPage (status_emoji p) (status_title p) (status_message p) (order_product p)
    (order_date p) (tracking_container p) (Some t) (order_details p)
    (order_status p) (timeline_steps p) (status_timeline p) (order_id_input p)
    (order_email_input p).

Definition set_order_details (cl : JS.classList) (p : page) : page :=
  mkPage (status_emoji p) (status_title p) (status_message p) (order_product p)
    (order_date p) (tracking_container p) (tracking_number p) (Some cl)
    (order_status p) (timeline_steps p) (status_timeline p) (order_id_input p)
    (order_email_input p).

Definition set_order_status (cl : JS.classList) (p : page) : page :=
  mkPage (status_emoji p) (status_title p) (status_message p) (order_product p)
    (order_date p) (tracking_container p) (tracking_number p) (order_details p)
    (Some cl) (timeline_steps p) (status_timeline p) (order_id_input p)
    (order_email_input p).

Definition set_timeline_steps (steps : list JS.classList) (p : page) : page :=
  mkPage (status_emoji p) (status_title p) (status_message p) (order_product p)
    (order_date p) (tracking_container p) (tracking_number p) (order_details p)
    (order_status p) steps (status_timeline p) (order_id_input p)
    (order_email_input p).

Definition set_status_timeline (display : string) (p : page) : page :=
  mkPage (status_emoji p) (status_title p) (status_message p) (order_product p)
    (order_date p) (tracking_container p) (tracking_number p) (order_details p)
    (order_status p) (timeline_steps p) (Some display) (order_id_input p)
    (order_email_input p).

(** The two inputs of the search form. *)
Inductive which := OrderId | OrderEmail.

Definition get_input (i : which) (p : page) : option input :=
  match i with
  | OrderId => order_id_input p
  | OrderEmail => order_email_input p
  end.

Definition set_input (i : which) (v : input) (p : page) : page :=
  match i with
  | OrderId =>
      mkPage (status_emoji p) (status_title p) (status_message p) (order_product p)
        (order_date p) (tracking_container p) (tracking_number p) (order_details p)
        (order_status p) (timeline_steps p) (status_timeline p) (Some v)
        (order_email_input p)
  | OrderEmail =>
      mkPage (status_emoji p) (status_title p) (status_message p) (order_product p)
        (order_date p) (tracking_container p) (tracking_number p) (order_details p)
        (order_status p) (timeline_steps p) (status_timeline p) (order_id_input p)
        (Some v)
  end.

(** [classList.remove("hidden")] and [classList.add("hidden")] on an
    element that may be missing: the caller's [if (element)]. *)
Definition when {A} (o : option A) (f : A -> page -> page) (p : page) : page :=
  match o with
  | Some a => f a p
  | None => p
  end.

End Dom.

(** ** [js/utils.js] *)

Module Utils.

Definition is_byte (n : nat) (c : ascii) : bool := (nat_of_ascii c =? n)%nat.

Definition escape_text_char (c : ascii) : string :=
  if Ascii.eqb c "&" then "&amp;"
  else if Ascii.eqb c "<" then "&lt;"
  else if Ascii.eqb c ">" then "&gt;"
  else String c EmptyString.

(** [div.textContent = s; div.innerHTML]: the serialisation of a text
    node escapes [&], [<], [>] and the no-break space U+00A0 (bytes
    194 160). *)
Fixpoint serialize_text (s : string) : string :=
  match s with
  | EmptyString => EmptyString
  | String c r =>
      match r with
      | String d r' =>
          if is_byte 194 c && is_byte 160 d
          then "&nbsp;" +:+ serialize_text r'
          else escape_text_char c +:+ serialize_text r
      | EmptyString => escape_text_char c
      end
  end.

Definition escapeHTML (str : string) : string :=
  if negb (JS.truthy str) then "" else serialize_text str.

Definition isValidURL (h : host) (url : string) : bool :=
  if negb (JS.truthy url) then false
  else match url_protocol h url with
       | Some protocol => String.eqb protocol "http:" || String.eqb protocol "https:"
       | None => false
       end.

Definition formatDate (h : host) (dateString : string) : string :=
  if negb (JS.truthy dateString) then "" else toLocaleDateString h dateString.

End Utils.

(** ** [js/order_tracker.js] *)

Module Tracker.

Record descriptor := mkDescriptor {
  emoji : string;
  message : string;
  step : string;
  description : string
}.

Definition STATUS_CONFIG : gmap string descriptor :=
  list_to_map
    [ ("Order Received",
       mkDescriptor "👋" "We got your order!" "received"
         "Your order has been received and logged into our system.");
      ("In Queue",
       mkDescriptor "📋" "Spot reserved in print queue" "queue"
         "Your order is in the production queue.");
      ("Printing",
       mkDescriptor "🖨️" "Your print is being created" "printing"
         "Your item is currently being 3D printed.");
      ("Post-Processing",
       mkDescriptor "🔧" "Cleaning and finishing" "processing"
         "Removing supports and cleaning up your print.");
      ("Quality Control",
       mkDescriptor "🔍" "Final inspection" "quality"
         "Ensuring your print meets our quality standards.");
      ("Packaging",
       mkDescriptor "📦" "Carefully boxing your order" "packaging"
         "Safely packaging your order for shipment.");
      ("Shipped",
       mkDescriptor "✈️" "On its way to you!" "shipped"
         "Your order has been handed to the carrier.");
      ("Delivered",
       mkDescriptor "🎉" "Enjoy your print!" "delivered"
         "Your order has been delivered. Thanks for your order!") ].

(** Default status if unknown *)
Definition DEFAULT_STATUS : descriptor :=
  mkDescriptor "🐱" "Processing your order" "received"
    "Your order is being processed.".

(** The property names every object literal inherits from
    [Object.prototype]; each is bound to a function or an object. *)
Definition Object_prototype : list string :=
  [ "constructor"; "hasOwnProperty"; "isPrototypeOf"; "propertyIsEnumerable";
    "toLocaleString"; "toString"; "valueOf"; "__proto__";
    "__defineGetter__"; "__defineSetter__"; "__lookupGetter__"; "__lookupSetter__" ].

(** What [STATUS_CONFIG[status] || DEFAULT_STATUS] can evaluate to. *)
Inductive status_object :=
| Descriptor (d : descriptor)
| Inherited (key : string).     (* the member [key] of [Object.prototype] *)

(** [STATUS_CONFIG[status]]: own properties first, then the prototype;
    [None] is [undefined]. *)
Definition STATUS_CONFIG_get (status : string) : option status_object :=
  match STATUS_CONFIG !! status with
  | Some d => Some (Descriptor d)
  | None =>
      if bool_decide (status ∈ Object_prototype) then Some (Inherited status)
      else None
  end.

Definition getStatusConfig (status : string) : status_object :=
  default (Descriptor DEFAULT_STATUS) (STATUS_CONFIG_get status).

(** Property reads on the result; the members of [Object.prototype]
    have none of these properties. *)
Definition get_emoji (o : status_object) : option string :=
  match o with Descriptor d => Some (emoji d) | Inherited _ => None end.
Definition get_message (o : status_object) : option string :=
  match o with Descriptor d => Some (message d) | Inherited _ => None end.
Definition get_step (o : status_object) : option string :=
  match o with Descriptor d => Some (step d) | Inherited _ => None end.

Definition getStatusSteps : list string :=
  [ "received"; "queue"; "printing"; "processing"; "quality"; "packaging";
    "shipped"; "delivered" ].

(** [array.indexOf(x)]; [undefined] is not an element of an array of
    strings. *)
Fixpoint indexOf_from (i : Z) (l : list string) (x : string) : Z :=
  match l with
  | [] => -1
  | y :: l' => if String.eqb y x then i else indexOf_from (i + 1) l' x
  end.

Definition indexOf (l : list string) (x : option string) : Z :=
  match x with
  | Some s => indexOf_from 0 l s
  | None => -1
  end.

Definition getStatusIndex (step : option string) : Z :=
  let steps := getStatusSteps in
  indexOf steps step.

(** *** Animation *)

(** [String(step)] as a property key. *)
Definition property_key (step : option string) : string := default "undefined" step.

(** [config?.animationMode] and [config?.lottieUrls?.[key]] *)
Definition config_animationMode (h : host) : option string :=
  match orderTracker h with
  | Some config => animationMode config
  | None => None
  end.

Definition config_lottieUrl (h : host) (key : string) : option string :=
  match orderTracker h with
  | Some config =>
      match lottieUrls config with
      | Some urls => urls !! key
      | None => None
      end
  | None => None
  end.

Definition lottie_player (lottieUrl : string) : content :=
  Child "lottie-player"
    [ ("src", lottieUrl); ("background", "transparent"); ("speed", "1");
      ("style", "width: 150px; height: 150px;"); ("loop", ""); ("autoplay", "") ].

Definition renderAnimation (h : host) (step : option string)
    (statusConfig : status_object) (p : page) : page :=
  match status_emoji p with
  | None => p
  | Some _ =>
      let mode := JS.or_default (config_animationMode h) "emoji" in
      let url := config_lottieUrl h (property_key step) in
      if String.eqb mode "lottie" && JS.truthy_opt url then
        let lottieUrl := default "" url in
        if negb (utils_loaded h && Utils.isValidURL h lottieUrl) then
          Dom.set_status_emoji (Text (Dom.text_of (get_emoji statusConfig))) p
        else
          Dom.set_status_emoji (lottie_player lottieUrl) p
      else
        Dom.set_status_emoji (Text (Dom.text_of (get_emoji statusConfig))) p
  end.

(** *** Timeline *)

Definition mark_step (currentIndex : Z) (index : nat) (classes : JS.classList)
    : JS.classList :=
  let classes := JS.class_remove ["completed"; "active"] classes in
  if Z.of_nat index <? currentIndex then JS.class_add "completed" classes
  else if Z.of_nat index =? currentIndex then JS.class_add "active" classes
  else classes.

Definition updateTimeline (currentStep : option string) (p : page) : page :=
  let steps := timeline_steps p in
  let currentIndex := getStatusIndex currentStep in
  Dom.set_timeline_steps (imap (mark_step currentIndex) steps) p.

(** *** Order details *)

Definition update_product (o : envelope_order) (p : page) : page :=
  match order_product p with
  | Some _ => if JS.truthy_opt (product o)
              then Dom.set_order_product (Dom.text_of (product o)) p else p
  | None => p
  end.

Definition update_date (h : host) (o : envelope_order) (p : page) : page :=
  match order_date p with
  | Some _ =>
      if JS.truthy_opt (createdDate o) then
        let formattedDate :=
          if utils_loaded h then Utils.formatDate h (Dom.text_of (createdDate o))
          else Dom.text_of (createdDate o) in
        Dom.set_order_date formattedDate p
      else p
  | None => p
  end.

Definition update_tracking (o : envelope_order) (p : page) : page :=
  match tracking_container p, tracking_number p with
  | Some container, Some _ =>
      if JS.truthy_opt (trackingNumber o) then
        Dom.set_tracking_container (JS.class_remove ["hidden"] container)
          (Dom.set_tracking_number (Dom.text_of (trackingNumber o)) p)
      else
        Dom.set_tracking_container (JS.class_add "hidden" container) p
  | _, _ => p
  end.

Definition show_order_details (p : page) : page :=
  Dom.when (order_details p)
    (fun classes => Dom.set_order_details (JS.class_remove ["hidden"] classes)) p.

Definition updateOrderDetails (h : host) (o : envelope_order) (p : page) : page :=
  show_order_details (update_tracking o (update_date h o (update_product o p))).

Definition show_order_status (p : page) : page :=
  Dom.when (order_status p)
    (fun classes => Dom.set_order_status (JS.class_remove ["hidden"] classes)) p.

(** *** Display *)

(** Update status title *)
Definition update_title (o : envelope_order) (p : page) : page :=
  Dom.when (status_title p) (fun _ => Dom.set_status_title (status o)) p.

(** Update status message *)
Definition update_message (statusConfig : status_object) (p : page) : page :=
  Dom.when (status_message p)
    (fun _ => Dom.set_status_message (Text (Dom.text_of (get_message statusConfig)))) p.

(** The updates [displayOrderStatus] makes once [orderData.order] has
    been read. *)
Definition display_order (h : host) (o : envelope_order) (p : page) : page :=
  let statusConfig := getStatusConfig (status o) in
  let p := renderAnimation h (get_step statusConfig) statusConfig p in
  let p := update_title o p in
  let p := update_message statusConfig p in
  let p := updateOrderDetails h o p in
  let p := updateTimeline (get_step statusConfig) p in
  show_order_status p.

(** [displayOrderStatus(orderData)]: reading [order.status] throws when
    the envelope has no [order]. *)
Definition displayOrderStatus (h : host) (orderData : envelope) : M page unit :=
  match order orderData with
  | None => throw (JS.TypeError_undefined "status")
  | Some o => update (display_order h o)
  end.

(** The double quote character. *)
Definition dquote : ascii := ascii_of_nat 34.

Definition escape_char (c : ascii) : string :=
  if Ascii.eqb c "&" then "&amp;"
  else if Ascii.eqb c "<" then "&lt;"
  else if Ascii.eqb c ">" then "&gt;"
  else if Ascii.eqb c dquote then "&quot;"
  else if Ascii.eqb c "'" then "&#39;"
  else String c EmptyString.

(** [message.replace(re, m => table[m])] where [re] is the global
    pattern of the five characters ampersand, less-than, greater-than,
    double quote and apostrophe. *)
Fixpoint replace_special (s : string) : string :=
  match s with
  | EmptyString => EmptyString
  | String c r => escape_char c +:+ replace_special r
  end.

Definition error_markup (escapedMessage : string) : string :=
  JS.bytes [10]%nat +:+ "        <span class=" +:+ String dquote "error-message"
    +:+ String dquote ">❌ " +:+ escapedMessage +:+ "</span>"
    +:+ JS.bytes [10]%nat +:+ "      ".

Definition displayError (h : host) (message : string) (p : page) : page :=
  let p :=
    match status_message p with
    | Some _ =>
        let escapedMessage :=
          if utils_loaded h then Utils.escapeHTML message
          else replace_special message in
        Dom.set_status_message (Html (error_markup escapedMessage)) p
    | None => p
    end in
  let p := show_order_status p in
  Dom.when (status_timeline p) (fun _ => Dom.set_status_timeline "none") p.

Definition showLoading (p : page) : page :=
  let p := Dom.when (status_message p)
             (fun _ => Dom.set_status_message (Text "Looking up your order...")) p in
  let p := Dom.when (status_emoji p) (fun _ => Dom.set_status_emoji (Text "🐱")) p in
  let p := show_order_status p in
  let p := Dom.set_timeline_steps
             (map (JS.class_remove ["completed"; "active"]) (timeline_steps p)) p in
  Dom.when (status_timeline p) (fun _ => Dom.set_status_timeline "flex") p.

(** *** Lookup *)

(** [window.AdditiveArtisanConfig?.orderTracker?.apiEndpoint || ""] *)
Definition API_ENDPOINT (h : host) : string :=
  JS.or_default
    (match orderTracker h with
     | Some config => apiEndpoint config
     | None => None
     end) "".

Definition lookup_url (h : host) (orderId email : string) : string :=
  let url := API_ENDPOINT h +:+ "?orderId=" +:+ JS.encodeURIComponent orderId in
  if JS.truthy email then url +:+ "&email=" +:+ JS.encodeURIComponent email
  else url.

(** [await response.json()] *)
Definition response_json (r : response) : M page envelope :=
  match json r with
  | inl e => throw e
  | inr data => ret data
  end.

Definition fetchOrderStatus (h : host) (orderId email : string) : M page envelope :=
  try_catch
    (let url := lookup_url h orderId email in
     response <- (if api_loaded h
                  then Api.fetchWithRetry h url (∅ : gmap string string) 3
                  else (r <- fetch h url None ;; ret (Api.VResponse r))) ;;
     match response with
     | Api.VUndefined => throw (JS.TypeError_undefined "json")
     | Api.VResponse r =>
         data <- response_json r ;;
         if negb (ok r) || negb (success data)
         then throw (JS.Error (JS.or_default (error data) "Failed to fetch order status"))
         else ret data
     end)
    (fun error => throw error).

End Tracker.

(** ** [js/main.js]: the order search form *)

Module Main.

Definition showFormError (message : string) (i : Dom.which) (p : page) : page :=
  match Dom.get_input i p with
  | None => p
  | Some inputElement =>
      match in_group inputElement with
      | None => p
      | Some formGroup =>
          let errorElement :=
            match fg_error formGroup with
            | Some e => e
            | None => mkFieldError (in_id inputElement +:+ "-error") (Some "alert")
                        ["field-error"] ""
            end in
          let errorElement :=
            mkFieldError (fe_id errorElement) (fe_role errorElement)
              (JS.class_remove ["hidden"] (fe_classes errorElement)) message in
          Dom.set_input i
            (mkInput (in_id inputElement) (in_value inputElement)
               (Some (mkFormGroup (fg_classes formGroup) (Some errorElement)))
               (Some "true") (Some (fe_id errorElement))) p
      end
  end.

Definition clearFormError (i : Dom.which) (p : page) : page :=
  match Dom.get_input i p with
  | None => p
  | Some inputElement =>
      match in_group inputElement with
      | None => p
      | Some formGroup =>
          let error :=
            match fg_error formGroup with
            | Some e => Some (mkFieldError (fe_id e) (fe_role e)
                                (JS.class_add "hidden" (fe_classes e)) "")
            | None => None
            end in
          Dom.set_input i
            (mkInput (in_id inputElement) (in_value inputElement)
               (Some (mkFormGroup (fg_classes formGroup) error)) None None) p
      end
  end.

(** The inputs of the search form are [#order-id] and [#order-email]. *)
Definition clearAllFormErrors (p : page) : page :=
  clearFormError Dom.OrderEmail (clearFormError Dom.OrderId p).

(** [/^[A-Z]{2}-\d{4}-\d{4}$/] *)
Definition orderIdPattern : JS.regex :=
  JS.sequence
    (JS.times 2 (JS.Class [("A", "Z")]%char) ++ [JS.chr "-"]
     ++ JS.times 4 JS.digit ++ [JS.chr "-"] ++ JS.times 4 JS.digit).

(** [/^[a-zA-Z0-9._%+-]+@[a-zA-Z0-9.-]+\.[a-zA-Z]{2,}$/] *)
Definition emailRegex : JS.regex :=
  JS.sequence
    [ JS.plus (JS.Class [("a", "z"); ("A", "Z"); ("0", "9"); (".", "."); ("_", "_");
                         ("%", "%"); ("+", "+"); ("-", "-")]%char);
      JS.chr "@";
      JS.plus (JS.Class [("a", "z"); ("A", "Z"); ("0", "9"); (".", "."); ("-", "-")]%char);
      JS.chr ".";
      JS.at_least 2 (JS.Class [("a", "z"); ("A", "Z")]%char) ].

(** [emailInput && !emailInput.closest('.form-group').classList.contains('hidden')] *)
Definition emailFieldVisible (p : page) : M page bool :=
  match order_email_input p with
  | None => ret false
  | Some emailInput =>
      match in_group emailInput with
      | None => throw (JS.TypeError_null "classList")
      | Some formGroup => ret (negb (JS.class_contains "hidden" (fg_classes formGroup)))
      end
  end.

Definition handleOrderSearch (h : host) : M page unit :=
  p <- get_page ;;
  match order_id_input p with
  | None => ret tt
  | Some _ =>
      update clearAllFormErrors ;;;
      p <- get_page ;;
      let orderId := JS.trim (default "" (in_value <$> order_id_input p)) in
      let email := JS.trim (default "" (in_value <$> order_email_input p)) in
      if negb (JS.truthy orderId) then
        update (showFormError "Please enter an order number." Dom.OrderId)
      else if negb (JS.test orderIdPattern orderId) then
        update (showFormError "Invalid order ID format. Expected: AA-2024-0047"
                  Dom.OrderId)
      else
        visible <- emailFieldVisible p ;;
        if visible && negb (JS.truthy email) then
          update (showFormError "Please enter your email address." Dom.OrderEmail)
        else if JS.truthy email && negb (JS.test emailRegex email) then
          update (showFormError "Please enter a valid email address." Dom.OrderEmail)
        else if negb (tracker_loaded h) then
          update (showFormError
                    "Order tracking is currently unavailable. Please try again later."
                    Dom.OrderId)
        else
          try_catch
            (update Tracker.showLoading ;;;
             orderData <- Tracker.fetchOrderStatus h orderId email ;;
             Tracker.displayOrderStatus h orderData)
            (fun error =>
               update (Tracker.displayError h
                         (JS.or_default (Some (JS.err_message error))
                            "Unable to find order. Please check your order number and email address.")))
  end.

End Main.

(** ** Vocabulary of the statements *)

Module Spec.

(** An attempt fails when the request rejects or the response is not
    [ok]. *)
Definition failed (o : fetch_outcome) : bool :=
  match o with
  | FetchResolve r => negb (ok r)
  | FetchReject _ => true
  end.

Definition timeout_error : JS.error := JS.Error "Request timeout - please try again".

Definition http_error (r : response) : JS.error :=
  JS.Error ("HTTP " +:+ JS.number_to_string (resp_status r) +:+ ": " +:+ statusText r).

(** The failure a failed attempt stands for: the timeout error when
    the request was aborted, the transport's error otherwise, and the
    HTTP error for a response that is not [ok]. *)
Definition failure (o : fetch_outcome) : JS.error :=
  match o with
  | FetchReject e =>
      if String.eqb (JS.err_name e) "AbortError" then timeout_error else e
  | FetchResolve r => http_error r
  end.

Definition request (url : string) : event := EvFetch url (Some 10000).

(** [k] failed attempts numbered from [i], each followed by its wait
    of [2^i] seconds. *)
Fixpoint backoff (url : string) (i : Z) (k : nat) : list event :=
  match k with
  | O => []
  | S k' => request url :: EvWait (2 ^ i * 1000) :: backoff url (i + 1) k'
  end.

(** The world after [t] was observed, [n] requests having been made. *)
Definition after {page} (w : world page) (n : nat) (t : list event) : world page :=
  {| calls := calls w + n; trace := trace w ++ t; dom := dom w |}.

(** The world with its page replaced. *)
Definition with_page {page} (w : world page) (p : page) : world page :=
  {| calls := calls w; trace := trace w; dom := p |}.

Definition is_request (ev : event) : bool :=
  match ev with EvFetch _ _ => true | EvWait _ => false end.

(** The eight canonical labels, in the order of the stages. *)
Definition canonical_labels : list string :=
  [ "Order Received"; "In Queue"; "Printing"; "Post-Processing";
    "Quality Control"; "Packaging"; "Shipped"; "Delivered" ].

Definition upper (c : ascii) : Prop := (65 <= nat_of_ascii c <= 90)%nat.
Definition digit (c : ascii) : Prop := (48 <= nat_of_ascii c <= 57)%nat.

(** Two uppercase letters, hyphen, four digits, hyphen, four digits. *)
Inductive order_id_shape : string -> Prop :=
| OrderIdShape (a b d1 d2 d3 d4 d5 d6 d7 d8 : ascii) :
    upper a -> upper b ->
    digit d1 -> digit d2 -> digit d3 -> digit d4 ->
    digit d5 -> digit d6 -> digit d7 -> digit d8 ->
    order_id_shape
      (string_of_list_ascii [a; b; "-"; d1; d2; d3; d4; "-"; d5; d6; d7; d8]%char).

(** The validation message shown next to an input, when there is
    one. *)
Definition shown_error (i : option input) : option string :=
  match i with
  | Some inputElement =>
      match in_group inputElement with
      | Some formGroup =>
          match fg_error formGroup with
          | Some e => if JS.class_contains "hidden" (fe_classes e) then None
                      else Some (fe_text e)
          | None => None
          end
      | None => None
      end
  | None => None
  end.

(** What the animation element holds after [renderAnimation]. *)
Definition animation (h : host) (step : option string)
    (statusConfig : Tracker.status_object) : content :=
  let url := Tracker.config_lottieUrl h (Tracker.property_key step) in
  if String.eqb (JS.or_default (Tracker.config_animationMode h) "emoji") "lottie"
     && JS.truthy_opt url
     && utils_loaded h && Utils.isValidURL h (default "" url)
  then Tracker.lottie_player (default "" url)
  else Text (Dom.text_of (Tracker.get_emoji statusConfig)).

(** The text of a detail element after an update with the optional
    value [v]: kept when [v] is missing or empty. *)
Definition detail (v : option string) (shown : string -> string) (old : string) : string :=
  if JS.truthy_opt v then shown (Dom.text_of v) else old.

Definition date_shown (h : host) (d : string) : string :=
  if utils_loaded h then Utils.formatDate h d else d.

(** The page [display_order] leaves, field by field. *)
Definition displayed (h : host) (o : envelope_order) (p : page) : page :=
  let statusConfig := Tracker.getStatusConfig (status o) in
  let step := Tracker.get_step statusConfig in
  mkPage
    ((fun _ => animation h step statusConfig) <$> status_emoji p)
    ((fun _ => status o) <$> status_title p)
    ((fun _ => Text (Dom.text_of (Tracker.get_message statusConfig))) <$> status_message p)
    (detail (product o) id <$> order_product p)
    (detail (createdDate o) (date_shown h) <$> order_date p)
    (match tracking_container p, tracking_number p with
     | Some container, Some _ =>
         Some (if JS.truthy_opt (trackingNumber o)
               then JS.class_remove ["hidden"] container
               else JS.class_add "hidden" container)
     | container, _ => container
     end)
    (match tracking_container p, tracking_number p with
     | Some _, Some number => Some (detail (trackingNumber o) id number)
     | _, number => number
     end)
    (JS.class_remove ["hidden"] <$> order_details p)
    (JS.class_remove ["hidden"] <$> order_status p)
    (imap (Tracker.mark_step (Tracker.getStatusIndex step)) (timeline_steps p))
    (status_timeline p)
    (order_id_input p)
    (order_email_input p).

Definition completed (classes : JS.classList) : Prop := "completed" ∈ classes.
Definition active (classes : JS.classList) : Prop := "active" ∈ classes.

(** No stage of the timeline carries a mark. *)
Definition highlights_nothing (steps : list JS.classList) : Prop :=
  Forall (fun classes => ¬ completed classes ∧ ¬ active classes) steps.

(** The number of marks a stage carries. *)
Definition marks (classes : JS.classList) : nat :=
  length (filter (fun c => c ∈ ["completed"; "active"]) classes).

End Spec.

(** ** Concrete hosts, pages and responses *)

Module Examples.

(** A tracking page with the eight stages, as after a reset. *)
Definition tracking_page (orderIdValue : string) : page :=
  mkPage (Some (Text "🐱")) (Some "") (Some (Text "")) (Some "") (Some "")
    (Some ["hidden"]) (Some "") (Some ["hidden"]) (Some ["hidden"])
    (replicate 8 ["timeline-step"]) (Some "flex")
    (Some (mkInput "order-id" orderIdValue
             (Some (mkFormGroup ["form-group"] None)) None None))
    (Some (mkInput "order-email" ""
             (Some (mkFormGroup ["form-group"; "hidden"] None)) None None)).

Definition start (p : page) : world page := mkWorld 0 [] p.

Definition printing_order : envelope_order :=
  mkOrder "AA-2024-0047" "Printing" (Some "Test Product") None None None.

(** [200 OK] with [{success: true, order: {...}}] *)
Definition found (o : envelope_order) : response :=
  mkResponse true 200 "OK" (inr (mkEnvelope true (Some o) None)).

(** [200 OK] with [{success: false, error}] *)
Definition refused (message : string) : response :=
  mkResponse true 200 "OK" (inr (mkEnvelope false None (Some message))).

(** What the orders worker answers for an unknown order: [404] with
    [{success: false, error}]. *)
Definition not_found : response :=
  mkResponse false 404 "Not Found"
    (inr (mkEnvelope false None (Some "Order not found or email doesn't match"))).

Definition network_error : JS.error :=
  JS.mkError "TypeError" "Failed to fetch".

Definition configured : option tracker_config :=
  Some (mkTrackerConfig (Some "https://orders.example.workers.dev")
          (Some "emoji") None).

(** A host whose [n]-th request settles as [t n]. *)
Definition host_of (config : option tracker_config)
    (t : nat -> fetch_outcome) : host :=
  mkHost (fun n _ _ => t n) (fun _ => None) (fun d => d) config true true true.

(** Two aborted requests, then the order. *)
Definition flaky (n : nat) : fetch_outcome :=
  if (n <? 2)%nat then FetchReject AbortError
  else FetchResolve (found printing_order).

Definition always (o : fetch_outcome) (n : nat) : fetch_outcome := o.

End Examples.

(** ** Further functions of the scripts *)

Module Json.
Section Json.
Context {page : Type}.
Variable h : host.

(** [fetchJSON] of [js/api_helpers.js]: [fetchWithRetry], then
    [response.json()]. *)
Definition fetchJSON {options : Type} (url : string) (opts : options)
    (maxRetries : Z) : M page envelope :=
  response <- Api.fetchWithRetry h url opts maxRetries ;;
  match response with
  | Api.VUndefined => throw (JS.TypeError_undefined "json")
  | Api.VResponse r =>
      match json r with
      | inl e => throw e
      | inr data => ret data
      end
  end.

End Json.
End Json.

(** Observations on a trace. *)
Module Obs.

Definition requests (t : list event) : nat := length (filter (fun ev => Spec.is_request ev = true) t).

(** The time spent in backoff waits, in milliseconds. *)
Fixpoint total_wait (t : list event) : Z :=
  match t with
  | [] => 0
  | EvWait ms :: t' => ms + total_wait t'
  | EvFetch _ _ :: t' => total_wait t'
  end.

(** [r] is what the host answered to the last request of the trace
    [t], a trace that began when [n] requests had been made. *)
Definition last_answer (h : host) (n : nat) (t : list event) (r : response) : Prop :=
  exists (url : string) (a : option Z) (t' : list event),
    t = t' ++ [EvFetch url a]
    /\ transport h (n + requests t') url a = FetchResolve r.

End Obs.

(** What the search form holds when it is submitted. *)
Module Form.

(** The identifier and the email as the handler reads them. *)
Definition typed_id (p : page) : string :=
  JS.trim (default "" (in_value <$> order_id_input p)).

Definition typed_email (p : page) : string :=
  JS.trim (default "" (in_value <$> order_email_input p)).

(** Whether the email field shows: [Some false] without an email input,
    [None] when the input sits in no form group (the handler throws). *)
Definition email_visible (p : page) : option bool :=
  match order_email_input p with
  | None => Some false
  | Some emailInput =>
      match in_group emailInput with
      | None => None
      | Some formGroup => Some (negb (JS.class_contains "hidden" (fg_classes formGroup)))
      end
  end.

(** The email passes: it is given when its field shows, and well formed
    when given. *)
Definition email_passes (p : page) : Prop :=
  exists visible : bool,
    email_visible p = Some visible
    /\ (visible = true -> typed_email p <> "")
    /\ (typed_email p <> "" -> JS.test Main.emailRegex (typed_email p) = true).

(** What the handler does once the awaited lookup has ended with
    [result]: the rest of the [try] block, and the [catch] block. *)
Definition resume (h : host) (result : outcome envelope) : M page unit :=
  try_catch
    (match result with
     | Ok orderData => Tracker.displayOrderStatus h orderData
     | Throw error => throw error
     end)
    (fun error =>
       update (Tracker.displayError h
                 (JS.or_default (Some (JS.err_message error))
                    "Unable to find order. Please check your order number and email address."))).

(** The lookup and what follows it, from the cleared page on. *)
Definition search (h : host) (orderId email : string) : M page unit :=
  try_catch
    (update Tracker.showLoading ;;;
     orderData <- Tracker.fetchOrderStatus h orderId email ;;
     Tracker.displayOrderStatus h orderData)
    (fun error =>
       update (Tracker.displayError h
                 (JS.or_default (Some (JS.err_message error))
                    "Unable to find order. Please check your order number and email address."))).

End Form.

(** [checkOrderParam] of [js/main.js]: the deep link into the tracker. *)
Module DeepLink.
Section DeepLink.
Variable h : host.

(** What an input reads back after an assignment to its [value]: the
    value sanitisation of its type, which belongs to the browser. *)
Variables (id_value email_value : string -> string).

(** Whether [document.getElementById("order-search-form")] finds the
    form; the submit listener is attached to it during set-up. *)
Variable form_present : bool.

(** [input.value = v] on an input that may be missing. *)
Definition set_value (i : Dom.which) (v : string) (p : page) : page :=
  match Dom.get_input i p with
  | Some inputElement =>
      Dom.set_input i
        (mkInput (in_id inputElement) v (in_group inputElement)
           (aria_invalid inputElement) (aria_describedby inputElement)) p
  | None => p
  end.

(** The page with the parameters filled in. *)
Definition prefill (orderParam emailParam : option string) (p : page) : page :=
  let p := set_value Dom.OrderId (id_value (default "" orderParam)) p in
  if JS.truthy_opt emailParam
  then set_value Dom.OrderEmail (email_value (default "" emailParam)) p
  else p.

(** The dispatched submit event runs the handler; what the handler
    rejects with is not seen by the dispatcher. *)
Definition dispatch_submit : M page unit :=
  if form_present then try_catch (Main.handleOrderSearch h) (fun _ => ret tt)
  else ret tt.

(** [orderParam] and [emailParam] are [urlParams.get("order")] and
    [urlParams.get("email")], [hash] is [window.location.hash].  The
    callback of the timeout runs in sequence, after a wait of 100 ms. *)
Definition checkOrderParam (orderParam emailParam : option string) (hash : string)
    : M page unit :=
  if JS.truthy_opt orderParam && String.eqb hash "#track" then
    update (prefill orderParam emailParam) ;;;
    sleep 100 ;;;
    dispatch_submit
  else ret tt.

End DeepLink.
End DeepLink.

(** More sample pages. *)
Module Samples.

(** A tracking page whose email field shows. *)
Definition page_with_email (orderIdValue emailValue : string) : page :=
  mkPage (Some (Text "🐱")) (Some "") (Some (Text "")) (Some "") (Some "")
    (Some ["hidden"]) (Some "") (Some ["hidden"]) (Some ["hidden"])
    (replicate 8 ["timeline-step"]) (Some "flex")
    (Some (mkInput "order-id" orderIdValue
             (Some (mkFormGroup ["form-group"] None)) None None))
    (Some (mkInput "order-email" emailValue
             (Some (mkFormGroup ["form-group"] None)) None None)).

Definition served (r : response) : host :=
  Examples.host_of Examples.configured (Examples.always (FetchResolve r)).

End Samples.

(** The words of a regular expression. *)
Module Lang.

Inductive matches : JS.regex -> list ascii -> Prop :=
| MEmpty : matches JS.Empty []
| MClass ranges c : JS.in_ranges c ranges = true -> matches (JS.Class ranges) [c]
| MSeq r1 r2 u v : matches r1 u -> matches r2 v -> matches (JS.Seq r1 r2) (u ++ v)
| MAltL r1 r2 u : matches r1 u -> matches (JS.Alt r1 r2) u
| MAltR r1 r2 u : matches r2 u -> matches (JS.Alt r1 r2) u
| MStarNil r : matches (JS.Star r) []
| MStarCons r u v : matches r u -> matches (JS.Star r) v -> matches (JS.Star r) (u ++ v).

(** The character sets of the email pattern. *)
Definition letter (c : ascii) : Prop :=
  (97 <= nat_of_ascii c <= 122)%nat \/ (65 <= nat_of_ascii c <= 90)%nat.
Definition alphanumeric (c : ascii) : Prop :=
  letter c \/ (48 <= nat_of_ascii c <= 57)%nat.
Definition local_char (c : ascii) : Prop :=
  alphanumeric c \/ c ∈ ["."; "_"; "%"; "+"; "-"]%char.
Definition domain_char (c : ascii) : Prop :=
  alphanumeric c \/ c ∈ ["."; "-"]%char.

(** [local@domain.tld] *)
Definition email_shape (s : string) : Prop :=
  exists local domain tld : string,
    s = local +:+ "@" +:+ domain +:+ "." +:+ tld
    /\ local <> "" /\ Forall local_char (list_ascii_of_string local)
    /\ domain <> "" /\ Forall domain_char (list_ascii_of_string domain)
    /\ (2 <= String.length tld)%nat /\ Forall letter (list_ascii_of_string tld).

End Lang.

(** ** [js/main.js]: theme management *)

Module Theme.

(** The toggle button: its [aria-label] and its class list. *)
Record button := mkButton { aria_label : option string; button_classes : JS.classList }.

(** What a timeout set by [toggleTheme] does when it fires. *)
Inductive timer := StopPulsing | StopTransition.

Record state := mkState {
  data_theme : option string;       (* [data-theme] of the document element *)
  stored : option string;           (* [localStorage.getItem("theme")] *)
  prefers_dark : bool;              (* [matchMedia("(prefers-color-scheme: dark)").matches] *)
  themeToggle : option button;      (* [#theme-toggle] *)
  body_classes : JS.classList;
  transition_x : option string;     (* [--theme-transition-x] of the body *)
  transition_y : option string;
  timers : list (Z * timer)         (* pending timeouts, oldest first *)
}.

(** The click event: its coordinates, when it has them. *)
Record pointer := mkPointer { clientX : option Z; clientY : option Z }.

Definition getPreferredTheme (st : state) : string :=
  match stored st with
  | Some storedTheme =>
      if JS.truthy storedTheme then storedTheme
      else if prefers_dark st then "dark" else "light"
  | None => if prefers_dark st then "dark" else "light"
  end.

Definition setTheme (theme : string) (st : state) : state :=
  mkState (Some theme) (Some theme) (prefers_dark st)
    (match themeToggle st with
     | Some b =>
         Some (mkButton
                 (Some (if String.eqb theme "dark" then "Switch to light mode"
                        else "Switch to dark mode"))
                 (button_classes b))
     | None => None
     end)
    (body_classes st) (transition_x st) (transition_y st) (timers st).

(** An integer number of pixels, as the template literal prints it. *)
Definition px (n : Z) : string :=
  (if n <? 0 then "-" else "") +:+ JS.number_to_string (Z.abs_N n) +:+ "px".

Definition add_body_class (token : string) (st : state) : state :=
  mkState (data_theme st) (stored st) (prefers_dark st) (themeToggle st)
    (JS.class_add token (body_classes st)) (transition_x st) (transition_y st) (timers st).

Definition pulse (st : state) : state :=
  match themeToggle st with
  | Some b =>
      mkState (data_theme st) (stored st) (prefers_dark st)
        (Some (mkButton (aria_label b) (JS.class_add "pulsing" (button_classes b))))
        (body_classes st) (transition_x st) (transition_y st)
        (timers st ++ [(600, StopPulsing)])
  | None => st
  end.

Definition set_origin (e : option pointer) (st : state) : state :=
  match e with
  | Some {| clientX := Some x; clientY := Some y |} =>
      mkState (data_theme st) (stored st) (prefers_dark st) (themeToggle st)
        (body_classes st) (Some (px x)) (Some (px y)) (timers st)
  | _ => st
  end.

Definition set_timeout (ms : Z) (t : timer) (st : state) : state :=
  mkState (data_theme st) (stored st) (prefers_dark st) (themeToggle st)
    (body_classes st) (transition_x st) (transition_y st) (timers st ++ [(ms, t)]).

Definition toggleTheme (e : option pointer) (st : state) : state :=
  let st := set_origin e (pulse (add_body_class "theme-transitioning" st)) in
  let currentTheme := JS.or_default (data_theme st) "light" in
  let newTheme := if String.eqb currentTheme "dark" then "light" else "dark" in
  set_timeout 600 StopTransition (setTheme newTheme st).

Definition initTheme (st : state) : state := setTheme (getPreferredTheme st) st.

(** The listener of the system preference, called with the new value
    of [matches]. *)
Definition system_change (matches : bool) (st : state) : state :=
  let st := mkState (data_theme st) (stored st) matches (themeToggle st)
              (body_classes st) (transition_x st) (transition_y st) (timers st) in
  if negb (JS.truthy_opt (stored st))
  then setTheme (if matches then "dark" else "light") st
  else st.

End Theme.

(** ** [js/main.js]: navigation *)

Module Nav.

(** An element of the document, with what the navigation code reads
    and writes. *)
Record node := mkNode {
  node_id : option string;
  node_classes : JS.classList;
  data_section : option string;      (* [dataset.section] *)
  aria_expanded : option string
}.

Record state := mkState {
  nodes : list node;                 (* the elements, in document order *)
  pushState : bool;                  (* [history.pushState] exists *)
  pushed : list string;              (* the URLs given to [history.pushState] *)
  scrolls : nat                      (* calls of [window.scrollTo] *)
}.

Definition with_nodes (st : state) (ns : list node) : state :=
  mkState ns (pushState st) (pushed st) (scrolls st).

(** [document.querySelector("." + token)]: the first element of the
    class, with its position. *)
Definition querySelector (token : string) (ns : list node) : option (nat * node) :=
  list_find (fun n => token ∈ node_classes n) ns.

Definition getElementById (id : string) (ns : list node) : option (nat * node) :=
  list_find (fun n => node_id n = Some id) ns.

Definition set_expanded (v : string) (n : node) : node :=
  mkNode (node_id n) (node_classes n) (data_section n) (Some v).

Definition set_classes (f : JS.classList -> JS.classList) (n : node) : node :=
  mkNode (node_id n) (f (node_classes n)) (data_section n) (aria_expanded n).

(** [classList.toggle(token)] *)
Definition class_toggle (token : string) (cl : JS.classList) : JS.classList :=
  if JS.class_contains token cl then JS.class_remove [token] cl else JS.class_add token cl.

(** [classList.toggle(token, force)] *)
Definition class_force (token : string) (force : bool) (cl : JS.classList) : JS.classList :=
  if force then JS.class_add token cl else JS.class_remove [token] cl.

(** The cached [navToggle] and [navLinks]: the first [.nav-toggle] and
    the first [.nav-links]; the code changes the class [active] only,
    so the elements found stay the same. *)
Definition toggleMobileNav (st : state) : state :=
  match querySelector "nav-toggle" (nodes st), querySelector "nav-links" (nodes st) with
  | Some (navToggle, toggle), Some (navLinks, _) =>
      let isExpanded := bool_decide (aria_expanded toggle = Some "true") in
      with_nodes st
        (alter (set_classes (class_toggle "active")) navLinks
           (alter (set_expanded (if negb isExpanded then "true" else "false")) navToggle
              (nodes st)))
  | _, _ => st
  end.

Definition closeMobileNav (st : state) : state :=
  match querySelector "nav-toggle" (nodes st), querySelector "nav-links" (nodes st) with
  | Some (navToggle, _), Some (navLinks, _) =>
      with_nodes st
        (alter (set_classes (JS.class_remove ["active"])) navLinks
           (alter (set_expanded "false") navToggle (nodes st)))
  | _, _ => st
  end.

(** The two [forEach] loops of [navigateToSection]; [target] is the
    position of the element found. *)
Definition activate (sectionId : string) (target : nat) (ns : list node) : list node :=
  let ns :=
    imap (fun i section =>
            if JS.class_contains "section" (node_classes section)
            then set_classes (class_force "active" (bool_decide (i = target))) section
            else section) ns in
  map (fun link =>
         if JS.class_contains "nav-link" (node_classes link)
         then set_classes
                (class_force "active" (bool_decide (data_section link = Some sectionId))) link
         else link) ns.

Definition navigateToSection (sectionId : string) (st : state) : state :=
  if negb (JS.truthy sectionId) then st
  else
    match getElementById sectionId (nodes st) with
    | None => st
    | Some (targetSection, _) =>
        closeMobileNav
          (mkState (activate sectionId targetSection (nodes st)) (pushState st)
             (if pushState st then pushed st ++ ["#" +:+ sectionId] else pushed st)
             (S (scrolls st)))
    end.

(** [String.prototype.slice(1)] *)
Definition slice1 (s : string) : string :=
  match s with EmptyString => "" | String _ s' => s' end.

(** [hash] is [window.location.hash]. *)
Definition handleHashChange (hash : string) (st : state) : state :=
  let hash := slice1 hash in
  if JS.truthy hash && bool_decide (is_Some (getElementById hash (nodes st)))
  then navigateToSection hash st
  else navigateToSection "home" st.

(** The same element, up to the class [active] and [aria-expanded]. *)
Definition alike (n n' : node) : Prop :=
  node_id n' = node_id n
  /\ data_section n' = data_section n
  /\ forall token : string,
       token <> "active" -> token ∈ node_classes n' <-> token ∈ node_classes n.

(** What shows. *)
Definition active (n : node) : bool := JS.class_contains "active" (node_classes n).

Definition expanded (st : state) : bool :=
  match querySelector "nav-toggle" (nodes st) with
  | Some (_, toggle) => bool_decide (aria_expanded toggle = Some "true")
  | None => false
  end.

Definition menu_open (st : state) : bool :=
  match querySelector "nav-links" (nodes st) with
  | Some (_, links) => active links
  | None => false
  end.

(** A small document: two sections, the toggle, the menu with two
    links, and the order input. *)
Definition sample : state :=
  mkState
    [ mkNode (Some "home") ["section"; "active"] None None;
      mkNode (Some "track") ["section"] None None;
      mkNode None ["nav-toggle"] None (Some "true");
      mkNode None ["nav-links"; "active"] None None;
      mkNode None ["nav-link"; "active"] (Some "home") None;
      mkNode None ["nav-link"] (Some "track") None;
      mkNode (Some "order-id") [] None None ]
    true [] 0.

End Nav.

(** ** [js/main.js]: the contact form *)

Module Contact.

(** The [.form-success] element of a form. *)
Record success_element := mkSuccess {
  su_text : string;
  su_classes : JS.classList;
  su_role : option string;
  su_live : option string              (* [aria-live] *)
}.

(** The contact form: its inputs are [#contact-name], [#contact-email]
    and the textarea [#contact-message]. *)
Record form := mkForm {
  contact_name : option input;
  contact_email : option input;
  contact_message : option input;
  form_success : option success_element;
  hide_timers : list Z                 (* pending timeouts of [showFormSuccess] *)
}.

(** [showFormError] and [clearFormError] on the element itself. *)
Definition showFormError (message : string) (inputElement : input) : input :=
  match in_group inputElement with
  | None => inputElement
  | Some formGroup =>
      let errorElement :=
        match fg_error formGroup with
        | Some e => e
        | None => mkFieldError (in_id inputElement +:+ "-error") (Some "alert")
                    ["field-error"] ""
        end in
      let errorElement :=
        mkFieldError (fe_id errorElement) (fe_role errorElement)
          (JS.class_remove ["hidden"] (fe_classes errorElement)) message in
      mkInput (in_id inputElement) (in_value inputElement)
        (Some (mkFormGroup (fg_classes formGroup) (Some errorElement)))
        (Some "true") (Some (fe_id errorElement))
  end.

Definition clearFormError (inputElement : input) : input :=
  match in_group inputElement with
  | None => inputElement
  | Some formGroup =>
      let error :=
        match fg_error formGroup with
        | Some e => Some (mkFieldError (fe_id e) (fe_role e)
                            (JS.class_add "hidden" (fe_classes e)) "")
        | None => None
        end in
      mkInput (in_id inputElement) (in_value inputElement)
        (Some (mkFormGroup (fg_classes formGroup) error)) None None
  end.

Definition clearAllFormErrors (f : form) : form :=
  mkForm (clearFormError <$> contact_name f) (clearFormError <$> contact_email f)
    (clearFormError <$> contact_message f) (form_success f) (hide_timers f).

Definition showFormSuccess (message : string) (f : form) : form :=
  let successElement :=
    match form_success f with
    | Some e => e
    | None => mkSuccess "" ["form-success"] (Some "status") (Some "polite")
    end in
  mkForm (contact_name f) (contact_email f) (contact_message f)
    (Some (mkSuccess message (JS.class_remove ["hidden"] (su_classes successElement))
             (su_role successElement) (su_live successElement)))
    (hide_timers f ++ [5000]).

(** The timeout of [showFormSuccess], when it fires. *)
Definition hide_success (f : form) : form :=
  mkForm (contact_name f) (contact_email f) (contact_message f)
    (match form_success f with
     | Some e => Some (mkSuccess (su_text e) (JS.class_add "hidden" (su_classes e))
                         (su_role e) (su_live e))
     | None => None
     end)
    (tail (hide_timers f)).

(** The three inputs. *)
Inductive which := Name | Email | Message.

Definition get_input (i : which) (f : form) : option input :=
  match i with
  | Name => contact_name f
  | Email => contact_email f
  | Message => contact_message f
  end.

Definition error_on (i : which) (message : string) (f : form) : form :=
  match i with
  | Name =>
      mkForm (showFormError message <$> contact_name f) (contact_email f)
        (contact_message f) (form_success f) (hide_timers f)
  | Email =>
      mkForm (contact_name f) (showFormError message <$> contact_email f)
        (contact_message f) (form_success f) (hide_timers f)
  | Message =>
      mkForm (contact_name f) (contact_email f)
        (showFormError message <$> contact_message f) (form_success f) (hide_timers f)
  end.

(** [`${name}`] for a value that may be [undefined]. *)
Definition template (o : option string) : string := default "undefined" o.

Section Handler.

(** [new FormData(contactForm).get(name)] and [contactForm.reset()],
    which belong to the browser. *)
Variable formData : form -> string -> option string.
Variable reset : form -> form.

Definition handleContactSubmit (contactForm : option form) : option form :=
  match contactForm with
  | None => None
  | Some f =>
      let f := clearAllFormErrors f in
      let name := JS.trim <$> formData f "name" in
      let email := JS.trim <$> formData f "email" in
      let message := JS.trim <$> formData f "message" in
      if negb (JS.truthy_opt name) && bool_decide (is_Some (contact_name f)) then
        Some (error_on Name "Please enter your name." f)
      else if negb (JS.truthy_opt email) && bool_decide (is_Some (contact_email f)) then
        Some (error_on Email "Please enter your email address." f)
      else if JS.truthy_opt email && bool_decide (is_Some (contact_email f))
              && negb (JS.test Main.emailRegex (default "" email)) then
        Some (error_on Email "Please enter a valid email address." f)
      else if negb (JS.truthy_opt message) && bool_decide (is_Some (contact_message f)) then
        Some (error_on Message "Please enter a message." f)
      else
        Some (reset (showFormSuccess
                       ("Thank you for your message, " +:+ template name
                        +:+ "! We'll get back to you soon.") f))
  end.

End Handler.

(** A form whose controls are named after the three fields, and its
    form data. *)
Definition filled (name email message : string) : form :=
  mkForm
    (Some (mkInput "contact-name" name (Some (mkFormGroup ["form-group"] None)) None None))
    (Some (mkInput "contact-email" email (Some (mkFormGroup ["form-group"] None)) None None))
    (Some (mkInput "contact-message" message (Some (mkFormGroup ["form-group"] None))
             None None))
    None [].

Definition values (f : form) (key : string) : option string :=
  if String.eqb key "name" then in_value <$> contact_name f
  else if String.eqb key "email" then in_value <$> contact_email f
  else if String.eqb key "message" then in_value <$> contact_message f
  else None.

(** The inputs that show an error. *)
Definition errors (f : form) : list which :=
  filter (fun i => is_Some (Spec.shown_error (get_input i f))) [Name; Email; Message].

End Contact.

(** Blanks around what is typed. *)
Module Blank.

(** The ASCII white space: tab, line feed, vertical tab, form feed,
    carriage return and space. *)
Definition blank (c : ascii) : Prop := nat_of_ascii c ∈ [9; 10; 11; 12; 13; 32]%nat.

(** The visible ASCII characters. *)
Definition visible (c : ascii) : Prop := (33 <= nat_of_ascii c <= 126)%nat.

Definition blanks (s : string) : Prop := Forall blank (list_ascii_of_string s).

(** A non-empty string of visible ASCII characters. *)
Definition word (s : string) : Prop :=
  s <> "" /\ Forall visible (list_ascii_of_string s).

End Blank.

(** ** Facts about the monad *)

Section MonadFacts.
Context {page : Type}.
Implicit Types w : world page.

Lemma after_0 w : Spec.after w 0 [] = w.
Proof. destruct w. unfold Spec.after. simpl. by rewrite Nat.add_0_r, app_nil_r. Qed.

Lemma after_after w n m t u :
  Spec.after (Spec.after w n t) m u = Spec.after w (n + m) (t ++ u).
Proof. unfold Spec.after. simpl. by rewrite Nat.add_assoc, app_assoc. Qed.

Lemma fetch_run (h : host) url a w :
  fetch h url a w =
    (match transport h (calls w) url a with
     | FetchResolve r => Ok r
     | FetchReject e => Throw e
     end, Spec.after w 1 [EvFetch url a]).
Proof.
  unfold fetch, Spec.after. rewrite Nat.add_1_r.
  by destruct (transport h (calls w) url a).
Qed.

Lemma sleep_run ms w : sleep ms w = (Ok tt, Spec.after w 0 [EvWait ms]).
Proof. unfold sleep, log, Spec.after. by rewrite Nat.add_0_r. Qed.

End MonadFacts.

(** ** Facts about [fetchWithRetry] *)

Section ApiFacts.
Context {page : Type}.
Variable h : host.
Implicit Types w : world page.

(** Rewrites the index of the request the goal speaks of. *)
Local Ltac reindex n :=
  match goal with
  | |- context [transport h ?a] => replace a with n by (simpl; lia)
  end.

Lemma fetchWithTimeout_run url timeout w :
  Api.fetchWithTimeout h url timeout w =
    (match transport h (calls w) url (Some timeout) with
     | FetchResolve r => Ok r
     | o => Throw (Spec.failure o)
     end, Spec.after w 1 [EvFetch url (Some timeout)]).
Proof.
  unfold Api.fetchWithTimeout, try_catch. rewrite fetch_run.
  destruct (transport h (calls w) url (Some timeout)) as [r|e]; [done|].
  simpl. by destruct (String.eqb _ _).
Qed.

(** A failed attempt ends the loop with its failure when it is the
    last one, and falls through to the wait otherwise. *)
Lemma attempt_failed url maxRetries i w :
  Spec.failed (transport h (calls w) url (Some 10000)) = true ->
  Api.attempt h url maxRetries i w =
    (if i =? maxRetries - 1
     then Throw (Spec.failure (transport h (calls w) url (Some 10000)))
     else Ok None,
     Spec.after w 1 [Spec.request url]).
Proof.
  intros Hf. unfold Api.attempt, try_catch, bind. rewrite fetchWithTimeout_run.
  destruct (transport h (calls w) url (Some 10000)) as [r|e]; simpl in *.
  - destruct (ok r); [done|]. by destruct (i =? maxRetries - 1).
  - by destruct (i =? maxRetries - 1).
Qed.

Lemma attempt_ok url maxRetries i w r :
  transport h (calls w) url (Some 10000) = FetchResolve r -> ok r = true ->
  Api.attempt h url maxRetries i w =
    (Ok (Some (Api.VResponse r)), Spec.after w 1 [Spec.request url]).
Proof.
  intros Ht Hok. unfold Api.attempt, try_catch, bind.
  rewrite fetchWithTimeout_run, Ht. simpl. by rewrite Hok.
Qed.

(** [k] failures followed by a success, from iteration [i] on. *)
Lemma retry_loop_success url maxRetries r k : forall n i w,
  (k < n)%nat -> i + Z.of_nat k < maxRetries ->
  (forall j, (j < k)%nat ->
     Spec.failed (transport h (calls w + j) url (Some 10000)) = true) ->
  transport h (calls w + k) url (Some 10000) = FetchResolve r -> ok r = true ->
  Api.retry_loop h n url maxRetries i w =
    (Ok (Api.VResponse r),
     Spec.after w (k + 1) (Spec.backoff url i k ++ [Spec.request url])).
Proof.
  induction k as [|k IH]; intros n i w Hn Hi Hfail Hres Hok;
    (destruct n as [|n]; [lia|]); simpl.
  - destruct (Z.ltb_spec i maxRetries); [|lia].
    rewrite Nat.add_0_r in Hres. unfold bind.
    by rewrite (attempt_ok _ _ _ _ _ Hres Hok).
  - destruct (Z.ltb_spec i maxRetries); [|lia].
    unfold bind at 1. rewrite attempt_failed.
    2:{ specialize (Hfail 0%nat). rewrite Nat.add_0_r in Hfail. apply Hfail. lia. }
    destruct (Z.eqb_spec i (maxRetries - 1)); [lia|].
    unfold bind. rewrite sleep_run, after_after.
    rewrite (IH n (i + 1) _).
    + by rewrite after_after.
    + lia.
    + lia.
    + intros j Hj. reindex (calls w + S j)%nat. apply Hfail. lia.
    + by reindex (calls w + S k)%nat.
    + done.
Qed.

(** [k + 1] failures, the last of them in the last iteration. *)
Lemma retry_loop_exhausted url maxRetries k : forall n i w,
  (k < n)%nat -> i + Z.of_nat k = maxRetries - 1 ->
  (forall j, (j <= k)%nat ->
     Spec.failed (transport h (calls w + j) url (Some 10000)) = true) ->
  Api.retry_loop h n url maxRetries i w =
    (Throw (Spec.failure (transport h (calls w + k) url (Some 10000))),
     Spec.after w (k + 1) (Spec.backoff url i k ++ [Spec.request url])).
Proof.
  induction k as [|k IH]; intros n i w Hn Hi Hfail;
    (destruct n as [|n]; [lia|]); simpl;
    (destruct (Z.ltb_spec i maxRetries); [|lia]);
    unfold bind at 1; rewrite attempt_failed
      by (specialize (Hfail 0%nat); rewrite Nat.add_0_r in Hfail; apply Hfail; lia).
  - destruct (Z.eqb_spec i (maxRetries - 1)); [|lia]. by rewrite Nat.add_0_r.
  - destruct (Z.eqb_spec i (maxRetries - 1)); [lia|].
    unfold bind. rewrite sleep_run, after_after.
    rewrite (IH n (i + 1) _).
    + rewrite after_after. by reindex (calls w + S k)%nat.
    + lia.
    + lia.
    + intros j Hj. reindex (calls w + S j)%nat. apply Hfail. lia.
Qed.

(** Without iterations left the loop returns [undefined] at once. *)
Lemma retry_loop_done n url maxRetries i w :
  maxRetries <= i ->
  Api.retry_loop h n url maxRetries i w = (Ok Api.VUndefined, w).
Proof.
  intros Hi. destruct n as [|n]; simpl; [done|].
  by destruct (Z.ltb_spec i maxRetries); [lia|].
Qed.

(** Every event the loop adds is a wait or a request of [url] with the
    10000 ms abort timer. *)
Lemma retry_loop_requests url maxRetries : forall n i w,
  exists t : list event,
    trace (Api.retry_loop h n url maxRetries i w).2 = trace w ++ t
    /\ Forall (fun ev => Spec.is_request ev = true -> ev = Spec.request url) t.
Proof.
  induction n as [|n IH]; intros i w; simpl.
  - exists []. by rewrite app_nil_r.
  - destruct (i <? maxRetries); [|exists []; by rewrite app_nil_r].
    unfold bind at 1.
    assert (Hatt : exists o, Api.attempt h url maxRetries i w =
                               (o, Spec.after w 1 [Spec.request url])).
    { unfold Api.attempt, try_catch, bind. rewrite fetchWithTimeout_run.
      destruct (transport h (calls w) url (Some 10000)) as [r|e]; simpl.
      - destruct (ok r); [by eexists|]. destruct (i =? maxRetries - 1); by eexists.
      - destruct (i =? maxRetries - 1); by eexists. }
    destruct Hatt as [o ->].
    destruct o as [[v|]|e]; simpl.
    + exists [Spec.request url]. split; [done|]. by repeat constructor.
    + unfold bind. rewrite sleep_run, after_after.
      destruct (IH (i + 1) (Spec.after w (1 + 0) ([Spec.request url] ++ [EvWait (2 ^ i * 1000)])))
        as (t & -> & Ht).
      exists (Spec.request url :: EvWait (2 ^ i * 1000) :: t). simpl.
      split; [by rewrite <- app_assoc|].
      constructor; [done|]. constructor; [done|]. done.
    + exists [Spec.request url]. split; [done|]. by repeat constructor.
Qed.

End ApiFacts.

(** C1. If the first [k] attempts fail ([k < maxRetries]) and the next
    one yields an [ok] response, [fetchWithRetry] resolves with that
    response after exactly [k + 1] requests, waiting [2^i] seconds after
    failed attempt [i]; if all [maxRetries] attempts fail, it makes
    exactly [maxRetries] requests, with the same waits between them, and
    rejects with the failure of the last one (the timeout error, the
    transport's error, or the HTTP error). *)
Theorem fetchWithRetry_backoff {page options : Type} (h : host) (url : string)
    (opts : options) (maxRetries : Z) (w : world page) :
  (forall (k : nat) (r : response),
      Z.of_nat k < maxRetries ->
      (forall j, (j < k)%nat ->
         Spec.failed (transport h (calls w + j) url (Some 10000)) = true) ->
      transport h (calls w + k) url (Some 10000) = FetchResolve r ->
      ok r = true ->
      Api.fetchWithRetry h url opts maxRetries w =
        (Ok (Api.VResponse r),
         Spec.after w (k + 1) (Spec.backoff url 0 k ++ [Spec.request url])))
  /\
  (0 < maxRetries ->
   (forall j, (j < Z.to_nat maxRetries)%nat ->
      Spec.failed (transport h (calls w + j) url (Some 10000)) = true) ->
   Api.fetchWithRetry h url opts maxRetries w =
     (Throw (Spec.failure
               (transport h (calls w + (Z.to_nat maxRetries - 1)) url (Some 10000))),
      Spec.after w (Z.to_nat maxRetries)
        (Spec.backoff url 0 (Z.to_nat maxRetries - 1) ++ [Spec.request url]))).
Proof.
  split.
  - intros k r Hk Hfail Hres Hok. unfold Api.fetchWithRetry.
    apply retry_loop_success; try done; lia.
  - intros Hpos Hfail. unfold Api.fetchWithRetry.
    rewrite (retry_loop_exhausted h url maxRetries (Z.to_nat maxRetries - 1)).
    + do 2 f_equal. lia.
    + lia.
    + lia.
    + intros j Hj. apply Hfail. lia.
Qed.

Lemma fetchWithRetry_backoff_witness :
  Api.fetchWithRetry (Examples.host_of Examples.configured Examples.flaky)
    "/orders" tt 3 (Examples.start (Examples.tracking_page ""))
  = (Ok (Api.VResponse (Examples.found Examples.printing_order)),
     mkWorld 3
       [EvFetch "/orders" (Some 10000); EvWait 1000;
        EvFetch "/orders" (Some 10000); EvWait 2000;
        EvFetch "/orders" (Some 10000)]
       (Examples.tracking_page ""))
  /\
  Api.fetchWithRetry
    (Examples.host_of Examples.configured (Examples.always (FetchReject AbortError)))
    "/orders" tt 3 (Examples.start (Examples.tracking_page ""))
  = (Throw Spec.timeout_error,
     mkWorld 3
       [EvFetch "/orders" (Some 10000); EvWait 1000;
        EvFetch "/orders" (Some 10000); EvWait 2000;
        EvFetch "/orders" (Some 10000)]
       (Examples.tracking_page "")).
Proof.
  split.
  - apply (proj1 (fetchWithRetry_backoff
                    (Examples.host_of Examples.configured Examples.flaky)
                    "/orders" tt 3 (Examples.start (Examples.tracking_page "")))
             2%nat (Examples.found Examples.printing_order)).
    + reflexivity.
    + intros [|[|j]] Hj; [reflexivity | reflexivity | lia].
    + reflexivity.
    + reflexivity.
  - apply (proj2 (fetchWithRetry_backoff
                    (Examples.host_of Examples.configured
                       (Examples.always (FetchReject AbortError)))
                    "/orders" tt 3 (Examples.start (Examples.tracking_page "")))).
    + reflexivity.
    + intros j Hj. reflexivity.
Defined.

(** C9. With [maxRetries] zero or negative, [fetchWithRetry] issues no
    request and no wait, and resolves with [undefined]: it neither
    returns a response nor rejects. *)
Theorem fetchWithRetry_no_attempt {page options : Type} (h : host) (url : string)
    (opts : options) (maxRetries : Z) (w : world page) :
  maxRetries <= 0 ->
  Api.fetchWithRetry h url opts maxRetries w = (Ok Api.VUndefined, w).
Proof.
  intros Hle. unfold Api.fetchWithRetry. by apply retry_loop_done.
Qed.

Lemma fetchWithRetry_no_attempt_witness :
  0 <= 0 /\
  Api.fetchWithRetry (Examples.host_of Examples.configured Examples.flaky)
    "/orders" tt 0 (Examples.start (Examples.tracking_page ""))
  = (Ok Api.VUndefined, Examples.start (Examples.tracking_page "")).
Proof.
  split; [lia|].
  apply (fetchWithRetry_no_attempt
           (Examples.host_of Examples.configured Examples.flaky) "/orders" tt 0).
  lia.
Defined.

(** C10. The [options] argument of [fetchWithRetry] does not reach the
    requests: two runs that differ only in [options] give the same
    result and the same world, and every request added to the trace is a
    request of the bare [url] with the fixed 10000 ms abort timer. *)
Theorem fetchWithRetry_ignores_options {page A B : Type} (h : host) (url : string)
    (o1 : A) (o2 : B) (maxRetries : Z) (w : world page) :
  Api.fetchWithRetry h url o1 maxRetries w = Api.fetchWithRetry h url o2 maxRetries w
  /\ exists t : list event,
       trace (Api.fetchWithRetry h url o1 maxRetries w).2 = trace w ++ t
       /\ Forall (fun ev => Spec.is_request ev = true -> ev = EvFetch url (Some 10000)) t.
Proof.
  split; [reflexivity|]. unfold Api.fetchWithRetry. apply retry_loop_requests.
Qed.

(** ** Facts about class lists and the timeline *)

Section ClassFacts.
Implicit Types (cl : JS.classList) (c t : string) (tokens : list string).

Lemma class_remove_elem tokens cl c :
  (c ∈ JS.class_remove tokens cl) <-> (c ∉ tokens) /\ (c ∈ cl).
Proof. unfold JS.class_remove. by rewrite list_elem_of_filter. Qed.

Lemma class_add_elem t cl c : (c ∈ JS.class_add t cl) <-> c = t \/ (c ∈ cl).
Proof.
  unfold JS.class_add. destruct (decide (t ∈ cl)) as [Hin|Hout].
  - split; [by right|]. by intros [->|].
  - rewrite elem_of_app, list_elem_of_singleton. tauto.
Qed.

Lemma class_remove_id tokens cl :
  (forall c, c ∈ tokens -> c ∉ cl) -> JS.class_remove tokens cl = cl.
Proof.
  unfold JS.class_remove. induction cl as [|x cl IH]; intros Hno; [done|].
  rewrite filter_cons_True.
  - f_equal. apply IH. intros c Hc Hin. apply (Hno c Hc). by right.
  - intros Hx. apply (Hno x Hx). by left.
Qed.

Lemma class_remove_idem tokens cl :
  JS.class_remove tokens (JS.class_remove tokens cl) = JS.class_remove tokens cl.
Proof.
  apply class_remove_id. intros c Hc Hin.
  apply class_remove_elem in Hin. tauto.
Qed.

Lemma class_remove_add tokens t cl :
  t ∈ tokens ->
  JS.class_remove tokens (JS.class_add t cl) = JS.class_remove tokens cl.
Proof.
  intros Ht. unfold JS.class_add. destruct (decide (t ∈ cl)); [done|].
  unfold JS.class_remove. rewrite filter_app, filter_cons_False, filter_nil by tauto.
  apply app_nil_r.
Qed.

Lemma class_add_idem t cl : JS.class_add t (JS.class_add t cl) = JS.class_add t cl.
Proof.
  unfold JS.class_add at 1. destruct (decide _) as [|Hout]; [done|].
  destruct Hout. apply class_add_elem. by left.
Qed.

(** Once the marks are removed none is left to count. *)
Lemma marks_removed cl : Spec.marks (JS.class_remove ["completed"; "active"] cl) = 0%nat.
Proof.
  unfold Spec.marks, JS.class_remove. induction cl as [|x cl IH]; [done|].
  destruct (decide (x ∈ ["completed"; "active"])) as [Hx|Hx].
  - by rewrite filter_cons_False by tauto.
  - rewrite filter_cons_True by done. by rewrite filter_cons_False.
Qed.

Lemma marks_added t cl :
  Spec.marks cl = 0%nat -> (Spec.marks (JS.class_add t cl) <= 1)%nat.
Proof.
  unfold Spec.marks, JS.class_add. intros H0.
  destruct (decide (t ∈ cl)); [lia|].
  rewrite filter_app, length_app, H0. simpl.
  rewrite filter_cons, filter_nil. destruct (decide _); simpl; lia.
Qed.

End ClassFacts.

Section TimelineFacts.
Implicit Types (k : Z) (i : nat) (cl : JS.classList).

(** Closes [x ∈ l] for an [x] that occurs in the given list [l]. *)
Local Ltac present :=
  repeat first [apply list_elem_of_here | apply list_elem_of_further].

Lemma mark_step_before k i cl :
  Z.of_nat i < k ->
  Spec.completed (Tracker.mark_step k i cl) /\ ¬ Spec.active (Tracker.mark_step k i cl).
Proof.
  intros Hlt. unfold Tracker.mark_step, Spec.completed, Spec.active.
  destruct (Z.ltb_spec (Z.of_nat i) k); [|lia].
  rewrite !class_add_elem, !class_remove_elem. split; [by left|].
  intros [Heq|[Hno _]]; [done|]. apply Hno. present.
Qed.

Lemma mark_step_current k i cl :
  Z.of_nat i = k ->
  Spec.active (Tracker.mark_step k i cl) /\ ¬ Spec.completed (Tracker.mark_step k i cl).
Proof.
  intros Heq. unfold Tracker.mark_step, Spec.completed, Spec.active.
  destruct (Z.ltb_spec (Z.of_nat i) k); [lia|].
  destruct (Z.eqb_spec (Z.of_nat i) k); [|lia].
  rewrite !class_add_elem, !class_remove_elem. split; [by left|].
  intros [Hne|[Hno _]]; [done|]. apply Hno. present.
Qed.

Lemma mark_step_after k i cl :
  k < Z.of_nat i ->
  Tracker.mark_step k i cl = JS.class_remove ["completed"; "active"] cl
  /\ ¬ Spec.completed (Tracker.mark_step k i cl)
  /\ ¬ Spec.active (Tracker.mark_step k i cl).
Proof.
  intros Hlt. unfold Tracker.mark_step, Spec.completed, Spec.active.
  destruct (Z.ltb_spec (Z.of_nat i) k); [lia|].
  destruct (Z.eqb_spec (Z.of_nat i) k); [lia|].
  rewrite !class_remove_elem. split; [done|]. split; intros [Hno _]; apply Hno; present.
Qed.

(** A stage without marks that lies after the current one keeps its
    class list as it is. *)
Lemma mark_step_untouched k i cl :
  k < Z.of_nat i -> ¬ Spec.completed cl -> ¬ Spec.active cl ->
  Tracker.mark_step k i cl = cl.
Proof.
  intros Hlt Hc Ha. destruct (mark_step_after k i cl Hlt) as [-> _].
  apply class_remove_id. intros c Hin.
  apply elem_of_cons in Hin as [->|Hin]; [exact Hc|].
  apply list_elem_of_singleton in Hin as ->. exact Ha.
Qed.

(** The other classes of a stage are kept. *)
Lemma mark_step_others k i cl c :
  c ∉ ["completed"; "active"] -> (c ∈ Tracker.mark_step k i cl) <-> (c ∈ cl).
Proof.
  intros Hc. unfold Tracker.mark_step.
  destruct (_ <? _); [|destruct (_ =? _)];
    rewrite ?class_add_elem, class_remove_elem;
    intuition (subst; try done); destruct Hc; present.
Qed.

Lemma mark_step_idem k i cl :
  Tracker.mark_step k i (Tracker.mark_step k i cl) = Tracker.mark_step k i cl.
Proof.
  unfold Tracker.mark_step.
  destruct (_ <? _); [|destruct (_ =? _)];
    rewrite ?class_remove_add, ?class_remove_idem by present; reflexivity.
Qed.

Lemma mark_step_marks k i cl : (Spec.marks (Tracker.mark_step k i cl) <= 1)%nat.
Proof.
  unfold Tracker.mark_step.
  destruct (_ <? _); [|destruct (_ =? _)];
    try apply marks_added; rewrite marks_removed; lia.
Qed.

End TimelineFacts.

(** ** Facts about the status registry *)

Section RegistryFacts.

(** The keys of the table are the canonical labels. *)
Lemma STATUS_CONFIG_unknown (status : string) :
  status ∉ Spec.canonical_labels -> Tracker.STATUS_CONFIG !! status = None.
Proof. intros Hno. by apply not_elem_of_list_to_map. Qed.

Lemma getStatusConfig_default (status : string) :
  status ∉ Spec.canonical_labels -> status ∉ Tracker.Object_prototype ->
  Tracker.getStatusConfig status = Tracker.Descriptor Tracker.DEFAULT_STATUS.
Proof.
  intros Hlabel Hproto. unfold Tracker.getStatusConfig, Tracker.STATUS_CONFIG_get.
  rewrite (STATUS_CONFIG_unknown status Hlabel).
  by rewrite (bool_decide_eq_false_2 _ Hproto).
Qed.

Lemma timeline_steps_updateTimeline (step : option string) (p : page) :
  timeline_steps (Tracker.updateTimeline step p) =
    imap (Tracker.mark_step (Tracker.getStatusIndex step)) (timeline_steps p).
Proof. reflexivity. Qed.

End RegistryFacts.

Lemma label_stage_index (i : nat) (label : string) :
  Spec.canonical_labels !! i = Some label ->
  Tracker.getStatusIndex (Tracker.get_step (Tracker.getStatusConfig label)) = Z.of_nat i
  /\ (i < 8)%nat.
Proof.
  intros Hlabel.
  do 8 (destruct i as [|i]; [injection Hlabel as <-; split; [reflexivity | lia] |]).
  discriminate Hlabel.
Qed.

(** C5. For each of the eight canonical labels, the stage index of the
    step of its registry descriptor is the position of the label in the
    canonical sequence.  The lookup reads the constant tables and its
    argument only: as a function it gives the same result on every
    call. *)
Theorem stage_index_of_label (i : nat) (label : string) :
  Spec.canonical_labels !! i = Some label ->
  Tracker.getStatusIndex (Tracker.get_step (Tracker.getStatusConfig label)) = Z.of_nat i
  /\ (i < 8)%nat.
Proof. apply label_stage_index. Qed.

Lemma stage_index_of_label_witness :
  Spec.canonical_labels !! 6%nat = Some "Shipped"
  /\ Tracker.getStatusIndex (Tracker.get_step (Tracker.getStatusConfig "Shipped")) = 6.
Proof.
  split; [reflexivity|].
  apply (stage_index_of_label 6 "Shipped"). reflexivity.
Defined.

(** C2, as the claim states it, fails: the default descriptor returned
    for the unknown label ["Unknown Status"] has step ["received"], whose
    stage index is 0 and not a sentinel, so the timeline does get a
    highlight (its first stage becomes active). *)
Lemma unknown_status_highlights_first_stage :
  ("Unknown Status" ∉ Spec.canonical_labels)
  /\ Tracker.getStatusIndex
       (Tracker.get_step (Tracker.getStatusConfig "Unknown Status")) = 0
  /\ ¬ Spec.highlights_nothing
         (timeline_steps
            (Tracker.updateTimeline
               (Tracker.get_step (Tracker.getStatusConfig "Unknown Status"))
               (Examples.tracking_page ""))).
Proof.
  split; [|split].
  - intros Hin. repeat (apply elem_of_cons in Hin as [Heq|Hin]; [discriminate Heq|]).
    by apply elem_of_nil in Hin.
  - reflexivity.
  - intros Hnone. apply Forall_cons in Hnone as [[_ Hactive] _].
    apply Hactive. unfold Spec.active. vm_compute. apply elem_of_cons. right. by left.
Qed.

(** C2, amended.  For every string that is neither a canonical label nor
    the name of a property inherited from [Object.prototype], the lookup
    returns the default descriptor; its step is ["received"], of stage
    index 0, so the timeline marks its first stage active and no stage
    completed; and unless the animation mode is ["lottie"], the
    animation shows the neutral glyph of the default descriptor. *)
Theorem getStatusConfig_unknown (status : string) :
  status ∉ Spec.canonical_labels -> status ∉ Tracker.Object_prototype ->
  let statusConfig := Tracker.getStatusConfig status in
  statusConfig = Tracker.Descriptor Tracker.DEFAULT_STATUS
  /\ Tracker.get_step statusConfig = Some "received"
  /\ Tracker.getStatusIndex (Tracker.get_step statusConfig) = 0
  /\ (forall (p : page) (i : nat) (classes : JS.classList),
        timeline_steps (Tracker.updateTimeline (Tracker.get_step statusConfig) p) !! i
          = Some classes ->
        ¬ Spec.completed classes /\ (Spec.active classes <-> i = 0%nat))
  /\ (forall (h : host) (p : page),
        status_emoji p <> None ->
        JS.or_default (Tracker.config_animationMode h) "emoji" <> "lottie" ->
        status_emoji (Tracker.renderAnimation h (Tracker.get_step statusConfig)
                        statusConfig p)
          = Some (Text "🐱")).
Proof.
  intros Hlabel Hproto statusConfig. subst statusConfig.
  rewrite (getStatusConfig_default status Hlabel Hproto). simpl Tracker.get_step.
  split; [done|]. split; [done|]. split; [done|]. split.
  - intros p i classes. rewrite timeline_steps_updateTimeline, list_lookup_imap.
    change (Tracker.getStatusIndex (Some "received")) with 0.
    destruct (timeline_steps p !! i) as [cl|]; [|done].
    simpl. intros [= <-]. destruct i as [|i].
    + destruct (mark_step_current 0 0 cl) as [Ha Hc]; [done|]. tauto.
    + destruct (mark_step_after 0 (S i) cl) as (_ & Hc & Ha); [lia|].
      split; [done|]. split; [tauto | discriminate].
  - intros h p Hemoji Hmode. unfold Tracker.renderAnimation.
    destruct (status_emoji p) as [e|]; [|done].
    destruct (String.eqb_spec (JS.or_default (Tracker.config_animationMode h) "emoji")
                "lottie") as [Heq|_]; [done|].
    reflexivity.
Qed.

Lemma getStatusConfig_unknown_witness :
  Tracker.getStatusConfig "Unknown Status" = Tracker.Descriptor Tracker.DEFAULT_STATUS
  /\ Tracker.getStatusIndex (Tracker.get_step (Tracker.getStatusConfig "Unknown Status")) = 0.
Proof.
  assert (Hlabel : "Unknown Status" ∉ Spec.canonical_labels).
  { intros Hin. repeat (apply elem_of_cons in Hin as [Heq|Hin]; [discriminate Heq|]).
    by apply elem_of_nil in Hin. }
  assert (Hproto : "Unknown Status" ∉ Tracker.Object_prototype).
  { intros Hin. repeat (apply elem_of_cons in Hin as [Heq|Hin]; [discriminate Heq|]).
    by apply elem_of_nil in Hin. }
  destruct (getStatusConfig_unknown "Unknown Status" Hlabel Hproto)
    as (Hd & _ & Hi & _).
  split; [exact Hd | exact Hi].
Defined.

(** ** Facts about the patterns *)

Section RegexFacts.
Implicit Types (r : JS.regex) (s : string) (c : ascii).

Lemma test_Never s : JS.test JS.Never s = false.
Proof. induction s as [|c s IH]; [done|]. exact IH. Qed.

Lemma test_Empty s : JS.test JS.Empty s = true <-> s = "".
Proof.
  destruct s as [|c s]; [done|]. simpl. rewrite test_Never. split; discriminate.
Qed.

(** Reading one character against a class at the head of a sequence. *)
Lemma test_class_seq ranges r c s :
  JS.test (JS.Seq (JS.Class ranges) r) (String c s) = JS.in_ranges c ranges && JS.test r s.
Proof.
  simpl. destruct (JS.in_ranges c ranges); simpl.
  - by destruct r.
  - apply test_Never.
Qed.

(** A sequence of classes matches the strings of the same length
    whose characters lie in the respective classes. *)
Lemma test_classes (classes : list (list (ascii * ascii))) : forall s,
  JS.test (JS.sequence (map JS.Class classes)) s = true
  <-> Forall2 (fun ranges c => JS.in_ranges c ranges = true) classes
        (list_ascii_of_string s).
Proof.
  induction classes as [|ranges classes IH]; intros s.
  - change (JS.sequence (map JS.Class [])) with JS.Empty. rewrite test_Empty.
    destruct s; simpl; split; try done; inversion 1.
  - change (JS.sequence (map JS.Class (ranges :: classes)))
      with (JS.Seq (JS.Class ranges) (JS.sequence (map JS.Class classes))).
    destruct s as [|c s].
    + simpl. split; [done | inversion 1].
    + rewrite test_class_seq, andb_true_iff, IH. simpl. split.
      * intros [Hc Hs]. by constructor.
      * inversion 1; by subst.
Qed.

Lemma in_ranges_upper c : JS.in_ranges c [("A", "Z")]%char = true <-> Spec.upper c.
Proof.
  unfold JS.in_ranges, Spec.upper. cbn [existsb]. unfold JS.code_in.
  change (nat_of_ascii "A") with 65%nat. change (nat_of_ascii "Z") with 90%nat.
  rewrite orb_false_r, andb_true_iff, !Nat.leb_le. tauto.
Qed.

Lemma in_ranges_digit c : JS.in_ranges c [("0", "9")]%char = true <-> Spec.digit c.
Proof.
  unfold JS.in_ranges, Spec.digit. cbn [existsb]. unfold JS.code_in.
  change (nat_of_ascii "0") with 48%nat. change (nat_of_ascii "9") with 57%nat.
  rewrite orb_false_r, andb_true_iff, !Nat.leb_le. tauto.
Qed.

Lemma in_ranges_hyphen c : JS.in_ranges c [("-", "-")]%char = true <-> c = "-"%char.
Proof.
  unfold JS.in_ranges. cbn [existsb]. unfold JS.code_in.
  change (nat_of_ascii "-") with 45%nat.
  rewrite orb_false_r, andb_true_iff, !Nat.leb_le. split.
  - intros [Hlo Hhi]. rewrite <- (ascii_nat_embedding c).
    by replace (nat_of_ascii c) with 45%nat by lia.
  - by intros ->.
Qed.

Lemma orderIdPattern_shape s :
  JS.test Main.orderIdPattern s = true <-> Spec.order_id_shape s.
Proof.
  change Main.orderIdPattern with
    (JS.sequence (map JS.Class
       [ [("A", "Z")]; [("A", "Z")]; [("-", "-")];
         [("0", "9")]; [("0", "9")]; [("0", "9")]; [("0", "9")]; [("-", "-")];
         [("0", "9")]; [("0", "9")]; [("0", "9")]; [("0", "9")] ]%char)).
  rewrite test_classes. split.
  - intros Hall. rewrite <- (string_of_list_ascii_of_string s).
    repeat match goal with
           | H : Forall2 _ (_ :: _) _ |- _ => inversion H; clear H; subst
           | H : Forall2 _ [] _ |- _ => inversion H; clear H; subst
           end.
    repeat match goal with
           | H : JS.in_ranges _ [("-", "-")]%char = true |- _ =>
               apply in_ranges_hyphen in H; subst
           | H : JS.in_ranges _ [("A", "Z")]%char = true |- _ =>
               apply in_ranges_upper in H
           | H : JS.in_ranges _ [("0", "9")]%char = true |- _ =>
               apply in_ranges_digit in H
           end.
    by constructor.
  - intros [a b d1 d2 d3 d4 d5 d6 d7 d8 Ha Hb H1 H2 H3 H4 H5 H6 H7 H8].
    rewrite list_ascii_of_string_of_list_ascii.
    repeat constructor;
      first [by apply in_ranges_upper | by apply in_ranges_digit | by apply in_ranges_hyphen].
Qed.

End RegexFacts.

(** ** Facts about the search form *)

Section FormFacts.
Implicit Types (p : page) (w : world page).

Lemma truthy_false (s : string) : JS.truthy s = false <-> s = "".
Proof. destruct s; simpl; split; congruence. Qed.

Lemma class_contains_removed (t : string) (cl : JS.classList) :
  JS.class_contains t (JS.class_remove [t] cl) = false.
Proof.
  apply bool_decide_eq_false_2. rewrite class_remove_elem.
  intros [Hno _]. apply Hno. by left.
Qed.

(** Clearing the errors leaves the values of the inputs alone. *)
Lemma clearAllFormErrors_order_id p :
  in_value <$> order_id_input (Main.clearAllFormErrors p)
    = in_value <$> order_id_input p.
Proof.
  destruct p as [? ? ? ? ? ? ? ? ? ? ? [[? ? [?|] ? ?]|] [[? ? [?|] ? ?]|]]; reflexivity.
Qed.

Lemma clearAllFormErrors_order_email p :
  in_value <$> order_email_input (Main.clearAllFormErrors p)
    = in_value <$> order_email_input p.
Proof.
  destruct p as [? ? ? ? ? ? ? ? ? ? ? [[? ? [?|] ? ?]|] [[? ? [?|] ? ?]|]]; reflexivity.
Qed.



End FormFacts.



(** ** Facts about the display *)

Section DisplayFacts.
Variable h : host.
Implicit Types (p : page) (o : envelope_order).

(** Each step of the display, on a page given by its fields. *)
Section Fields.
Variables (e : option content) (t : option string) (m : option content)
  (pr d : option string) (tc : option JS.classList) (tn : option string)
  (od os : option JS.classList) (ts : list JS.classList) (tl : option string)
  (i1 i2 : option input).

Lemma renderAnimation_fields step statusConfig :
  Tracker.renderAnimation h step statusConfig (mkPage e t m pr d tc tn od os ts tl i1 i2)
  = mkPage ((fun _ => Spec.animation h step statusConfig) <$> e)
      t m pr d tc tn od os ts tl i1 i2.
Proof.
  unfold Tracker.renderAnimation, Spec.animation. destruct e as [c|]; simpl; [|done].
  destruct (String.eqb _ "lottie"); [|done].
  destruct (JS.truthy_opt _); [|done]. simpl.
  destruct (utils_loaded h); [|done]. simpl.
  by destruct (Utils.isValidURL h _).
Qed.

Lemma update_title_fields o :
  Tracker.update_title o (mkPage e t m pr d tc tn od os ts tl i1 i2)
  = mkPage e ((fun _ => status o) <$> t) m pr d tc tn od os ts tl i1 i2.
Proof. by destruct t. Qed.

Lemma update_message_fields statusConfig :
  Tracker.update_message statusConfig (mkPage e t m pr d tc tn od os ts tl i1 i2)
  = mkPage e t
      ((fun _ => Text (Dom.text_of (Tracker.get_message statusConfig))) <$> m)
      pr d tc tn od os ts tl i1 i2.
Proof. by destruct m. Qed.

Lemma update_product_fields o :
  Tracker.update_product o (mkPage e t m pr d tc tn od os ts tl i1 i2)
  = mkPage e t m (Spec.detail (product o) id <$> pr) d tc tn od os ts tl i1 i2.
Proof.
  unfold Tracker.update_product, Spec.detail. destruct pr; simpl; [|done].
  by destruct (JS.truthy_opt (product o)).
Qed.

Lemma update_date_fields o :
  Tracker.update_date h o (mkPage e t m pr d tc tn od os ts tl i1 i2)
  = mkPage e t m pr (Spec.detail (createdDate o) (Spec.date_shown h) <$> d)
      tc tn od os ts tl i1 i2.
Proof.
  unfold Tracker.update_date, Spec.detail, Spec.date_shown. destruct d; simpl; [|done].
  by destruct (JS.truthy_opt (createdDate o)).
Qed.

Lemma update_tracking_fields o :
  Tracker.update_tracking o (mkPage e t m pr d tc tn od os ts tl i1 i2)
  = mkPage e t m pr d
      (match tc, tn with
       | Some container, Some _ =>
           Some (if JS.truthy_opt (trackingNumber o)
                 then JS.class_remove ["hidden"] container
                 else JS.class_add "hidden" container)
       | container, _ => container
       end)
      (match tc, tn with
       | Some _, Some number => Some (Spec.detail (trackingNumber o) id number)
       | _, number => number
       end)
      od os ts tl i1 i2.
Proof.
  unfold Tracker.update_tracking, Spec.detail. destruct tc, tn; simpl; try done.
  by destruct (JS.truthy_opt (trackingNumber o)).
Qed.

Lemma show_order_details_fields :
  Tracker.show_order_details (mkPage e t m pr d tc tn od os ts tl i1 i2)
  = mkPage e t m pr d tc tn (JS.class_remove ["hidden"] <$> od) os ts tl i1 i2.
Proof. by destruct od. Qed.

Lemma updateTimeline_fields step :
  Tracker.updateTimeline step (mkPage e t m pr d tc tn od os ts tl i1 i2)
  = mkPage e t m pr d tc tn od os
      (imap (Tracker.mark_step (Tracker.getStatusIndex step)) ts) tl i1 i2.
Proof. reflexivity. Qed.

Lemma show_order_status_fields :
  Tracker.show_order_status (mkPage e t m pr d tc tn od os ts tl i1 i2)
  = mkPage e t m pr d tc tn od (JS.class_remove ["hidden"] <$> os) ts tl i1 i2.
Proof. by destruct os. Qed.

End Fields.

(** [display_order] written field by field. *)
Lemma display_order_fields o p : Tracker.display_order h o p = Spec.displayed h o p.
Proof.
  destruct p as [e t m pr d tc tn od os ts tl i1 i2].
  unfold Tracker.display_order, Tracker.updateOrderDetails. cbv zeta.
  rewrite renderAnimation_fields, update_title_fields, update_message_fields.
  rewrite update_product_fields, update_date_fields, update_tracking_fields.
  rewrite show_order_details_fields, updateTimeline_fields, show_order_status_fields.
  unfold Spec.displayed.
  cbn [status_emoji status_title status_message order_product order_date
       tracking_container tracking_number order_details order_status
       timeline_steps status_timeline order_id_input order_email_input].
  by destruct tc, tn.
Qed.

Lemma displayOrderStatus_run orderData o (w : world page) :
  order orderData = Some o ->
  Tracker.displayOrderStatus h orderData w
    = (Ok tt, Spec.with_page w (Spec.displayed h o (dom w))).
Proof.
  intros Ho. unfold Tracker.displayOrderStatus, update. rewrite Ho.
  by rewrite display_order_fields.
Qed.

(** Each field of the displayed page is a fixed point of the display. *)
Lemma displayed_idem o p :
  Spec.displayed h o (Spec.displayed h o p) = Spec.displayed h o p.
Proof.
  destruct p as [e t m pr d tc tn od os ts tl i1 i2].
  unfold Spec.displayed. cbn [status_emoji status_title status_message order_product
    order_date tracking_container tracking_number order_details order_status
    timeline_steps status_timeline order_id_input order_email_input].
  f_equal.
  - by destruct e.
  - by destruct t.
  - by destruct m.
  - destruct pr; [|done]. unfold Spec.detail. simpl.
    by destruct (JS.truthy_opt (product o)).
  - destruct d; [|done]. unfold Spec.detail. simpl.
    by destruct (JS.truthy_opt (createdDate o)).
  - destruct tc, tn; try done.
    destruct (JS.truthy_opt (trackingNumber o)).
    + by rewrite class_remove_idem.
    + by rewrite class_add_idem.
  - destruct tc, tn; try done. unfold Spec.detail.
    by destruct (JS.truthy_opt (trackingNumber o)).
  - destruct od; [|done]. simpl. by rewrite class_remove_idem.
  - destruct os; [|done]. simpl. by rewrite class_remove_idem.
  - apply list_eq. intros i. rewrite !list_lookup_imap.
    destruct (ts !! i); [|done]. simpl. by rewrite mark_step_idem.
Qed.

End DisplayFacts.

(** C3. Displaying a found order whose status is the canonical label of
    stage [k] marks every stage before [k] completed, stage [k] active,
    and leaves every later stage without a mark (and, when it had none,
    with its class list as it was).  For ["Printing"] the stage is 2 and
    the status message reads ["Your print is being created"]; looking up
    ["AA-2024-0047"] against a server that answers with that order ends
    with stages 0 and 1 completed, stage 2 active and stages 3 to 7 as
    they were. *)
Theorem display_marks_timeline (h : host) (orderData : envelope) (o : envelope_order)
    (w : world page) (k : nat) :
  order orderData = Some o ->
  Spec.canonical_labels !! k = Some (status o) ->
  exists p' : page,
    Tracker.displayOrderStatus h orderData w = (Ok tt, Spec.with_page w p')
    /\ (forall (i : nat) (before : JS.classList),
          timeline_steps (dom w) !! i = Some before ->
          exists classes : JS.classList,
            timeline_steps p' !! i = Some classes
            /\ ((i < k)%nat -> Spec.completed classes /\ ¬ Spec.active classes)
            /\ (i = k -> Spec.active classes /\ ¬ Spec.completed classes)
            /\ ((k < i)%nat ->
                ¬ Spec.completed classes /\ ¬ Spec.active classes
                /\ (¬ Spec.completed before -> ¬ Spec.active before -> classes = before)))
    /\ (status o = "Printing" ->
        k = 2%nat
        /\ (status_message (dom w) <> None ->
            status_message p' = Some (Text "Your print is being created")))
    /\ (let served := Examples.host_of Examples.configured
                        (Examples.always (FetchResolve (Examples.found Examples.printing_order))) in
        let final := dom (Main.handleOrderSearch served
                            (Examples.start (Examples.tracking_page "AA-2024-0047"))).2 in
        timeline_steps final =
          [ ["timeline-step"; "completed"]; ["timeline-step"; "completed"];
            ["timeline-step"; "active"] ] ++ replicate 5 ["timeline-step"]
        /\ status_message final = Some (Text "Your print is being created")).
Proof.
  intros Ho Hlabel. exists (Spec.displayed h o (dom w)).
  split; [by apply displayOrderStatus_run|].
  destruct (label_stage_index k (status o) Hlabel) as [Hk Hlt].
  split; [|split].
  - intros i before Hbefore. unfold Spec.displayed. simpl timeline_steps.
    rewrite list_lookup_imap, Hbefore, Hk. simpl. eexists. split; [done|].
    split; [|split].
    + intros Hi. apply mark_step_before. lia.
    + intros Hi. apply mark_step_current. lia.
    + intros Hi. destruct (mark_step_after (Z.of_nat k) i before) as (_ & Hc & Ha); [lia|].
      split; [done|]. split; [done|].
      intros Hcb Hab. apply mark_step_untouched; [lia | done | done].
  - intros Hprinting. rewrite Hprinting in Hlabel. split.
    + do 8 (destruct k as [|k]; [by (discriminate Hlabel || reflexivity)|]).
      discriminate Hlabel.
    + intros Hmsg. unfold Spec.displayed. simpl status_message. rewrite Hprinting.
      by destruct (status_message (dom w)).
  - vm_compute. done.
Qed.

Lemma display_marks_timeline_witness :
  exists (p' : page) (classes : JS.classList),
    Tracker.displayOrderStatus
      (Examples.host_of Examples.configured Examples.flaky)
      (mkEnvelope true (Some Examples.printing_order) None)
      (Examples.start (Examples.tracking_page "AA-2024-0047"))
    = (Ok tt, Spec.with_page (Examples.start (Examples.tracking_page "AA-2024-0047")) p')
    /\ timeline_steps p' !! 2%nat = Some classes
    /\ Spec.active classes.
Proof.
  destruct (display_marks_timeline
              (Examples.host_of Examples.configured Examples.flaky)
              (mkEnvelope true (Some Examples.printing_order) None)
              Examples.printing_order
              (Examples.start (Examples.tracking_page "AA-2024-0047")) 2
              eq_refl eq_refl) as (p' & Hrun & Hsteps & _).
  destruct (Hsteps 2%nat ["timeline-step"] eq_refl) as (classes & Hclasses & _ & Hactive & _).
  exists p', classes. split; [exact Hrun|]. split; [exact Hclasses|].
  exact (proj1 (Hactive eq_refl)).
Defined.

(** C7. Displaying the same result twice in succession leaves the world
    the first display left: nothing accumulates.  After a display every
    stage of the timeline carries at most one mark. *)
Theorem display_idempotent (h : host) (orderData : envelope) (w : world page) :
  (Tracker.displayOrderStatus h orderData ;;; Tracker.displayOrderStatus h orderData) w
    = Tracker.displayOrderStatus h orderData w
  /\ (forall o : envelope_order,
        order orderData = Some o ->
        Forall (fun classes => (Spec.marks classes <= 1)%nat)
          (timeline_steps (dom (Tracker.displayOrderStatus h orderData w).2))).
Proof.
  split.
  - unfold bind. destruct (order orderData) as [o|] eqn:Ho.
    + rewrite (displayOrderStatus_run h orderData o w Ho).
      rewrite (displayOrderStatus_run h orderData o _ Ho).
      unfold Spec.with_page. simpl. by rewrite displayed_idem.
    + unfold Tracker.displayOrderStatus. by rewrite Ho.
  - intros o Ho. rewrite (displayOrderStatus_run h orderData o w Ho).
    unfold Spec.displayed. simpl. apply Forall_lookup_2. intros i classes.
    rewrite list_lookup_imap. destruct (timeline_steps (dom w) !! i); [|done].
    simpl. intros [= <-]. apply mark_step_marks.
Qed.

Lemma display_idempotent_witness :
  Forall (fun classes => (Spec.marks classes <= 1)%nat)
    (timeline_steps
       (dom (Tracker.displayOrderStatus
               (Examples.host_of Examples.configured Examples.flaky)
               (mkEnvelope true (Some Examples.printing_order) None)
               (Examples.start (Examples.tracking_page "AA-2024-0047"))).2)).
Proof.
  apply (proj2 (display_idempotent
                  (Examples.host_of Examples.configured Examples.flaky)
                  (mkEnvelope true (Some Examples.printing_order) None)
                  (Examples.start (Examples.tracking_page "AA-2024-0047")))
           Examples.printing_order).
  reflexivity.
Defined.

(** ** Facts about the lookup *)

Section LookupFacts.
Variable h : host.
Implicit Types (w : world page) (r : response).

(** Whatever happens to it, an attempt issues one request. *)
Lemma attempt_run url maxRetries i w :
  exists o, Api.attempt h url maxRetries i w = (o, Spec.after w 1 [Spec.request url]).
Proof.
  unfold Api.attempt, try_catch, bind. rewrite fetchWithTimeout_run.
  destruct (transport h (calls w) url (Some 10000)) as [r|e]; simpl.
  - destruct (ok r); [by eexists|]. destruct (i =? maxRetries - 1); by eexists.
  - destruct (i =? maxRetries - 1); by eexists.
Qed.

(** A loop that runs at all starts with a request. *)
Lemma retry_loop_first_request url maxRetries n i w :
  i < maxRetries ->
  exists t : list event,
    trace (Api.retry_loop h (S n) url maxRetries i w).2
      = trace w ++ Spec.request url :: t.
Proof.
  intros Hi. cbn [Api.retry_loop]. destruct (Z.ltb_spec i maxRetries); [|lia].
  unfold bind at 1. destruct (attempt_run url maxRetries i w) as [o ->].
  destruct o as [[v|]|e]; [by exists []| |by exists []].
  unfold bind. rewrite sleep_run, after_after.
  match goal with
  | |- context [Api.retry_loop h n url maxRetries (i + 1) ?w1] =>
      destruct (retry_loop_requests h url maxRetries n (i + 1) w1) as (t & -> & _)
  end.
  exists (EvWait (2 ^ i * 1000) :: t). cbn [Spec.after trace].
  by rewrite <- !app_assoc.
Qed.

(** With the helper loaded, the lookup starts with a request of the
    lookup URL. *)
Lemma fetchOrderStatus_first_request orderId email w :
  api_loaded h = true ->
  exists t : list event,
    trace (Tracker.fetchOrderStatus h orderId email w).2
      = trace w ++ Spec.request (Tracker.lookup_url h orderId email) :: t.
Proof.
  intros Hapi. unfold Tracker.fetchOrderStatus, try_catch. rewrite Hapi.
  set (url := Tracker.lookup_url h orderId email).
  destruct (retry_loop_first_request url 3 2 0 w) as [t Ht]; [lia|].
  unfold bind at 1. unfold Api.fetchWithRetry.
  change (Z.to_nat 3) with 3%nat.
  destruct (Api.retry_loop h 3 url 3 0 w) as [[v|e] w'] eqn:Hrun;
    cbn [snd] in Ht; exists t; rewrite <- Ht; [|done].
  destruct v as [|r]; [done|].
  unfold bind, Tracker.response_json. destruct (json r) as [e|data]; [done|].
  unfold ret, throw. by destruct (negb (ok r) || negb (success data)).
Qed.

(** Three failed attempts: the lookup fails with the failure of the
    last of them, whatever the responses carried. *)
Lemma fetchOrderStatus_exhausted orderId email w :
  api_loaded h = true ->
  let url := Tracker.lookup_url h orderId email in
  (forall j, (j < 3)%nat ->
     Spec.failed (transport h (calls w + j) url (Some 10000)) = true) ->
  Tracker.fetchOrderStatus h orderId email w =
    (Throw (Spec.failure (transport h (calls w + 2) url (Some 10000))),
     Spec.after w 3 (Spec.backoff url 0 2 ++ [Spec.request url])).
Proof.
  intros Hapi url Hfail. unfold Tracker.fetchOrderStatus, try_catch, bind.
  rewrite Hapi. fold url. unfold Api.fetchWithRetry. change (Z.to_nat 3) with 3%nat.
  rewrite (retry_loop_exhausted h url 3 2 3 0 w); [done | lia | lia |].
  intros j Hj. apply Hfail. lia.
Qed.

(** An [ok] response whose envelope says [success: false]: the lookup
    fails with the server's message, or the generic one. *)
Lemma fetchOrderStatus_refused orderId email w r data :
  api_loaded h = true ->
  let url := Tracker.lookup_url h orderId email in
  transport h (calls w) url (Some 10000) = FetchResolve r ->
  ok r = true -> json r = inr data -> success data = false ->
  Tracker.fetchOrderStatus h orderId email w =
    (Throw (JS.Error (JS.or_default (error data) "Failed to fetch order status")),
     Spec.after w 1 [Spec.request url]).
Proof.
  intros Hapi url Hres Hok Hjson Hsuccess.
  unfold Tracker.fetchOrderStatus, try_catch, bind. rewrite Hapi. fold url.
  unfold Api.fetchWithRetry. change (Z.to_nat 3) with 3%nat.
  rewrite (retry_loop_success h url 3 r 0 3 0 w); try done; try lia.
  - unfold Tracker.response_json. rewrite Hjson. unfold ret. by rewrite Hok, Hsuccess.
  - by rewrite Nat.add_0_r.
Qed.

(** The error view: the escaped message in the markup of the message
    element, the timeline hidden. *)
Lemma displayError_view message (p : page) :
  status_message p <> None -> status_timeline p <> None ->
  let escaped := if utils_loaded h then Utils.escapeHTML message
                 else Tracker.replace_special message in
  status_message (Tracker.displayError h message p)
    = Some (Html (Tracker.error_markup escaped))
  /\ status_timeline (Tracker.displayError h message p) = Some "none".
Proof.
  destruct p as [? ? [m|] ? ? ? ? ? [os|] ? [tl|] ? ?]; simpl; done.
Qed.

(** The fallback escaping leaves no [<] in the message. *)
Lemma no_tag_app (a s : string) :
  "<"%char ∉ list_ascii_of_string a -> "<"%char ∉ list_ascii_of_string s ->
  "<"%char ∉ list_ascii_of_string (a +:+ s).
Proof.
  induction a as [|c a IH]; simpl; [done|].
  rewrite !not_elem_of_cons. intros [Hc Ha] Hs. split; [done|]. by apply IH.
Qed.

(** Closes [c ∉ l] for a list [l] of given characters other than [c]. *)
Local Ltac absent :=
  simpl; repeat (apply not_elem_of_cons; split; [discriminate|]); apply not_elem_of_nil.

Lemma escape_char_no_tag (c : ascii) :
  "<"%char ∉ list_ascii_of_string (Tracker.escape_char c).
Proof.
  unfold Tracker.escape_char.
  destruct (Ascii.eqb_spec c "&"); [absent|].
  destruct (Ascii.eqb_spec c "<"); [absent|].
  destruct (Ascii.eqb_spec c ">"); [absent|].
  destruct (Ascii.eqb_spec c Tracker.dquote); [absent|].
  destruct (Ascii.eqb_spec c "'"); [absent|].
  simpl. rewrite not_elem_of_cons. split; [congruence | apply not_elem_of_nil].
Qed.

Lemma escape_text_char_no_tag (c : ascii) :
  "<"%char ∉ list_ascii_of_string (Utils.escape_text_char c).
Proof.
  unfold Utils.escape_text_char.
  destruct (Ascii.eqb_spec c "&"); [absent|].
  destruct (Ascii.eqb_spec c "<"); [absent|].
  destruct (Ascii.eqb_spec c ">"); [absent|].
  simpl. rewrite not_elem_of_cons. split; [congruence | apply not_elem_of_nil].
Qed.

(** Nor does the serialisation of a text node, which reads one or two
    bytes at a time. *)
Lemma serialize_text_no_tag (n : nat) : forall message,
  (String.length message <= n)%nat ->
  "<"%char ∉ list_ascii_of_string (Utils.serialize_text message).
Proof.
  induction n as [|n IH]; intros [|c [|d r]] Hlen; simpl in Hlen; try lia;
    try apply not_elem_of_nil; try apply escape_text_char_no_tag.
  change (Utils.serialize_text (String c (String d r)))
    with (if Utils.is_byte 194 c && Utils.is_byte 160 d
          then "&nbsp;" +:+ Utils.serialize_text r
          else Utils.escape_text_char c +:+ Utils.serialize_text (String d r)).
  destruct (Utils.is_byte 194 c && Utils.is_byte 160 d).
  - apply no_tag_app; [absent|]. apply IH. lia.
  - apply no_tag_app; [apply escape_text_char_no_tag|]. apply IH. simpl. lia.
Qed.

Lemma escapeHTML_no_tag message :
  "<"%char ∉ list_ascii_of_string (Utils.escapeHTML message).
Proof.
  unfold Utils.escapeHTML. destruct (negb (JS.truthy message)); [apply not_elem_of_nil|].
  by apply (serialize_text_no_tag (String.length message)).
Qed.

Lemma replace_special_no_tag message :
  "<"%char ∉ list_ascii_of_string (Tracker.replace_special message).
Proof.
  induction message as [|c s IH]; simpl; [apply not_elem_of_nil|].
  apply no_tag_app; [apply escape_char_no_tag | exact IH].
Qed.

(** The handler shows a failure of the lookup instead of passing it
    on: it returns normally as long as the email input, when there is
    one, sits in a form group. *)
Lemma handleOrderSearch_returns w :
  (forall emailInput, order_email_input (dom w) = Some emailInput ->
                      in_group emailInput <> None) ->
  exists w', Main.handleOrderSearch h w = (Ok tt, w').
Proof.
  intros Hgroup.
  assert (Hcleared : forall emailInput,
             order_email_input (Main.clearAllFormErrors (dom w)) = Some emailInput ->
             in_group emailInput <> None).
  { destruct (dom w) as [? ? ? ? ? ? ? ? ? ? ? [[? ? [?|] ? ?]|] [[? ? [?|] ? ?]|]];
      intros emailInput [= <-]; try done; by destruct (Hgroup _ eq_refl). }
  unfold Main.handleOrderSearch, bind, get_page, update. simpl.
  destruct (order_id_input (dom w)); [|by eexists]. simpl.
  destruct (negb (JS.truthy _)); [by eexists|].
  destruct (negb (JS.test Main.orderIdPattern _)); [by eexists|].
  unfold Main.emailFieldVisible.
  destruct (order_email_input (Main.clearAllFormErrors (dom w))) as [emailInput|] eqn:He.
  - specialize (Hcleared emailInput eq_refl).
    destruct (in_group emailInput); [|done]. simpl.
    destruct (_ && _); [by eexists|].
    destruct (_ && _); [by eexists|].
    destruct (negb (tracker_loaded h)); [by eexists|].
    unfold try_catch. destruct (Tracker.fetchOrderStatus _ _ _ _) as [[data|e] w1]; simpl.
    + unfold Tracker.displayOrderStatus. destruct (order data); simpl; by eexists.
    + by eexists.
  - simpl. destruct (negb (tracker_loaded h)); [by eexists|].
    unfold try_catch. destruct (Tracker.fetchOrderStatus _ _ _ _) as [[data|e] w1]; simpl.
    + unfold Tracker.displayOrderStatus. destruct (order data); simpl; by eexists.
    + by eexists.
Qed.

End LookupFacts.

(** The lookup against a server that answers [200] with
    [{success: false, error}]: one request, the timeline hidden, and
    the message of the server in the error markup. *)
Example refused_lookup_shows_server_message :
  let served := Examples.host_of Examples.configured
                  (Examples.always
                     (FetchResolve (Examples.refused "Order not found or email doesn't match"))) in
  let run := Main.handleOrderSearch served
               (Examples.start (Examples.tracking_page "AA-2024-0047")) in
  run.1 = Ok tt
  /\ trace run.2 =
       [EvFetch "https://orders.example.workers.dev?orderId=AA-2024-0047" (Some 10000)]
  /\ status_message (dom run.2)
       = Some (Html (Tracker.error_markup "Order not found or email doesn't match"))
  /\ status_timeline (dom run.2) = Some "none".
Proof. by vm_compute. Qed.

(** C4.  The claim holds for an [ok] response whose envelope says
    [success: false] ([fetchOrderStatus_refused]), but not for a
    response that is not [ok]: with the helper loaded, [fetchWithRetry]
    turns such a response into the error ["HTTP <status>: <statusText>"]
    after three attempts, so the envelope is never read and the message
    of the server is lost.  For the answer of the orders worker to an
    unknown order (404 with the message ["Order not found or email
    doesn't match"]) the page ends up showing ["HTTP 404: Not Found"]. *)
Theorem non_ok_response_loses_server_message (h : host) (orderId email : string)
    (w : world page) (r : response) :
  api_loaded h = true ->
  ok r = false ->
  (forall j, (j < 3)%nat ->
     transport h (calls w + j) (Tracker.lookup_url h orderId email) (Some 10000)
       = FetchResolve r) ->
  let url := Tracker.lookup_url h orderId email in
  Tracker.fetchOrderStatus h orderId email w =
    (Throw (JS.Error ("HTTP " +:+ JS.number_to_string (resp_status r) +:+ ": "
                        +:+ statusText r)),
     Spec.after w 3 (Spec.backoff url 0 2 ++ [Spec.request url]))
  /\ (let served := Examples.host_of Examples.configured
                      (Examples.always (FetchResolve Examples.not_found)) in
      let final := dom (Main.handleOrderSearch served
                          (Examples.start (Examples.tracking_page "AA-2024-0047"))).2 in
      status_message final = Some (Html (Tracker.error_markup "HTTP 404: Not Found"))
      /\ status_timeline final = Some "none").
Proof.
  intros Hapi Hok Hres url. split; [|by vm_compute].
  assert (Hfail : forall j, (j < 3)%nat ->
            Spec.failed (transport h (calls w + j) url (Some 10000)) = true).
  { intros j Hj. unfold url. rewrite (Hres j Hj). simpl. by rewrite Hok. }
  rewrite (fetchOrderStatus_exhausted h orderId email w Hapi Hfail).
  unfold url. rewrite (Hres 2%nat) by lia. reflexivity.
Qed.

Lemma non_ok_response_loses_server_message_witness :
  let served := Examples.host_of Examples.configured
                  (Examples.always (FetchResolve Examples.not_found)) in
  json Examples.not_found
    = inr (mkEnvelope false None (Some "Order not found or email doesn't match"))
  /\ (Tracker.fetchOrderStatus served "AA-2024-0047" ""
        (Examples.start (Examples.tracking_page "AA-2024-0047"))).1
     = Throw (JS.Error "HTTP 404: Not Found").
Proof.
  intros served. split; [reflexivity|].
  destruct (non_ok_response_loses_server_message served "AA-2024-0047" ""
              (Examples.start (Examples.tracking_page "AA-2024-0047"))
              Examples.not_found eq_refl eq_refl (fun j _ => eq_refl)) as [Hrun _].
  rewrite Hrun. reflexivity.
Defined.

(** C8, as the claim states it, fails: without any configuration the
    endpoint is the empty string, and the lookup of ["AA-2024-0047"] is
    sent to the relative URL ["?orderId=AA-2024-0047"] three times, with
    waits of one and two seconds; what the page shows in the end is the
    message of the transport's error. *)
Lemma unconfigured_lookup_is_retried :
  let bare := Examples.host_of None
                (Examples.always (FetchReject Examples.network_error)) in
  let run := Main.handleOrderSearch bare
               (Examples.start (Examples.tracking_page "AA-2024-0047")) in
  Tracker.API_ENDPOINT bare = ""
  /\ run.1 = Ok tt
  /\ trace run.2 =
       [ EvFetch "?orderId=AA-2024-0047" (Some 10000); EvWait 1000;
         EvFetch "?orderId=AA-2024-0047" (Some 10000); EvWait 2000;
         EvFetch "?orderId=AA-2024-0047" (Some 10000) ]
  /\ trace run.2 <> []
  /\ status_message (dom run.2) = Some (Html (Tracker.error_markup "Failed to fetch")).
Proof. by vm_compute. Qed.

(** ** More about the request helpers *)

Section RetryMore.
Context {page : Type}.
Variable h : host.
Implicit Types w : world page.

(** The three ways an attempt can end. *)
Lemma attempt_cases url maxRetries i w :
  let w1 := Spec.after w 1 [Spec.request url] in
  (exists r, transport h (calls w) url (Some 10000) = FetchResolve r /\ ok r = true
             /\ Api.attempt h url maxRetries i w = (Ok (Some (Api.VResponse r)), w1))
  \/ (i <> maxRetries - 1 /\ Api.attempt h url maxRetries i w = (Ok None, w1))
  \/ (i = maxRetries - 1
      /\ Api.attempt h url maxRetries i w
         = (Throw (Spec.failure (transport h (calls w) url (Some 10000))), w1)).
Proof.
  intros w1. destruct (transport h (calls w) url (Some 10000)) as [r|e] eqn:Ht.
  - destruct (ok r) eqn:Hok.
    + left. exists r. split; [done|]. split; [done|]. by apply attempt_ok.
    + right. rewrite attempt_failed by (rewrite Ht; simpl; by rewrite Hok).
      rewrite Ht. destruct (Z.eqb_spec i (maxRetries - 1)); [right|left]; done.
  - right. rewrite attempt_failed by by rewrite Ht.
    rewrite Ht. destruct (Z.eqb_spec i (maxRetries - 1)); [right|left]; done.
Qed.

(** A loop with its full budget of iterations left ends with an [ok]
    response or a failure, never with [undefined]. *)
Lemma retry_loop_result url maxRetries : forall n i w,
  Z.of_nat (S n) = maxRetries - i ->
  match (Api.retry_loop h (S n) url maxRetries i w).1 with
  | Ok (Api.VResponse r) => ok r = true
  | Ok Api.VUndefined => False
  | Throw _ => True
  end.
Proof.
  induction n as [|n IH]; intros i w Hn; cbn [Api.retry_loop];
    (destruct (Z.ltb_spec i maxRetries); [|lia]); unfold bind at 1;
    destruct (attempt_cases url maxRetries i w)
      as [(r & _ & Hok & ->)|[(Hi & ->)|(Hi & ->)]]; try done; try lia.
  unfold bind. rewrite sleep_run. apply IH. lia.
Qed.

Lemma requests_request url a (t : list event) :
  Obs.requests (EvFetch url a :: t) = S (Obs.requests t).
Proof. reflexivity. Qed.

Lemma requests_wait ms (t : list event) : Obs.requests (EvWait ms :: t) = Obs.requests t.
Proof. reflexivity. Qed.

(** The requests and waits of the loop stay within its budget. *)
Lemma retry_loop_budget url maxRetries : forall n i w,
  0 <= i ->
  exists (o : outcome Api.value) (t : list event),
    Api.retry_loop h n url maxRetries i w = (o, Spec.after w (Obs.requests t) t)
    /\ (Obs.requests t <= n)%nat
    /\ (i < maxRetries -> Obs.total_wait t <= (2 ^ (maxRetries - 1) - 2 ^ i) * 1000).
Proof.
  assert (Hpow : forall i, 0 <= i -> i < maxRetries -> 2 ^ i <= 2 ^ (maxRetries - 1)).
  { intros i H0 Hi. apply Z.pow_le_mono_r; lia. }
  induction n as [|n IH]; intros i w H0.
  - exists (Ok Api.VUndefined), []. rewrite after_0. split; [done|].
    split; [apply Nat.le_0_l|].
    intros Hi. specialize (Hpow i H0 Hi). cbn [Obs.total_wait]. lia.
  - cbn [Api.retry_loop]. destruct (Z.ltb_spec i maxRetries) as [Hi|Hi].
    2:{ exists (Ok Api.VUndefined), []. rewrite after_0. split; [done|].
        split; [apply Nat.le_0_l | lia]. }
    pose proof (Hpow i H0 Hi) as Hle. unfold bind at 1.
    destruct (attempt_cases url maxRetries i w)
      as [(r & _ & _ & ->)|[(Hne & ->)|(_ & ->)]].
    + exists (Ok (Api.VResponse r)), [Spec.request url].
      unfold Spec.request. rewrite requests_request. change (Obs.requests []) with 0%nat.
      split; [done|]. split; [lia|]. intros _. cbn [Obs.total_wait]. lia.
    + unfold bind. rewrite sleep_run, after_after.
      destruct (IH (i + 1) (Spec.after w (1 + 0) ([Spec.request url] ++ [EvWait (2 ^ i * 1000)])))
        as (o & t & -> & Hreq & Hwait); [lia|].
      exists o, (Spec.request url :: EvWait (2 ^ i * 1000) :: t).
      unfold Spec.request. rewrite requests_request, requests_wait.
      rewrite after_after. split; [done|]. split; [lia|].
      intros _. specialize (Hwait ltac:(lia)).
      cbn [Obs.total_wait].
      replace (2 ^ (i + 1)) with (2 * 2 ^ i) in Hwait by (rewrite Z.pow_add_r; lia).
      lia.
    + eexists _, [Spec.request url].
      unfold Spec.request. rewrite requests_request. change (Obs.requests []) with 0%nat.
      split; [done|]. split; [lia|]. intros _. cbn [Obs.total_wait]. lia.
Qed.

(** The response the loop returns is the answer to its last request. *)
Lemma retry_loop_answer url maxRetries : forall n i w (r : response) w',
  Api.retry_loop h n url maxRetries i w = (Ok (Api.VResponse r), w') ->
  exists t : list event,
    w' = Spec.after w (Obs.requests t) t
    /\ Obs.last_answer h (calls w) t r
    /\ ok r = true.
Proof.
  induction n as [|n IH]; intros i w r w' Hrun; cbn [Api.retry_loop] in Hrun; [done|].
  destruct (i <? maxRetries); [|done]. unfold bind at 1 in Hrun.
  destruct (attempt_cases url maxRetries i w)
    as [(r0 & Ht & Hok & Hatt)|[(Hne & Hatt)|(_ & Hatt)]]; rewrite Hatt in Hrun.
  - injection Hrun as <- <-. exists [Spec.request url].
    unfold Spec.request. rewrite requests_request. change (Obs.requests []) with 0%nat.
    split; [done|]. split; [|done].
    exists url, (Some 10000), []. split; [done|].
    change (Obs.requests []) with 0%nat. by rewrite Nat.add_0_r.
  - unfold bind in Hrun. rewrite sleep_run, after_after in Hrun.
    apply IH in Hrun as (t & -> & (url' & a & t' & -> & Hans) & Hok).
    exists (Spec.request url :: EvWait (2 ^ i * 1000) :: t' ++ [EvFetch url' a]).
    unfold Spec.request. rewrite requests_request, requests_wait, after_after.
    split; [done|]. split; [|done].
    exists url', a, (EvFetch url (Some 10000) :: EvWait (2 ^ i * 1000) :: t').
    split; [done|]. rewrite requests_request, requests_wait.
    cbn [calls Spec.after] in Hans.
    by replace (calls w + S (Obs.requests t'))%nat
      with (calls w + (1 + 0) + Obs.requests t')%nat by lia.
  - done.
Qed.

End RetryMore.

Section RetryResults.
Context {page : Type}.
Variable h : host.
Implicit Types w : world page.

Lemma fetchWithRetry_result_cases {options : Type} url (opts : options) maxRetries w :
  match (Api.fetchWithRetry h url opts maxRetries w).1 with
  | Ok (Api.VResponse r) => ok r = true /\ 0 < maxRetries
  | Ok Api.VUndefined => maxRetries <= 0
  | Throw _ => 0 < maxRetries
  end.
Proof.
  unfold Api.fetchWithRetry. destruct (Z.le_gt_cases maxRetries 0) as [Hle|Hgt].
  - by rewrite retry_loop_done.
  - destruct (Z.to_nat maxRetries) as [|n] eqn:Hn; [lia|].
    pose proof (retry_loop_result h url maxRetries n 0 w ltac:(lia)) as Hres.
    destruct (Api.retry_loop h (S n) url maxRetries 0 w) as [[[|r]|e] w']; simpl in *;
      [done | split; [done|lia] | lia].
Qed.

End RetryResults.

(** ** The retry loop for a bound that is any number *)

Section NumberFacts.
Context {page : Type}.
Variable h : host.
Implicit Types (w : world page) (m : Number.number) (i : Z).

(** The two tests of the loop, read on the integers. *)
Lemma index_below_iterations i m :
  0 <= i ->
  Number.index_below i m
  = match Number.iterations m with
    | Some k => i <? Z.of_nat k
    | None => true
    end.
Proof.
  intros Hi. destruct m as [|[]|q]; simpl.
  - symmetry. apply Z.ltb_ge. lia.
  - symmetry. apply Z.ltb_ge. lia.
  - done.
  - destruct (Qle_bool q (inject_Z i)) eqn:Hle; simpl; symmetry.
    + apply Qle_bool_iff in Hle. apply Z.ltb_ge.
      pose proof (Qceiling_resp_le _ _ Hle) as Hc. rewrite Qceiling_Z in Hc. lia.
    + apply Z.ltb_lt.
      assert (Hlt : (inject_Z i < q)%Q).
      { apply Qnot_le_lt. intros Hle'. apply Qle_bool_iff in Hle'. congruence. }
      pose proof (Qlt_le_trans _ _ _ Hlt (Qle_ceiling q)) as Hlt'.
      rewrite <- Zlt_Qlt in Hlt'. lia.
Qed.

Lemma index_last_iterations i m :
  0 <= i ->
  Number.index_last i m
  = Number.integral m
    && match Number.iterations m with
       | Some k => i =? Z.of_nat k - 1
       | None => false
       end.
Proof.
  intros Hi. destruct m as [|[]|q]; simpl; try done.
  destruct (Qeq_bool (inject_Z i) (q - 1)) eqn:Hlast; symmetry.
  - apply Qeq_bool_iff in Hlast.
    assert (Hq : (q == inject_Z (i + 1))%Q).
    { rewrite inject_Z_plus. change (inject_Z 1) with 1%Q. lra. }
    pose proof (Qceiling_comp _ _ Hq) as Hc. rewrite Qceiling_Z in Hc.
    apply andb_true_iff. split.
    + apply Qeq_bool_iff. by rewrite Hc.
    + apply Z.eqb_eq. lia.
  - apply andb_false_iff.
    destruct (Qeq_bool q (inject_Z (Qceiling q))) eqn:Hint; [right | by left].
    apply Z.eqb_neq. intros Heq. apply Qeq_bool_iff in Hint.
    assert (Hc : Qceiling q = i + 1) by lia.
    rewrite Hc, inject_Z_plus in Hint. change (inject_Z 1) with 1%Q in Hint.
    assert (Hlast' : (inject_Z i == q - 1)%Q) by lra.
    apply Qeq_bool_iff in Hlast'. congruence.
Qed.

(** An attempt of the loop is an attempt of the loop on integers. *)
Lemma attempt_number url (last : bool) :
  Number.attempt (page := page) h url last = Api.attempt h url (if last then 1 else 0) 0.
Proof. by destruct last. Qed.

Lemma attempt_number_cases url (last : bool) w :
  let w1 := Spec.after w 1 [Spec.request url] in
  (exists r, transport h (calls w) url (Some 10000) = FetchResolve r /\ ok r = true
             /\ Number.attempt h url last w = (Ok (Some (Api.VResponse r)), w1))
  \/ (last = false /\ Number.attempt h url last w = (Ok None, w1))
  \/ (last = true
      /\ Number.attempt h url last w
         = (Throw (Spec.failure (transport h (calls w) url (Some 10000))), w1)).
Proof.
  intros w1. rewrite attempt_number.
  destruct (attempt_cases h url (if last then 1 else 0) 0 w)
    as [(r & Ht & Hok & Hrun)|[(Hi & Hrun)|(Hi & Hrun)]].
  - left. by exists r.
  - right. left. split; [|done]. by destruct last.
  - right. right. split; [|done]. by destruct last.
Qed.

(** What every run of the loop satisfies, from the index [i] on. *)
Lemma retry_loop_number url m : forall (n : nat) i w,
  0 <= i ->
  exists (o : outcome (option Api.value)) (t : list event),
    Number.retry_loop h n url m i w = (o, Spec.after w (Obs.requests t) t)
    /\ (Obs.requests t <= n)%nat
    /\ (forall k : nat, Number.iterations m = Some k ->
          Z.of_nat (Obs.requests t) <= Z.max 0 (Z.of_nat k - i)
          /\ Obs.total_wait t <= (2 ^ Z.max i (Z.of_nat k) - 2 ^ i) * 1000
          /\ (Number.integral m = true -> i < Z.of_nat k ->
              Obs.total_wait t <= (2 ^ (Z.of_nat k - 1) - 2 ^ i) * 1000))
    /\ match o with
       | Ok (Some (Api.VResponse r)) =>
           ok r = true /\ Number.index_below i m = true /\ Obs.last_answer h (calls w) t r
       | Ok (Some Api.VUndefined) =>
           Number.positive_integer m -> Number.index_below i m = false
       | Throw _ => Number.integral m = true /\ Number.index_below i m = true
       | Ok None => Number.index_below (i + Z.of_nat n) m = true
       end.
Proof.
  assert (Hpow : forall a b, 0 <= a <= b -> 2 ^ a <= 2 ^ b).
  { intros a b Hab. apply Z.pow_le_mono_r; lia. }
  assert (Hstop : forall (n : nat) i w, 0 <= i ->
            exists (o : outcome (option Api.value)) (t : list event),
              (Ok (if Number.index_below i m then None else Some Api.VUndefined), w)
              = (o, Spec.after w (Obs.requests t) t)
              /\ (Obs.requests t <= n)%nat
              /\ (forall k : nat, Number.iterations m = Some k ->
                    Z.of_nat (Obs.requests t) <= Z.max 0 (Z.of_nat k - i)
                    /\ Obs.total_wait t <= (2 ^ Z.max i (Z.of_nat k) - 2 ^ i) * 1000
                    /\ (Number.integral m = true -> i < Z.of_nat k ->
                        Obs.total_wait t <= (2 ^ (Z.of_nat k - 1) - 2 ^ i) * 1000))
              /\ match o with
                 | Ok (Some (Api.VResponse r)) =>
                     ok r = true /\ Number.index_below i m = true
                     /\ Obs.last_answer h (calls w) t r
                 | Ok (Some Api.VUndefined) =>
                     Number.positive_integer m -> Number.index_below i m = false
                 | Throw _ => Number.integral m = true /\ Number.index_below i m = true
                 | Ok None => Number.index_below (i + 0) m = true
                 end).
  { intros n i w Hi. eexists _, []. rewrite after_0. split; [reflexivity|].
    split; [apply Nat.le_0_l|]. split.
    - intros k _. cbn [Obs.total_wait Obs.requests filter list_filter length].
      pose proof (Hpow i (Z.max i (Z.of_nat k)) ltac:(lia)).
      split; [lia|]. split; [lia|]. intros _ Hlt.
      pose proof (Hpow i (Z.of_nat k - 1) ltac:(lia)). lia.
    - destruct (Number.index_below i m) eqn:Hb; [by rewrite Z.add_0_r | done]. }
  induction n as [|n IH]; intros i w Hi.
  - cbn [Number.retry_loop]. unfold ret.
    destruct (Hstop 0%nat i w Hi) as (o & t & Hrun & Hreq & Hk & Ho).
    exists o, t. rewrite <- Hrun. split; [done|]. split; [done|]. split; [done|].
    exact Ho.
  - cbn [Number.retry_loop]. destruct (Number.index_below i m) eqn:Hbelow.
    2:{ destruct (Hstop (S n) i w Hi) as (o & t & Hrun & Hreq & Hk & Ho).
        rewrite Hbelow in Hrun. exists o, t. rewrite <- Hrun. unfold ret.
        split; [done|]. split; [done|]. split; [done|].
        injection Hrun as <- _. done. }
    pose proof (index_below_iterations i m Hi) as Hbi. rewrite Hbelow in Hbi.
    pose proof (index_last_iterations i m Hi) as Hli.
    unfold bind at 1.
    destruct (attempt_number_cases url (Number.index_last i m) w)
      as [(r & Ht & Hok & ->)|[(Hlast & ->)|(Hlast & ->)]].
    + exists (Ok (Some (Api.VResponse r))), [Spec.request url].
      unfold Spec.request. rewrite requests_request. change (Obs.requests []) with 0%nat.
      split; [done|]. split; [lia|]. split.
      * intros k Hk. rewrite Hk in Hbi. symmetry in Hbi. apply Z.ltb_lt in Hbi.
        cbn [Obs.total_wait].
        pose proof (Hpow i (Z.max i (Z.of_nat k)) ltac:(lia)).
        pose proof (Hpow i (Z.of_nat k - 1) ltac:(lia)). lia.
      * split; [done|]. split; [done|].
        exists url, (Some 10000), []. split; [done|].
        change (Obs.requests []) with 0%nat. by rewrite Nat.add_0_r.
    + unfold bind. rewrite sleep_run, after_after.
      destruct (IH (i + 1) (Spec.after w (1 + 0) ([Spec.request url] ++ [EvWait (2 ^ i * 1000)])))
        as (o & t & -> & Hreq & Hk & Ho); [lia|].
      exists o, (Spec.request url :: EvWait (2 ^ i * 1000) :: t).
      unfold Spec.request. rewrite requests_request, requests_wait, after_after.
      split; [done|]. split; [lia|]. split.
      * intros k Hk'. destruct (Hk k Hk') as (Hr & Hw & Hwi).
        rewrite Hk' in Hbi, Hli. symmetry in Hbi. apply Z.ltb_lt in Hbi.
        cbn [Obs.total_wait].
        assert (H2 : 2 ^ (i + 1) = 2 * 2 ^ i) by (rewrite Z.pow_add_r; lia).
        replace (Z.max (i + 1) (Z.of_nat k)) with (Z.of_nat k) in Hw by lia.
        replace (Z.max i (Z.of_nat k)) with (Z.of_nat k) by lia.
        split; [lia|]. split; [lia|]. intros Hint _.
        rewrite Hlast, Hint in Hli. cbn [andb] in Hli. symmetry in Hli.
        apply Z.eqb_neq in Hli. specialize (Hwi Hint ltac:(lia)). lia.
      * destruct o as [[[|r]|]|e].
        -- intros Hpos. exfalso. specialize (Ho Hpos).
           rewrite (index_below_iterations (i + 1) m ltac:(lia)) in Ho.
           destruct Hpos as [Hint _]. rewrite Hlast, Hint in Hli. cbn [andb] in Hli.
           destruct (Number.iterations m) as [k|]; [|done].
           symmetry in Hbi, Hli. apply Z.ltb_lt in Hbi. apply Z.ltb_ge in Ho.
           apply Z.eqb_neq in Hli. lia.
        -- destruct Ho as (Hok & _ & url' & a & t' & -> & Hans).
           split; [done|]. split; [done|].
           exists url', a, (EvFetch url (Some 10000) :: EvWait (2 ^ i * 1000) :: t').
           split; [done|]. rewrite requests_request, requests_wait.
           cbn [calls Spec.after] in Hans. by replace (calls w + S (Obs.requests t'))%nat
             with (calls w + (1 + 0) + Obs.requests t')%nat by lia.
        -- by replace (i + Z.of_nat (S n)) with (i + 1 + Z.of_nat n) by lia.
        -- by destruct Ho.
    + eexists (Throw _), [Spec.request url].
      unfold Spec.request. rewrite requests_request. change (Obs.requests []) with 0%nat.
      split; [done|]. split; [lia|]. split.
      * intros k Hk. rewrite Hk in Hbi. symmetry in Hbi. apply Z.ltb_lt in Hbi.
        cbn [Obs.total_wait].
        pose proof (Hpow i (Z.max i (Z.of_nat k)) ltac:(lia)).
        pose proof (Hpow i (Z.of_nat k - 1) ltac:(lia)). lia.
      * rewrite Hlast in Hli. symmetry in Hli. apply andb_true_iff in Hli as [Hint _].
        done.
Qed.

End NumberFacts.

(** X1. [fetchWithTimeout] issues exactly one request; a response is
    returned as it is, also when it is not [ok]; and whatever it throws
    is never an [AbortError]: an aborted request surfaces as the timeout
    error. *)
Theorem fetchWithTimeout_outcome {page : Type} (h : host) (url : string) (timeout : Z)
    (w : world page) :
  exists o : outcome response,
    Api.fetchWithTimeout h url timeout w = (o, Spec.after w 1 [EvFetch url (Some timeout)])
    /\ (forall r, transport h (calls w) url (Some timeout) = FetchResolve r -> o = Ok r)
    /\ (forall e, transport h (calls w) url (Some timeout) = FetchReject e ->
                  JS.err_name e = "AbortError" -> o = Throw Spec.timeout_error)
    /\ (forall e, o = Throw e -> JS.err_name e <> "AbortError").
Proof.
  rewrite fetchWithTimeout_run. eexists. split; [reflexivity|].
  destruct (transport h (calls w) url (Some timeout)) as [r|e]; simpl.
  - split; [by intros ? [= ->]|]. split; [done|]. done.
  - split; [done|]. split.
    + intros e' [= <-] Hname. by rewrite Hname.
    + intros e' [= <-]. destruct (String.eqb_spec (JS.err_name e) "AbortError"); done.
Qed.

(** The loop on a bound that is an integer is the loop on integers. *)
Lemma retry_loop_on_integers {page : Type} (h : host) url (z : Z) :
  forall (n : nat) (i : Z) (w : world page),
  z - i <= Z.of_nat n ->
  Number.retry_loop h n url (Number.Finite (inject_Z z)) i w
  = Number.ended (Api.retry_loop h n url z i w).
Proof.
  assert (Hbelow : forall i, Number.index_below i (Number.Finite (inject_Z z)) = (i <? z)).
  { intros i. cbn [Number.index_below].
    destruct (Z.ltb_spec i z) as [Hlt|Hge].
    - apply negb_true_iff. destruct (Qle_bool (inject_Z z) (inject_Z i)) eqn:Hle; [|done].
      apply Qle_bool_iff in Hle. rewrite <- Zle_Qle in Hle. lia.
    - apply negb_false_iff, Qle_bool_iff. by rewrite <- Zle_Qle. }
  assert (Hlast : forall i, Number.index_last i (Number.Finite (inject_Z z)) = (i =? z - 1)).
  { intros i. cbn [Number.index_last].
    destruct (Z.eqb_spec i (z - 1)) as [->|Hne].
    - apply Qeq_bool_iff. unfold Zminus. rewrite inject_Z_plus.
      unfold Qminus. apply Qplus_comp; reflexivity.
    - destruct (Qeq_bool (inject_Z i) (inject_Z z - 1)) eqn:Heq; [|done].
      apply Qeq_bool_iff in Heq.
      assert (Hz : (inject_Z z == inject_Z (i + 1))%Q).
      { rewrite inject_Z_plus. change (inject_Z 1) with 1%Q. lra. }
      apply (proj1 (inject_Z_injective z (i + 1))) in Hz. lia. }
  induction n as [|n IH]; intros i w Hn; cbn [Number.retry_loop Api.retry_loop];
    rewrite Hbelow.
  - by destruct (Z.ltb_spec i z); [lia|].
  - destruct (i <? z); [|done]. rewrite Hlast.
    change (Number.attempt h url (i =? z - 1)) with (Api.attempt (page := page) h url z i).
    unfold bind at 1 3.
    destruct (Api.attempt h url z i w) as [[[v|]|e] w1]; try done.
    unfold bind. rewrite !sleep_run. apply IH. lia.
Qed.

(** At 2.5 the loop makes three attempts, waits after each of them
    and resolves with [undefined]. *)
Example fetchWithRetry_fractional_bound :
  Number.fetchWithRetry
    (Examples.host_of Examples.configured (Examples.always (FetchReject Examples.network_error)))
    5 "/orders" tt (Number.Finite (5 # 2)) (Examples.start (Examples.tracking_page ""))
  = (Ok (Some Api.VUndefined),
     Spec.after (Examples.start (Examples.tracking_page "")) 3
       [ EvFetch "/orders" (Some 10000); EvWait 1000;
         EvFetch "/orders" (Some 10000); EvWait 2000;
         EvFetch "/orders" (Some 10000); EvWait 4000 ]).
Proof. by vm_compute. Qed.

(** X2. [fetchWithRetry] never resolves with a response that is not
    [ok].  With [maxRetries] taken as the number the loop compares the
    index with: it rejects only when [maxRetries] is a positive integer,
    and resolves with [undefined] only when it is not one; it does so
    at once, without a request, when [maxRetries] is [NaN], zero or
    negative.  Followed for [n] iterations the loop has ended, unless
    [n] is below the number of indices under [maxRetries].  On an
    integer the run is the run of the loop on integers. *)
Theorem fetchWithRetry_result {page options : Type} (h : host) (url : string)
    (opts : options) (maxRetries : Number.number) (n : nat) (w : world page) :
  let run := Number.fetchWithRetry h n url opts maxRetries w in
  (Number.index_below 0 maxRetries = false -> run = (Ok (Some Api.VUndefined), w))
  /\ match run.1 with
     | Ok (Some (Api.VResponse r)) => ok r = true /\ Number.index_below 0 maxRetries = true
     | Ok (Some Api.VUndefined) => ~ Number.positive_integer maxRetries
     | Throw _ => Number.positive_integer maxRetries
     | Ok None =>
         match Number.iterations maxRetries with
         | Some k => (n < k)%nat
         | None => True
         end
     end
  /\ (forall z : Z,
        maxRetries = Number.Finite (inject_Z z) ->
        Number.fetchWithRetry h (Z.to_nat z) url opts maxRetries w
        = Number.ended (Api.fetchWithRetry h url opts z w)).
Proof.
  intros run. subst run. unfold Number.fetchWithRetry. split; [|split].
  - intros Hnone. destruct n as [|n]; cbn [Number.retry_loop]; by rewrite Hnone.
  - destruct (retry_loop_number h url maxRetries n 0 w ltac:(lia))
      as (o & t & -> & _ & _ & Ho). cbn [fst].
    destruct o as [[[|r]|]|e].
    + intros Hpos. specialize (Ho Hpos). destruct Hpos as [_ Hbelow]. congruence.
    + by destruct Ho as (Hok & Hbelow & _).
    + rewrite (index_below_iterations (0 + Z.of_nat n) maxRetries ltac:(lia)) in Ho.
      destruct (Number.iterations maxRetries) as [k|]; [|done].
      apply Z.ltb_lt in Ho. lia.
    + done.
  - intros z ->. unfold Api.fetchWithRetry. apply retry_loop_on_integers. lia.
Qed.

Lemma fetchWithRetry_result_witness :
  Number.fetchWithRetry
    (Examples.host_of Examples.configured (Examples.always (FetchReject AbortError)))
    5 "/orders" tt Number.NaN (Examples.start (Examples.tracking_page ""))
  = (Ok (Some Api.VUndefined), Examples.start (Examples.tracking_page "")).
Proof.
  exact (proj1 (fetchWithRetry_result
                  (Examples.host_of Examples.configured
                     (Examples.always (FetchReject AbortError)))
                  "/orders" tt Number.NaN 5 (Examples.start (Examples.tracking_page "")))
           eq_refl).
Defined.

(** X3. Whatever the number [maxRetries] is, [fetchWithRetry] leaves
    the page alone, and when [k] indices lie under [maxRetries] ([k] is
    [maxRetries] rounded up, and 0 for [NaN] and below 1) it issues at
    most [k] requests and waits at most [2^k - 1] seconds in backoff:
    3 requests and 7 s at 2.5.  When [maxRetries] is an integer there
    is no wait after the last attempt, and the waits add up to at most
    [2^(k-1) - 1] seconds: 3 s with the default of three attempts. *)
Theorem fetchWithRetry_budget {page options : Type} (h : host) (url : string)
    (opts : options) (maxRetries : Number.number) (n : nat) (w : world page) :
  exists (o : outcome (option Api.value)) (t : list event),
    Number.fetchWithRetry h n url opts maxRetries w = (o, Spec.after w (Obs.requests t) t)
    /\ (Obs.requests t <= n)%nat
    /\ (forall k : nat,
          Number.iterations maxRetries = Some k ->
          (Obs.requests t <= k)%nat
          /\ Obs.total_wait t <= (2 ^ Z.of_nat k - 1) * 1000
          /\ (Number.integral maxRetries = true -> (1 <= k)%nat ->
              Obs.total_wait t <= (2 ^ (Z.of_nat k - 1) - 1) * 1000)).
Proof.
  unfold Number.fetchWithRetry.
  destruct (retry_loop_number h url maxRetries n 0 w ltac:(lia))
    as (o & t & Hrun & Hreq & Hk & _).
  exists o, t. split; [done|]. split; [done|].
  intros k Hiter. destruct (Hk k Hiter) as (Hr & Hw & Hwi).
  replace (Z.max 0 (Z.of_nat k)) with (Z.of_nat k) in Hw by lia.
  change (2 ^ 0) with 1 in Hw, Hwi.
  split; [lia|]. split; [done|]. intros Hint Hpos. apply Hwi; [done|lia].
Qed.

Lemma fetchWithRetry_budget_witness :
  exists (o : outcome (option Api.value)) (t : list event),
    Number.fetchWithRetry
      (Examples.host_of Examples.configured (Examples.always (FetchReject AbortError)))
      5 "/orders" tt (Number.Finite (5 # 2)) (Examples.start (Examples.tracking_page ""))
    = (o, Spec.after (Examples.start (Examples.tracking_page "")) (Obs.requests t) t)
    /\ (Obs.requests t <= 3)%nat
    /\ Obs.total_wait t <= 7000.
Proof.
  destruct (fetchWithRetry_budget
              (Examples.host_of Examples.configured (Examples.always (FetchReject AbortError)))
              "/orders" tt (Number.Finite (5 # 2)) 5
              (Examples.start (Examples.tracking_page "")))
    as (o & t & Hrun & _ & Hk).
  destruct (Hk 3%nat eq_refl) as (Hreq & Hwait & _).
  exists o, t. split; [exact Hrun|]. split; [exact Hreq | exact Hwait].
Defined.

(** X4. [fetchJSON] only parses the body of an [ok] response: a parsed
    value is the body of what the host answered to the last request of
    the run, and that answer has [ok] set.  With [maxRetries] zero or
    negative it makes no request and rejects with the [TypeError] of
    reading [json] on [undefined]. *)
Theorem fetchJSON_outcome {page options : Type} (h : host) (url : string)
    (opts : options) (maxRetries : Z) (w : world page) :
  (maxRetries <= 0 ->
   Json.fetchJSON h url opts maxRetries w = (Throw (JS.TypeError_undefined "json"), w))
  /\ (forall data w',
        Json.fetchJSON h url opts maxRetries w = (Ok data, w') ->
        0 < maxRetries
        /\ exists (r : response) (t : list event),
             w' = Spec.after w (Obs.requests t) t
             /\ Obs.last_answer h (calls w) t r
             /\ ok r = true
             /\ json r = inr data).
Proof.
  unfold Json.fetchJSON, bind. split.
  - intros Hle. unfold Api.fetchWithRetry. by rewrite retry_loop_done.
  - intros data w'.
    pose proof (fetchWithRetry_result_cases h url opts maxRetries w) as Hres.
    destruct (Api.fetchWithRetry h url opts maxRetries w) as [[[|r]|e] w1] eqn:Hrun;
      simpl in Hres; [done| |done].
    destruct (json r) as [e|d] eqn:Hjson; [done|].
    intros [= <- <-]. split; [tauto|].
    unfold Api.fetchWithRetry in Hrun.
    apply retry_loop_answer in Hrun as (t & Hw & Hans & Hok).
    by exists r, t.
Qed.

Lemma fetchJSON_outcome_witness :
  Json.fetchJSON (Examples.host_of Examples.configured Examples.flaky)
    "/orders" tt 0 (Examples.start (Examples.tracking_page ""))
  = (Throw (JS.TypeError_undefined "json"), Examples.start (Examples.tracking_page "")).
Proof.
  apply (proj1 (fetchJSON_outcome
                  (Examples.host_of Examples.configured Examples.flaky)
                  "/orders" tt 0 (Examples.start (Examples.tracking_page "")))).
  lia.
Defined.

(** ** More about the timeline and the views *)

Section TimelineMore.
Implicit Types (k : Z) (i : nat) (cl : JS.classList) (p : page).

Local Ltac present :=
  repeat first [apply list_elem_of_here | apply list_elem_of_further].

(** The marks of an earlier update do not survive a later one. *)
Lemma mark_step_last k1 k2 i cl :
  Tracker.mark_step k2 i (Tracker.mark_step k1 i cl) = Tracker.mark_step k2 i cl.
Proof.
  unfold Tracker.mark_step.
  destruct (Z.of_nat i <? k1); [|destruct (Z.of_nat i =? k1)];
    rewrite ?class_remove_add, ?class_remove_idem by present; reflexivity.
Qed.

Lemma indexOf_from_absent (l : list string) : forall (j : Z) (x : string),
  x ∉ l -> Tracker.indexOf_from j l x = -1.
Proof.
  induction l as [|y l IH]; intros j x Hx; [done|]. simpl.
  apply not_elem_of_cons in Hx as [Hne Hx].
  destruct (String.eqb_spec y x); [congruence|]. by apply IH.
Qed.

Lemma indexOf_from_present (l : list string) : forall (j : Z) (x : string),
  x ∈ l ->
  j <= Tracker.indexOf_from j l x < j + Z.of_nat (length l)
  /\ l !! Z.to_nat (Tracker.indexOf_from j l x - j) = Some x.
Proof.
  induction l as [|y l IH]; intros j x Hx; [by apply elem_of_nil in Hx|]. simpl.
  destruct (String.eqb_spec y x) as [->|Hne].
  - rewrite Z.sub_diag. split; [lia | done].
  - apply elem_of_cons in Hx as [->|Hx]; [done|].
    destruct (IH (j + 1) x Hx) as [Hrange Hlook]. split; [lia|].
    replace (Z.to_nat (Tracker.indexOf_from (j + 1) l x - j))
      with (S (Z.to_nat (Tracker.indexOf_from (j + 1) l x - (j + 1)))) by lia.
    exact Hlook.
Qed.

Lemma mark_all_after k (steps : list JS.classList) :
  k < 0 ->
  imap (Tracker.mark_step k) steps
    = map (JS.class_remove ["completed"; "active"]) steps.
Proof.
  intros Hk. apply list_eq. intros i. rewrite list_lookup_imap, list_lookup_fmap.
  destruct (steps !! i) as [cl|]; [|done]. simpl. f_equal.
  by destruct (mark_step_after k i cl ltac:(lia)) as [-> _].
Qed.

Lemma removed_highlights_nothing (steps : list JS.classList) :
  Spec.highlights_nothing (map (JS.class_remove ["completed"; "active"]) steps).
Proof.
  unfold Spec.highlights_nothing, Spec.completed, Spec.active.
  apply Forall_fmap, Forall_forall. intros cl _. simpl.
  rewrite !class_remove_elem. split; intros [Hno _]; apply Hno; present.
Qed.

End TimelineMore.

(** X5. The timeline shows the last update only: a second
    [updateTimeline] gives the page the second alone would give.  An
    update keeps the number of stages and every class of a stage other
    than the two marks, and leaves at most one mark on a stage. *)
Theorem updateTimeline_last_wins (step1 step2 : option string) (p : page) :
  Tracker.updateTimeline step2 (Tracker.updateTimeline step1 p)
    = Tracker.updateTimeline step2 p
  /\ length (timeline_steps (Tracker.updateTimeline step1 p)) = length (timeline_steps p)
  /\ (forall (i : nat) (before : JS.classList),
        timeline_steps p !! i = Some before ->
        exists classes : JS.classList,
          timeline_steps (Tracker.updateTimeline step1 p) !! i = Some classes
          /\ (Spec.marks classes <= 1)%nat
          /\ (forall c, c ∉ ["completed"; "active"] -> (c ∈ classes) <-> (c ∈ before))).
Proof.
  split; [|split].
  - destruct p as [e t m pr d tc tn od os ts tl i1 i2].
    unfold Tracker.updateTimeline, Dom.set_timeline_steps. simpl. f_equal.
    apply list_eq. intros i. rewrite !list_lookup_imap.
    destruct (ts !! i); [|done]. simpl. by rewrite mark_step_last.
  - rewrite timeline_steps_updateTimeline. apply length_imap.
  - intros i before Hbefore. rewrite timeline_steps_updateTimeline, list_lookup_imap, Hbefore.
    simpl. eexists. split; [done|]. split; [apply mark_step_marks|].
    intros c Hc. by apply mark_step_others.
Qed.

(** X6. [getStatusIndex] is [-1] exactly for a step that is not one of
    the eight step names ([undefined] included), and otherwise the
    position of the step in [getStatusSteps].  For a step of index [-1]
    [updateTimeline] removes every mark and sets none. *)
Theorem updateTimeline_unknown_step (step : option string) (p : page) :
  (Tracker.getStatusIndex step = -1 <-> step ∉ (Some <$> Tracker.getStatusSteps))
  /\ (Tracker.getStatusIndex step <> -1 ->
      0 <= Tracker.getStatusIndex step < 8
      /\ Some <$> (Tracker.getStatusSteps !! Z.to_nat (Tracker.getStatusIndex step)) = Some step)
  /\ (Tracker.getStatusIndex step = -1 ->
      timeline_steps (Tracker.updateTimeline step p)
        = map (JS.class_remove ["completed"; "active"]) (timeline_steps p)
      /\ Spec.highlights_nothing (timeline_steps (Tracker.updateTimeline step p))).
Proof.
  assert (Hcases : ((step ∉ (Some <$> Tracker.getStatusSteps))
                    /\ Tracker.getStatusIndex step = -1)
                   \/ ((step ∈ (Some <$> Tracker.getStatusSteps))
                       /\ 0 <= Tracker.getStatusIndex step < 8
                       /\ Some <$> (Tracker.getStatusSteps
                                      !! Z.to_nat (Tracker.getStatusIndex step)) = Some step)).
  { destruct step as [s|].
    - destruct (decide (s ∈ Tracker.getStatusSteps)) as [Hin|Hout].
      + right. split; [by apply list_elem_of_fmap_2|].
        destruct (indexOf_from_present Tracker.getStatusSteps 0 s Hin) as [Hrange Hlook].
        unfold Tracker.getStatusIndex, Tracker.indexOf.
        rewrite Z.sub_0_r in Hlook. rewrite Hlook. split; [exact Hrange | done].
      + left. split.
        * intros Hin. apply list_elem_of_fmap in Hin as (s' & [= ->] & Hin). done.
        * by apply indexOf_from_absent.
    - left. split; [|done].
      intros Hin. apply list_elem_of_fmap in Hin as (s' & Heq & _). discriminate Heq. }
  split; [|split].
  - destruct Hcases as [[Hout Hidx]|(Hin & Hrange & _)]; split; try done; lia.
  - intros Hne. destruct Hcases as [[_ Hidx]|(_ & Hrange & Hlook)]; done.
  - intros Hidx. rewrite timeline_steps_updateTimeline, Hidx.
    rewrite mark_all_after by lia. split; [done|]. apply removed_highlights_nothing.
Qed.

Lemma updateTimeline_unknown_step_witness :
  timeline_steps
    (Tracker.updateTimeline None
       (Tracker.updateTimeline (Some "printing") (Examples.tracking_page "")))
  = map (JS.class_remove ["completed"; "active"])
      (timeline_steps (Tracker.updateTimeline (Some "printing") (Examples.tracking_page ""))).
Proof.
  apply (proj2 (proj2 (updateTimeline_unknown_step None
                         (Tracker.updateTimeline (Some "printing")
                            (Examples.tracking_page ""))))).
  reflexivity.
Defined.

Section ViewFacts.
Variable h : host.
Implicit Types p : page.

Section Fields.
Variables (e : option content) (t : option string) (m : option content)
  (pr d : option string) (tc : option JS.classList) (tn : option string)
  (od os : option JS.classList) (ts : list JS.classList) (tl : option string)
  (i1 i2 : option input).

Lemma showLoading_fields :
  Tracker.showLoading (mkPage e t m pr d tc tn od os ts tl i1 i2)
  = mkPage ((fun _ => Text "🐱") <$> e) t
      ((fun _ => Text "Looking up your order...") <$> m)
      pr d tc tn od (JS.class_remove ["hidden"] <$> os)
      (map (JS.class_remove ["completed"; "active"]) ts)
      ((fun _ => "flex") <$> tl) i1 i2.
Proof. destruct e, m, os, tl; reflexivity. Qed.

Lemma displayError_fields message :
  Tracker.displayError h message (mkPage e t m pr d tc tn od os ts tl i1 i2)
  = mkPage e t
      ((fun _ => Html (Tracker.error_markup
                         (if utils_loaded h then Utils.escapeHTML message
                          else Tracker.replace_special message))) <$> m)
      pr d tc tn od (JS.class_remove ["hidden"] <$> os) ts
      ((fun _ => "none") <$> tl) i1 i2.
Proof. destruct m, os, tl; reflexivity. Qed.

End Fields.

Lemma showLoading_idem p : Tracker.showLoading (Tracker.showLoading p) = Tracker.showLoading p.
Proof.
  destruct p as [e t m pr d tc tn od os ts tl i1 i2]. rewrite !showLoading_fields.
  f_equal.
  - by destruct e.
  - by destruct m.
  - destruct os; [|done]. simpl. by rewrite class_remove_idem.
  - rewrite <- list_fmap_compose. apply list_fmap_ext. intros i cl _. simpl.
    apply class_remove_idem.
  - by destruct tl.
Qed.

Lemma showLoading_after_error message p :
  Tracker.showLoading (Tracker.displayError h message p) = Tracker.showLoading p.
Proof.
  destruct p as [e t m pr d tc tn od os ts tl i1 i2].
  rewrite displayError_fields, !showLoading_fields. f_equal.
  - by destruct m.
  - destruct os; [|done]. simpl. by rewrite class_remove_idem.
  - by destruct tl.
Qed.

Lemma displayError_last message1 message2 p :
  Tracker.displayError h message2 (Tracker.displayError h message1 p)
    = Tracker.displayError h message2 p.
Proof.
  destruct p as [e t m pr d tc tn od os ts tl i1 i2]. rewrite !displayError_fields.
  f_equal.
  - by destruct m.
  - destruct os; [|done]. simpl. by rewrite class_remove_idem.
  - by destruct tl.
Qed.

End ViewFacts.

(** X7. [showLoading] clears every mark of the timeline and is
    idempotent; run after [displayError] it gives the page it gives
    without the error, so a new search erases the error view.  It never
    touches the title, the detail fields or the details panel: what a
    previous order left there stays. *)
Theorem showLoading_resets (h : host) (message : string) (p : page) :
  Tracker.showLoading (Tracker.showLoading p) = Tracker.showLoading p
  /\ Tracker.showLoading (Tracker.displayError h message p) = Tracker.showLoading p
  /\ Spec.highlights_nothing (timeline_steps (Tracker.showLoading p))
  /\ status_title (Tracker.showLoading p) = status_title p
  /\ order_product (Tracker.showLoading p) = order_product p
  /\ order_date (Tracker.showLoading p) = order_date p
  /\ tracking_number (Tracker.showLoading p) = tracking_number p
  /\ tracking_container (Tracker.showLoading p) = tracking_container p
  /\ order_details (Tracker.showLoading p) = order_details p.
Proof.
  split; [apply showLoading_idem|]. split; [apply showLoading_after_error|].
  destruct p as [e t m pr d tc tn od os ts tl i1 i2]. rewrite showLoading_fields.
  split; [apply removed_highlights_nothing|]. by repeat split.
Qed.

(** X8. Of two [displayError] in a row only the second shows.  The
    error view hides the timeline but keeps its marks, and keeps the
    title, the detail fields and the details panel as they were: after
    an order was displayed, a failed lookup leaves that order's details
    panel visible. *)
Theorem displayError_keeps_details (h : host) (message1 message2 : string)
    (o : envelope_order) (p : page) :
  Tracker.displayError h message2 (Tracker.displayError h message1 p)
    = Tracker.displayError h message2 p
  /\ timeline_steps (Tracker.displayError h message1 p) = timeline_steps p
  /\ status_title (Tracker.displayError h message1 p) = status_title p
  /\ order_product (Tracker.displayError h message1 p) = order_product p
  /\ order_details (Tracker.displayError h message1 p) = order_details p
  /\ status_timeline (Tracker.displayError h message1 p)
     = (fun _ => "none") <$> status_timeline p
  /\ order_details (Tracker.displayError h message1 (Tracker.display_order h o p))
     = JS.class_remove ["hidden"] <$> order_details p.
Proof.
  split; [apply displayError_last|].
  rewrite display_order_fields.
  destruct p as [e t m pr d tc tn od os ts tl i1 i2]. unfold Spec.displayed.
  rewrite !displayError_fields. simpl. by repeat split.
Qed.

(** ** More about escaping and the animation *)

Section EscapeFacts.
Implicit Types (c x : ascii) (s message : string).









End EscapeFacts.



(** X10. [renderAnimation] puts a [lottie-player] into the page only in
    ["lottie"] mode, with the utilities loaded, for the URL configured
    for the step, and only when that URL parses with protocol [http:] or
    [https:]; in every other case it writes the emoji of the status as
    text. *)
Theorem renderAnimation_validates_url (h : host) (step : option string)
    (statusConfig : Tracker.status_object) (p : page) :
  status_emoji p <> None ->
  status_emoji (Tracker.renderAnimation h step statusConfig p)
    = Some (Text (Dom.text_of (Tracker.get_emoji statusConfig)))
  \/ exists url : string,
       status_emoji (Tracker.renderAnimation h step statusConfig p)
         = Some (Tracker.lottie_player url)
       /\ Tracker.config_animationMode h = Some "lottie"
       /\ Tracker.config_lottieUrl h (Tracker.property_key step) = Some url
       /\ utils_loaded h = true
       /\ (url_protocol h url = Some "http:" \/ url_protocol h url = Some "https:").
Proof.
  intros Hemoji. destruct p as [[c|] t m pr d tc tn od os ts tl i1 i2]; [|done].
  rewrite renderAnimation_fields. simpl. unfold Spec.animation.
  destruct (String.eqb_spec (JS.or_default (Tracker.config_animationMode h) "emoji")
              "lottie") as [Hmode|_]; [|by left].
  destruct (Tracker.config_lottieUrl h (Tracker.property_key step)) as [url|] eqn:Hurl;
    [|by left].
  destruct (JS.truthy_opt (Some url)); [|by left].
  destruct (utils_loaded h); [|by left]. simpl.
  destruct (Utils.isValidURL h url) eqn:Hvalid; [|by left].
  right. exists url. split; [done|]. split; [|split; [done|split; [done|]]].
  - unfold JS.or_default in Hmode.
    destruct (Tracker.config_animationMode h) as [mode|]; [|discriminate Hmode].
    destruct (JS.truthy mode); [by rewrite Hmode | discriminate Hmode].
  - unfold Utils.isValidURL in Hvalid. destruct (negb (JS.truthy url)); [done|].
    destruct (url_protocol h url) as [protocol|]; [|done].
    apply orb_true_iff in Hvalid as [Heq|Heq]; apply String.eqb_eq in Heq; subst; tauto.
Qed.

Lemma renderAnimation_validates_url_witness :
  status_emoji
    (Tracker.renderAnimation
       (mkHost (fun _ _ _ => FetchReject AbortError) (fun _ => Some "javascript:")
          (fun d => d)
          (Some (mkTrackerConfig None (Some "lottie")
                   (Some {[ "printing" := "javascript:alert(1)" ]})))
          true true true)
       (Some "printing") (Tracker.getStatusConfig "Printing") (Examples.tracking_page ""))
  = Some (Text "🖨️").
Proof.
  destruct (renderAnimation_validates_url
              (mkHost (fun _ _ _ => FetchReject AbortError) (fun _ => Some "javascript:")
                 (fun d => d)
                 (Some (mkTrackerConfig None (Some "lottie")
                          (Some {[ "printing" := "javascript:alert(1)" ]})))
                 true true true)
              (Some "printing") (Tracker.getStatusConfig "Printing")
              (Examples.tracking_page "") ltac:(discriminate))
    as [Htext|(url & _ & _ & _ & _ & [Hp|Hp])].
  - exact Htext.
  - discriminate Hp.
  - discriminate Hp.
Defined.

Section InheritedStatus.

Lemma inherited_not_own (status : string) :
  status ∈ Tracker.Object_prototype -> Tracker.STATUS_CONFIG !! status = None.
Proof.
  intros Hin. unfold Tracker.Object_prototype in Hin.
  repeat (apply elem_of_cons in Hin as [->|Hin]; [reflexivity|]).
  by apply elem_of_nil in Hin.
Qed.

Lemma getStatusConfig_inherited (status : string) :
  status ∈ Tracker.Object_prototype ->
  Tracker.getStatusConfig status = Tracker.Inherited status.
Proof.
  intros Hin. unfold Tracker.getStatusConfig, Tracker.STATUS_CONFIG_get.
  rewrite (inherited_not_own status Hin). by rewrite bool_decide_eq_true_2.
Qed.

End InheritedStatus.

(** X11. A status that names a property every object inherits from
    [Object.prototype] (["constructor"], ["toString"], ...) does not get
    the default descriptor: the lookup yields the inherited member, so
    the display shows the status as title, an empty message, and no
    mark on any stage. *)
Theorem display_inherited_status (h : host) (o : envelope_order) (p : page) :
  status o ∈ Tracker.Object_prototype ->
  Tracker.getStatusConfig (status o) = Tracker.Inherited (status o)
  /\ status_title (Tracker.display_order h o p) = (fun _ => status o) <$> status_title p
  /\ status_message (Tracker.display_order h o p) = (fun _ => Text "") <$> status_message p
  /\ Spec.highlights_nothing (timeline_steps (Tracker.display_order h o p)).
Proof.
  intros Hin. pose proof (getStatusConfig_inherited (status o) Hin) as Hcfg.
  split; [done|]. rewrite display_order_fields. unfold Spec.displayed. rewrite Hcfg. simpl.
  split; [done|]. split; [done|].
  change (Tracker.getStatusIndex None) with (-1).
  rewrite mark_all_after by lia. apply removed_highlights_nothing.
Qed.

Lemma display_inherited_status_witness :
  status_message
    (Tracker.display_order (Examples.host_of Examples.configured Examples.flaky)
       (mkOrder "AA-2024-0047" "constructor" None None None None)
       (Examples.tracking_page ""))
  = (fun _ => Text "") <$> status_message (Examples.tracking_page "").
Proof.
  apply (display_inherited_status (Examples.host_of Examples.configured Examples.flaky)
           (mkOrder "AA-2024-0047" "constructor" None None None None)
           (Examples.tracking_page "")).
  apply list_elem_of_here.
Defined.

(** ** More about the lookup *)

Section LookupMore.
Variable h : host.
Implicit Types w : world page.

Local Ltac conj4 :=
  do 4 (split; [first [ done
                      | cbn [Obs.total_wait]; lia
                      | rewrite requests_request; change (Obs.requests []) with 0%nat; lia ]|]).

(** What every run of the lookup satisfies. *)
Lemma fetchOrderStatus_contract orderId email w :
  exists (o : outcome envelope) (t : list event),
    Tracker.fetchOrderStatus h orderId email w = (o, Spec.after w (Obs.requests t) t)
    /\ (Obs.requests t <= 3)%nat
    /\ Obs.total_wait t <= 3000
    /\ Forall (fun ev => Spec.is_request ev = true ->
                         exists a, ev = EvFetch (Tracker.lookup_url h orderId email) a) t
    /\ (forall data, o = Ok data ->
                     success data = true
                     /\ exists r, Obs.last_answer h (calls w) t r
                                  /\ ok r = true /\ json r = inr data).
Proof.
  unfold Tracker.fetchOrderStatus, try_catch, bind.
  set (url := Tracker.lookup_url h orderId email).
  destruct (api_loaded h).
  - pose proof (fetchWithRetry_result_cases h url (∅ : gmap string string) 3 w) as Hres.
    unfold Api.fetchWithRetry in *. change (Z.to_nat 3) with 3%nat in *.
    destruct (retry_loop_budget h url 3 3 0 w ltac:(lia)) as (o & t & Hrun & Hreq & Hwait).
    destruct (retry_loop_requests h url 3 3 0 w) as (t' & Htrace & Hurls).
    rewrite Hrun in Htrace, Hres. simpl in Htrace, Hres.
    apply app_inv_head in Htrace as <-. rewrite Hrun.
    assert (Hall : Forall (fun ev => Spec.is_request ev = true ->
                                     exists a, ev = EvFetch url a) t).
    { eapply Forall_impl; [exact Hurls|]. intros ev Hev Hr. eexists. by apply Hev. }
    specialize (Hwait ltac:(lia)). change ((2 ^ (3 - 1) - 2 ^ 0) * 1000) with 3000 in Hwait.
    destruct o as [[|r]|e].
    + exists (Throw (JS.TypeError_undefined "json")), t. by conj4.
    + unfold Tracker.response_json. destruct (json r) as [e|data] eqn:Hjson.
      * exists (Throw e), t. by conj4.
      * unfold ret. destruct Hres as [Hok _]. rewrite Hok. simpl.
        destruct (success data) eqn:Hsuccess; simpl.
        -- exists (Ok data), t. conj4.
           intros d [= <-]. split; [done|]. exists r.
           destruct (retry_loop_answer h url 3 3 0 w r _ Hrun) as (t2 & Hw & Hans & _).
           assert (t2 = t) as ->; [|done].
           apply (f_equal trace) in Hw. cbn [trace Spec.after] in Hw.
           by apply app_inv_head in Hw.
        -- eexists (Throw _), t. by conj4.
    + exists (Throw e), t. by conj4.
  - rewrite fetch_run.
    assert (Hone : Forall (fun ev => Spec.is_request ev = true ->
                                     exists a, ev = EvFetch url a) [EvFetch url None]).
    { constructor; [|constructor]. intros _. by eexists. }
    destruct (transport h (calls w) url None) as [r|e] eqn:Hanswer.
    + unfold ret, Tracker.response_json. destruct (json r) as [e|data] eqn:Hjson.
      * exists (Throw e), [EvFetch url None]. by conj4.
      * unfold ret. destruct (ok r) eqn:Hok; simpl.
        -- destruct (success data) eqn:Hsuccess; simpl.
           ++ exists (Ok data), [EvFetch url None]. conj4.
              intros d [= <-]. split; [done|]. exists r. split; [|done].
              exists url, None, []. split; [done|].
              change (Obs.requests []) with 0%nat. by rewrite Nat.add_0_r.
           ++ eexists (Throw _), [EvFetch url None]. by conj4.
        -- eexists (Throw _), [EvFetch url None]. by conj4.
    + exists (Throw e), [EvFetch url None]. by conj4.
Qed.

End LookupMore.

(** X12. Every run of [fetchOrderStatus] makes at most three requests,
    all of them for the lookup URL, waits at most three seconds in
    backoff, and leaves the page alone; when it returns an envelope,
    that envelope says [success] and is the body of what the host
    answered to the last request of the run, an answer with [ok]
    set. *)
Theorem fetchOrderStatus_contract_holds (h : host) (orderId email : string)
    (w : world page) :
  exists (o : outcome envelope) (t : list event),
    Tracker.fetchOrderStatus h orderId email w = (o, Spec.after w (Obs.requests t) t)
    /\ (Obs.requests t <= 3)%nat
    /\ Obs.total_wait t <= 3000
    /\ Forall (fun ev => Spec.is_request ev = true ->
                         exists a, ev = EvFetch (Tracker.lookup_url h orderId email) a) t
    /\ (forall data, o = Ok data ->
                     success data = true
                     /\ exists r, Obs.last_answer h (calls w) t r
                                  /\ ok r = true /\ json r = inr data).
Proof. apply fetchOrderStatus_contract. Qed.

(** X13. Without the request helper the lookup is one plain [fetch],
    with no abort timer and no retry, and a response that is not [ok]
    is read: the lookup fails with the error string of its envelope, or
    the generic message when there is none. *)
Theorem fetchOrderStatus_without_helper (h : host) (orderId email : string)
    (w : world page) (r : response) (data : envelope) :
  api_loaded h = false ->
  transport h (calls w) (Tracker.lookup_url h orderId email) None = FetchResolve r ->
  json r = inr data ->
  ok r = false \/ success data = false ->
  Tracker.fetchOrderStatus h orderId email w
  = (Throw (JS.Error (JS.or_default (error data) "Failed to fetch order status")),
     Spec.after w 1 [EvFetch (Tracker.lookup_url h orderId email) None]).
Proof.
  intros Hapi Hres Hjson Hbad.
  unfold Tracker.fetchOrderStatus, try_catch, bind. rewrite Hapi, fetch_run, Hres.
  unfold ret, Tracker.response_json. rewrite Hjson. unfold ret.
  destruct Hbad as [-> | ->]; [done|]. by rewrite orb_true_r.
Qed.

Lemma fetchOrderStatus_without_helper_witness :
  let bare := mkHost (fun _ _ _ => FetchResolve Examples.not_found) (fun _ => None)
                (fun d => d) Examples.configured false true true in
  Tracker.fetchOrderStatus bare "AA-2024-0047" ""
    (Examples.start (Examples.tracking_page ""))
  = (Throw (JS.Error "Order not found or email doesn't match"),
     Spec.after (Examples.start (Examples.tracking_page "")) 1
       [EvFetch (Tracker.lookup_url bare "AA-2024-0047" "") None]).
Proof.
  intros bare.
  apply (fetchOrderStatus_without_helper bare "AA-2024-0047" ""
           (Examples.start (Examples.tracking_page "")) Examples.not_found
           (mkEnvelope false None (Some "Order not found or email doesn't match"))
           eq_refl eq_refl eq_refl (or_introl eq_refl)).
Defined.

(** ** More about the lookup URL *)

Section EncodeFacts.
Implicit Types (c : ascii) (s : string).



Lemma list_ascii_of_append (a b : string) :
  list_ascii_of_string (a +:+ b) = list_ascii_of_string a ++ list_ascii_of_string b.
Proof. induction a as [|c a IH]; [done|]. simpl. by rewrite IH. Qed.







End EncodeFacts.



(** ** More about the form errors *)

Section FormMore.
Implicit Types (p : page) (i j : Dom.which) (message : string).

Lemma class_contains_added (t : string) (cl : JS.classList) :
  JS.class_contains t (JS.class_add t cl) = true.
Proof. apply bool_decide_eq_true_2, class_add_elem. by left. Qed.

(** Case analysis on the page down to the error elements of the two
    inputs. *)
Local Ltac form_cases p i :=
  destruct p as [? ? ? ? ? ? ? ? ? ? ? [[? ? [[? [[? ? ? ?]|]]|] ? ?]|]
                                      [[? ? [[? [[? ? ? ?]|]]|] ? ?]|]];
  destruct i;
  cbn -[JS.class_contains JS.class_remove JS.class_add].

Lemma showFormError_last message1 message2 i p :
  Main.showFormError message2 i (Main.showFormError message1 i p)
    = Main.showFormError message2 i p.
Proof. form_cases p i; rewrite ?class_remove_idem; reflexivity. Qed.

Lemma clearFormError_hides message i p :
  Spec.shown_error (Dom.get_input i (Main.clearFormError i (Main.showFormError message i p)))
    = None.
Proof. form_cases p i; rewrite ?class_contains_added; done. Qed.

Lemma clearFormError_aria message i p (inputElement : input) (formGroup : form_group) :
  Dom.get_input i p = Some inputElement -> in_group inputElement = Some formGroup ->
  Dom.get_input i (Main.clearFormError i (Main.showFormError message i p)) ≫= aria_invalid
    = None.
Proof. form_cases p i; intros [= <-] [= <-]; done. Qed.

Lemma clearFormError_idem i p :
  Main.clearFormError i (Main.clearFormError i p) = Main.clearFormError i p.
Proof. form_cases p i; rewrite ?class_add_idem; reflexivity. Qed.

Lemma showFormError_shows message i p (inputElement : input) (formGroup : form_group) :
  Dom.get_input i p = Some inputElement -> in_group inputElement = Some formGroup ->
  Spec.shown_error (Dom.get_input i (Main.showFormError message i p)) = Some message
  /\ Dom.get_input i (Main.showFormError message i p) ≫= aria_invalid = Some "true".
Proof.
  form_cases p i; intros [= <-] [= <-]; rewrite ?class_contains_removed; done.
Qed.

Lemma form_errors_keep_values message i j p :
  in_value <$> Dom.get_input j (Main.showFormError message i p)
    = in_value <$> Dom.get_input j p
  /\ in_value <$> Dom.get_input j (Main.clearFormError i p)
     = in_value <$> Dom.get_input j p.
Proof. form_cases p i; destruct j; done. Qed.

Lemma form_errors_independent message i j p :
  i <> j ->
  Dom.get_input j (Main.showFormError message i p) = Dom.get_input j p
  /\ Dom.get_input j (Main.clearFormError i p) = Dom.get_input j p.
Proof. intros Hne. form_cases p i; destruct j; done. Qed.

End FormMore.

(** X15. Of two [showFormError] on the same input only the second
    shows, and no second error element is made; [clearFormError]
    afterwards hides the message, and clearing is idempotent.  For an
    input in a form group the message is shown with [aria-invalid] set,
    and clearing removes [aria-invalid] again. *)
Theorem form_error_show_and_clear (message1 message2 : string) (i : Dom.which) (p : page) :
  Main.showFormError message2 i (Main.showFormError message1 i p)
    = Main.showFormError message2 i p
  /\ Main.clearFormError i (Main.clearFormError i p) = Main.clearFormError i p
  /\ Spec.shown_error
       (Dom.get_input i (Main.clearFormError i (Main.showFormError message1 i p))) = None
  /\ (forall inputElement formGroup,
        Dom.get_input i p = Some inputElement -> in_group inputElement = Some formGroup ->
        Spec.shown_error (Dom.get_input i (Main.showFormError message1 i p))
          = Some message1
        /\ Dom.get_input i (Main.showFormError message1 i p) ≫= aria_invalid
           = Some "true"
        /\ Dom.get_input i (Main.clearFormError i (Main.showFormError message1 i p))
             ≫= aria_invalid = None).
Proof.
  split; [apply showFormError_last|]. split; [apply clearFormError_idem|].
  split; [apply clearFormError_hides|].
  intros inputElement formGroup Hinput Hgroup.
  destruct (showFormError_shows message1 i p inputElement formGroup Hinput Hgroup).
  split; [done|]. split; [done|]. by apply (clearFormError_aria _ _ _ inputElement formGroup).
Qed.

Lemma form_error_show_and_clear_witness :
  Spec.shown_error
    (Dom.get_input Dom.OrderEmail
       (Main.showFormError "Please enter your email address." Dom.OrderEmail
          (Examples.tracking_page "")))
  = Some "Please enter your email address.".
Proof.
  apply (proj2 (proj2 (proj2
           (form_error_show_and_clear "Please enter your email address." ""
              Dom.OrderEmail (Examples.tracking_page ""))))
           (mkInput "order-email" "" (Some (mkFormGroup ["form-group"; "hidden"] None))
              None None)
           (mkFormGroup ["form-group"; "hidden"] None) eq_refl eq_refl).
Defined.

(** X16. The form errors never change what is typed: showing or
    clearing an error leaves the value of both inputs as it was, and an
    error on one input leaves the other input entirely alone. *)
Theorem form_errors_are_local (message : string) (i j : Dom.which) (p : page) :
  in_value <$> Dom.get_input j (Main.showFormError message i p)
    = in_value <$> Dom.get_input j p
  /\ in_value <$> Dom.get_input j (Main.clearFormError i p)
     = in_value <$> Dom.get_input j p
  /\ (i <> j ->
      Dom.get_input j (Main.showFormError message i p) = Dom.get_input j p
      /\ Dom.get_input j (Main.clearFormError i p) = Dom.get_input j p).
Proof.
  split; [apply form_errors_keep_values|].
  split; [apply (form_errors_keep_values message)|].
  intros Hne. by apply form_errors_independent.
Qed.

Lemma form_errors_are_local_witness :
  Dom.get_input Dom.OrderEmail
    (Main.showFormError "Please enter an order number." Dom.OrderId
       (Examples.tracking_page ""))
  = Dom.get_input Dom.OrderEmail (Examples.tracking_page "").
Proof.
  apply (proj2 (proj2 (form_errors_are_local "Please enter an order number."
                         Dom.OrderId Dom.OrderEmail (Examples.tracking_page "")))).
  discriminate.
Defined.

(** ** More about the search *)

Section SearchFacts.
Variable h : host.
Implicit Types (p : page) (w : world page).

Lemma clearAllFormErrors_email_visible p :
  Form.email_visible (Main.clearAllFormErrors p) = Form.email_visible p.
Proof.
  destruct p as [? ? ? ? ? ? ? ? ? ? ? [[? ? [?|] ? ?]|] [[? ? [?|] ? ?]|]]; reflexivity.
Qed.

Lemma clearAllFormErrors_typed p :
  Form.typed_id (Main.clearAllFormErrors p) = Form.typed_id p
  /\ Form.typed_email (Main.clearAllFormErrors p) = Form.typed_email p.
Proof.
  unfold Form.typed_id, Form.typed_email.
  by rewrite clearAllFormErrors_order_id, clearAllFormErrors_order_email.
Qed.

Lemma emailFieldVisible_run p w :
  Main.emailFieldVisible p w =
    (match Form.email_visible p with
     | Some visible => Ok visible
     | None => Throw (JS.TypeError_null "classList")
     end, w).
Proof.
  unfold Main.emailFieldVisible, Form.email_visible.
  destruct (order_email_input p) as [emailInput|]; [|done].
  by destruct (in_group emailInput).
Qed.

(** The handler as a chain of checks on the cleared page. *)
Lemma handleOrderSearch_checks w input :
  order_id_input (dom w) = Some input ->
  let p := Main.clearAllFormErrors (dom w) in
  let orderId := Form.typed_id (dom w) in
  let email := Form.typed_email (dom w) in
  let show message i := (Ok tt, Spec.with_page w (Main.showFormError message i p)) in
  Main.handleOrderSearch h w =
    if negb (JS.truthy orderId) then show "Please enter an order number." Dom.OrderId
    else if negb (JS.test Main.orderIdPattern orderId)
         then show "Invalid order ID format. Expected: AA-2024-0047" Dom.OrderId
    else match Form.email_visible (dom w) with
         | None => (Throw (JS.TypeError_null "classList"), Spec.with_page w p)
         | Some visible =>
             if visible && negb (JS.truthy email)
             then show "Please enter your email address." Dom.OrderEmail
             else if JS.truthy email && negb (JS.test Main.emailRegex email)
                  then show "Please enter a valid email address." Dom.OrderEmail
             else if negb (tracker_loaded h)
                  then show "Order tracking is currently unavailable. Please try again later."
                         Dom.OrderId
             else Form.search h orderId email (Spec.with_page w p)
         end.
Proof.
  intros Hinput p orderId email show.
  destruct (clearAllFormErrors_typed (dom w)) as [Hid Hemail].
  unfold Main.handleOrderSearch, bind at 1, get_page. rewrite Hinput.
  unfold bind at 1, update. unfold bind at 1. cbn [dom calls trace].
  change (JS.trim (default "" (in_value <$> order_id_input (Main.clearAllFormErrors (dom w)))))
    with (Form.typed_id (Main.clearAllFormErrors (dom w))).
  change (JS.trim (default "" (in_value <$> order_email_input (Main.clearAllFormErrors (dom w)))))
    with (Form.typed_email (Main.clearAllFormErrors (dom w))).
  rewrite Hid, Hemail. fold orderId email.
  destruct (negb (JS.truthy orderId)); [done|].
  destruct (negb (JS.test Main.orderIdPattern orderId)); [done|].
  unfold bind at 1. rewrite emailFieldVisible_run, clearAllFormErrors_email_visible.
  destruct (Form.email_visible (dom w)) as [visible|]; [|done].
  destruct (visible && negb (JS.truthy email)); [done|].
  destruct (JS.truthy email && negb (JS.test Main.emailRegex email)); [done|].
  destruct (negb (tracker_loaded h)); done.
Qed.

End SearchFacts.

Section SearchRuns.
Variable h : host.
Implicit Types (p : page) (w : world page).

(** The search is the loading view, the lookup, and what the handler
    does when the lookup has ended. *)
Lemma search_resume orderId email w :
  let lookup := Tracker.fetchOrderStatus h orderId email
                  (Spec.with_page w (Tracker.showLoading (dom w))) in
  Form.search h orderId email w = Form.resume h lookup.1 lookup.2.
Proof.
  unfold Form.search, Form.resume, try_catch, bind, update.
  cbn [dom calls trace Spec.with_page].
  change {| calls := calls w; trace := trace w; dom := Tracker.showLoading (dom w) |}
    with (Spec.with_page w (Tracker.showLoading (dom w))).
  by destruct (Tracker.fetchOrderStatus h orderId email
                 (Spec.with_page w (Tracker.showLoading (dom w)))) as [[data|e] w1].
Qed.

Lemma search_on_page orderId email w p :
  Form.search h orderId email (Spec.with_page w p)
  = Form.resume h
      (Tracker.fetchOrderStatus h orderId email
         (Spec.with_page w (Tracker.showLoading p))).1
      (Tracker.fetchOrderStatus h orderId email
         (Spec.with_page w (Tracker.showLoading p))).2.
Proof. by rewrite search_resume. Qed.

Lemma resume_found (w : world page) (data : envelope) (o : envelope_order) :
  order data = Some o ->
  Form.resume h (Ok data) w = (Ok tt, Spec.with_page w (Tracker.display_order h o (dom w))).
Proof.
  intros Ho. unfold Form.resume, try_catch.
  by rewrite (displayOrderStatus_run h data o w Ho), display_order_fields.
Qed.

Lemma resume_failed (w : world page) (e : JS.error) :
  Form.resume h (Throw e) w
  = (Ok tt,
     Spec.with_page w
       (Tracker.displayError h
          (JS.or_default (Some (JS.err_message e))
             "Unable to find order. Please check your order number and email address.")
          (dom w))).
Proof. reflexivity. Qed.

Lemma resume_no_order (w : world page) (data : envelope) :
  order data = None ->
  exists message : string,
    Form.resume h (Ok data) w
    = (Ok tt, Spec.with_page w (Tracker.displayError h message (dom w))).
Proof.
  intros Ho. unfold Form.resume, try_catch, Tracker.displayOrderStatus. rewrite Ho.
  by eexists.
Qed.

(** From the cleared page on: the requests of the search. *)
Lemma search_run orderId email w :
  exists (t : list event) (q : page),
    (Form.search h orderId email (Spec.with_page w (Main.clearAllFormErrors (dom w)))
     = (Ok tt, Spec.with_page (Spec.after w (Obs.requests t) t) q))
    /\ (Obs.requests t <= 3)%nat
    /\ Obs.total_wait t <= 3000
    /\ Forall (fun ev => Spec.is_request ev = true ->
                         exists a, ev = EvFetch (Tracker.lookup_url h orderId email) a) t.
Proof.
  set (loading := Tracker.showLoading (Main.clearAllFormErrors (dom w))).
  destruct (fetchOrderStatus_contract h orderId email (Spec.with_page w loading))
    as (o & t & Hrun & Hreq & Hwait & Hurls & _).
  rewrite search_on_page. fold loading. rewrite Hrun.
  exists t. cbn [fst snd]. destruct o as [data|e].
  - destruct (order data) as [o|] eqn:Ho.
    + rewrite (resume_found _ data o Ho). by eexists.
    + destruct (resume_no_order (Spec.after (Spec.with_page w loading) (Obs.requests t) t)
                  data Ho) as (message & ->). by eexists.
  - rewrite resume_failed. by eexists.
Qed.

Lemma truthy_true (s : string) : JS.truthy s = true <-> s <> "".
Proof. destruct s; simpl; split; congruence. Qed.

(** A validated form reaches the search. *)
Lemma handleOrderSearch_validated w (input : input) :
  order_id_input (dom w) = Some input ->
  Spec.order_id_shape (Form.typed_id (dom w)) ->
  Form.email_passes (dom w) ->
  tracker_loaded h = true ->
  Main.handleOrderSearch h w
  = Form.search h (Form.typed_id (dom w)) (Form.typed_email (dom w))
      (Spec.with_page w (Main.clearAllFormErrors (dom w))).
Proof.
  intros Hinput Hshape (visible & Hvisible & Hgiven & Hformed) Hloaded.
  pose proof (handleOrderSearch_checks h w input Hinput) as Hchecks. simpl in Hchecks.
  assert (Hid : JS.truthy (Form.typed_id (dom w)) = true).
  { apply truthy_true. intros Hempty. rewrite Hempty in Hshape. inversion Hshape. }
  apply orderIdPattern_shape in Hshape.
  rewrite Hid, Hshape, Hvisible, Hloaded in Hchecks. simpl in Hchecks.
  assert (Hpass : visible && negb (JS.truthy (Form.typed_email (dom w))) = false
                  /\ JS.truthy (Form.typed_email (dom w))
                     && negb (JS.test Main.emailRegex (Form.typed_email (dom w))) = false).
  { destruct (JS.truthy (Form.typed_email (dom w))) eqn:Htruthy.
    - rewrite (Hformed (proj1 (truthy_true _) Htruthy)), andb_false_r. done.
    - apply truthy_false in Htruthy. destruct visible; [by destruct (Hgiven eq_refl)|done]. }
  destruct Hpass as [Hp1 Hp2]. by rewrite Hp1, Hp2 in Hchecks.
Qed.

(** The loading view of a page keeps its message element and its
    timeline container. *)
Lemma loading_keeps_elements p :
  (status_message p <> None ->
   status_message (Tracker.showLoading (Main.clearAllFormErrors p)) <> None)
  /\ (status_timeline p <> None ->
      status_timeline (Tracker.showLoading (Main.clearAllFormErrors p)) <> None).
Proof.
  destruct p as [e t [m|] pr d tc tn od os ts [tl|] [[? ? [?|] ? ?]|] [[? ? [?|] ? ?]|]];
    split; intros Hsome; try done; by destruct e, os.
Qed.

End SearchRuns.

(** C8, amended.  When no endpoint is configured the lookup is sent to
    the relative URL made of the query string alone, exactly like any
    other lookup: a first request is always issued; when the three
    attempts fail the lookup fails, after the usual waits, with the
    failure of the last attempt; the handler never passes a failure
    on; and for a validated form whose three attempts fail it leaves
    the ordinary error display, laid over the loading view, with the
    message of the last failure in the message element and the
    timeline hidden. *)
Theorem unconfigured_endpoint_lookup (h : host) (orderId email : string)
    (w : world page) :
  Tracker.API_ENDPOINT h = "" ->
  api_loaded h = true ->
  let query := "?orderId=" +:+ JS.encodeURIComponent orderId in
  let url := if JS.truthy email
             then query +:+ "&email=" +:+ JS.encodeURIComponent email
             else query in
  Tracker.lookup_url h orderId email = url
  /\ (exists t : list event,
        trace (Tracker.fetchOrderStatus h orderId email w).2
          = trace w ++ EvFetch url (Some 10000) :: t)
  /\ ((forall j, (j < 3)%nat ->
         Spec.failed (transport h (calls w + j) url (Some 10000)) = true) ->
      Tracker.fetchOrderStatus h orderId email w =
        (Throw (Spec.failure (transport h (calls w + 2) url (Some 10000))),
         Spec.after w 3
           [ EvFetch url (Some 10000); EvWait 1000;
             EvFetch url (Some 10000); EvWait 2000;
             EvFetch url (Some 10000) ]))
  /\ (forall w0 : world page,
        (forall emailInput, order_email_input (dom w0) = Some emailInput ->
                            in_group emailInput <> None) ->
        exists w', Main.handleOrderSearch h w0 = (Ok tt, w'))
  /\ (forall (w0 : world page) (input : input),
        order_id_input (dom w0) = Some input ->
        Form.typed_id (dom w0) = orderId ->
        Form.typed_email (dom w0) = email ->
        Spec.order_id_shape orderId ->
        Form.email_passes (dom w0) ->
        tracker_loaded h = true ->
        (forall j, (j < 3)%nat ->
           Spec.failed (transport h (calls w0 + j) url (Some 10000)) = true) ->
        let message :=
          JS.or_default
            (Some (JS.err_message (Spec.failure (transport h (calls w0 + 2) url (Some 10000)))))
            "Unable to find order. Please check your order number and email address." in
        let loading := Tracker.showLoading (Main.clearAllFormErrors (dom w0)) in
        let shown := Tracker.displayError h message loading in
        Main.handleOrderSearch h w0
        = (Ok tt,
           Spec.with_page
             (Spec.after w0 3
                [ EvFetch url (Some 10000); EvWait 1000;
                  EvFetch url (Some 10000); EvWait 2000;
                  EvFetch url (Some 10000) ])
             shown)
        /\ (status_message (dom w0) <> None -> status_timeline (dom w0) <> None ->
            status_message shown
            = Some (Html (Tracker.error_markup
                            (if utils_loaded h then Utils.escapeHTML message
                             else Tracker.replace_special message)))
            /\ status_timeline shown = Some "none")).
Proof.
  intros Hendpoint Hapi query url.
  assert (Hurl : Tracker.lookup_url h orderId email = url).
  { unfold Tracker.lookup_url. rewrite Hendpoint. reflexivity. }
  split; [exact Hurl|]. split; [|split; [|split]].
  - rewrite <- Hurl. by apply fetchOrderStatus_first_request.
  - intros Hfail. rewrite fetchOrderStatus_exhausted; [|done|by rewrite Hurl].
    by rewrite Hurl.
  - intros w0. apply handleOrderSearch_returns.
  - intros w0 input Hinput Hid Hemail Hshape Hpasses Hloaded Hfail message loading shown.
    split.
    + rewrite (handleOrderSearch_validated h w0 input Hinput) by (by rewrite ?Hid).
      rewrite Hid, Hemail, search_on_page. fold loading.
      rewrite fetchOrderStatus_exhausted; [|done|by rewrite Hurl].
      rewrite Hurl. cbn [fst snd]. by rewrite resume_failed.
    + intros Hmessage Htimeline.
      destruct (loading_keeps_elements (dom w0)) as [Hm Ht].
      apply displayError_view; [by apply Hm | by apply Ht].
Qed.

Lemma unconfigured_endpoint_lookup_witness :
  let bare := Examples.host_of None
                (Examples.always (FetchReject Examples.network_error)) in
  let w0 := Examples.start (Examples.tracking_page "AA-2024-0047") in
  Tracker.lookup_url bare "AA-2024-0047" "" = "?orderId=AA-2024-0047"
  /\ Tracker.fetchOrderStatus bare "AA-2024-0047" "" w0
     = (Throw Examples.network_error,
        mkWorld 3
          [ EvFetch "?orderId=AA-2024-0047" (Some 10000); EvWait 1000;
            EvFetch "?orderId=AA-2024-0047" (Some 10000); EvWait 2000;
            EvFetch "?orderId=AA-2024-0047" (Some 10000) ]
          (Examples.tracking_page "AA-2024-0047"))
  /\ Main.handleOrderSearch bare w0
     = (Ok tt,
        Spec.with_page
          (Spec.after w0 3
             [ EvFetch "?orderId=AA-2024-0047" (Some 10000); EvWait 1000;
               EvFetch "?orderId=AA-2024-0047" (Some 10000); EvWait 2000;
               EvFetch "?orderId=AA-2024-0047" (Some 10000) ])
          (Tracker.displayError bare "Failed to fetch"
             (Tracker.showLoading (Main.clearAllFormErrors (dom w0))))).
Proof.
  intros bare w0.
  destruct (unconfigured_endpoint_lookup bare "AA-2024-0047" "" w0 eq_refl eq_refl)
    as (Hurl & _ & Hfail & _ & Hshown).
  split; [exact Hurl|]. split.
  - apply Hfail. intros j Hj. reflexivity.
  - apply (Hshown w0
             (mkInput "order-id" "AA-2024-0047"
                (Some (mkFormGroup ["form-group"] None)) None None)
             eq_refl eq_refl eq_refl
             (proj1 (orderIdPattern_shape "AA-2024-0047") eq_refl)
             (ex_intro _ false
                (conj eq_refl
                   (conj (fun H : false = true => False_ind _ (Bool.diff_false_true H))
                         (fun H : "" <> "" => False_ind _ (H eq_refl)))))
             eq_refl (fun j _ => eq_refl)).
Defined.

(** The requests of a search, for any page. *)
Lemma handleOrderSearch_requests (h : host) (w : world page) :
  exists t : list event,
    trace (Main.handleOrderSearch h w).2 = trace w ++ t
    /\ calls (Main.handleOrderSearch h w).2 = (calls w + Obs.requests t)%nat
    /\ (Obs.requests t <= 3)%nat
    /\ Forall (fun ev => Spec.is_request ev = true ->
                 exists a, ev = EvFetch (Tracker.lookup_url h (Form.typed_id (dom w))
                                           (Form.typed_email (dom w))) a) t
    /\ (t <> [] ->
        Spec.order_id_shape (Form.typed_id (dom w))
        /\ tracker_loaded h = true
        /\ Form.email_passes (dom w)).
Proof.
  assert (Hquiet : forall (o : outcome unit) (p : page),
             Main.handleOrderSearch h w = (o, Spec.with_page w p) ->
             exists t : list event,
               trace (Main.handleOrderSearch h w).2 = trace w ++ t
               /\ calls (Main.handleOrderSearch h w).2 = (calls w + Obs.requests t)%nat
               /\ (Obs.requests t <= 3)%nat
               /\ Forall (fun ev => Spec.is_request ev = true ->
                            exists a, ev = EvFetch (Tracker.lookup_url h (Form.typed_id (dom w))
                                                      (Form.typed_email (dom w))) a) t
               /\ (t <> [] ->
                   Spec.order_id_shape (Form.typed_id (dom w))
                   /\ tracker_loaded h = true
                   /\ Form.email_passes (dom w))).
  { intros o p ->. exists []. simpl. rewrite app_nil_r, Nat.add_0_r.
    split; [done|]. split; [done|]. split; [apply Nat.le_0_l|]. split; [constructor|done]. }
  destruct (order_id_input (dom w)) as [input|] eqn:Hinput.
  2:{ apply (Hquiet (Ok tt) (dom w)). unfold Main.handleOrderSearch, bind, get_page.
      rewrite Hinput. by destruct w. }
  pose proof (handleOrderSearch_checks h w input Hinput) as Hchecks. simpl in Hchecks.
  destruct (JS.truthy (Form.typed_id (dom w))) eqn:Hid; simpl in Hchecks;
    [|by eapply Hquiet].
  destruct (JS.test Main.orderIdPattern (Form.typed_id (dom w))) eqn:Hshape;
    simpl in Hchecks; [|by eapply Hquiet].
  destruct (Form.email_visible (dom w)) as [visible|] eqn:Hvisible; [|by eapply Hquiet].
  destruct (visible && negb (JS.truthy (Form.typed_email (dom w)))) eqn:Hgiven;
    [by eapply Hquiet|].
  destruct (JS.truthy (Form.typed_email (dom w))
            && negb (JS.test Main.emailRegex (Form.typed_email (dom w)))) eqn:Hformed;
    [by eapply Hquiet|].
  destruct (tracker_loaded h) eqn:Hloaded; simpl in Hchecks; [|by eapply Hquiet].
  destruct (search_run h (Form.typed_id (dom w)) (Form.typed_email (dom w)) w)
    as (t & q & Hrun & Hreq & _ & Hurls).
  rewrite Hchecks, Hrun. exists t. simpl.
  split; [done|]. split; [done|]. split; [done|]. split; [done|]. intros _.
  split; [by apply orderIdPattern_shape|]. split; [done|].
  exists visible. split; [done|]. split.
  - intros -> Hempty. rewrite Hempty in Hgiven. discriminate Hgiven.
  - intros Hfull. apply truthy_true in Hfull. rewrite Hfull in Hformed.
    by destruct (JS.test Main.emailRegex (Form.typed_email (dom w))).
Qed.

(** X17. A search sends requests only for a validated form: whatever
    the page, the requests of [handleOrderSearch] are at most three,
    all for the lookup URL of the typed identifier and email; and when
    there is any, the identifier has the required shape, the tracker
    module is loaded, and the email is given where its field shows and
    well formed where given. *)
Theorem search_requests_are_validated (h : host) (w : world page) :
  exists t : list event,
    trace (Main.handleOrderSearch h w).2 = trace w ++ t
    /\ calls (Main.handleOrderSearch h w).2 = (calls w + Obs.requests t)%nat
    /\ (Obs.requests t <= 3)%nat
    /\ Forall (fun ev => Spec.is_request ev = true ->
                 exists a, ev = EvFetch (Tracker.lookup_url h (Form.typed_id (dom w))
                                           (Form.typed_email (dom w))) a) t
    /\ (t <> [] ->
        Spec.order_id_shape (Form.typed_id (dom w))
        /\ tracker_loaded h = true
        /\ Form.email_passes (dom w)).
Proof. exact (handleOrderSearch_requests h w). Qed.

(** X18. With a well-formed identifier the handler still refuses to
    search, without any request: when the email field shows and is
    empty, when an email is typed and ill formed, and when the tracker
    module is missing; each time the message is attached to the input
    concerned.  When the email input sits in no form group the handler
    throws a [TypeError] right after clearing the errors. *)
Theorem search_form_refusals (h : host) (w : world page) (input : input) :
  order_id_input (dom w) = Some input ->
  Spec.order_id_shape (Form.typed_id (dom w)) ->
  let p := Main.clearAllFormErrors (dom w) in
  let email := Form.typed_email (dom w) in
  let refuse message i := (Ok tt, Spec.with_page w (Main.showFormError message i p)) in
  (Form.email_visible (dom w) = Some true -> email = "" ->
   Main.handleOrderSearch h w = refuse "Please enter your email address." Dom.OrderEmail)
  /\ (Form.email_visible (dom w) <> None -> email <> "" ->
      JS.test Main.emailRegex email = false ->
      Main.handleOrderSearch h w = refuse "Please enter a valid email address." Dom.OrderEmail)
  /\ (Form.email_passes (dom w) -> tracker_loaded h = false ->
      Main.handleOrderSearch h w
        = refuse "Order tracking is currently unavailable. Please try again later."
            Dom.OrderId)
  /\ (Form.email_visible (dom w) = None ->
      Main.handleOrderSearch h w
        = (Throw (JS.TypeError_null "classList"), Spec.with_page w p)).
Proof.
  intros Hinput Hshape p email refuse. subst p email refuse.
  pose proof (handleOrderSearch_checks h w input Hinput) as Hchecks. simpl in Hchecks.
  assert (Hid : JS.truthy (Form.typed_id (dom w)) = true).
  { apply truthy_true. intros Hempty. rewrite Hempty in Hshape. inversion Hshape. }
  apply orderIdPattern_shape in Hshape. rewrite Hid, Hshape in Hchecks. simpl in Hchecks.
  split; [|split; [|split]].
  - intros Hvisible Hempty. rewrite Hchecks, Hvisible, Hempty. done.
  - intros Hvisible Hfull Hformed. rewrite Hchecks.
    destruct (Form.email_visible (dom w)) as [visible|]; [|done].
    apply truthy_true in Hfull. rewrite Hfull, Hformed, andb_false_r. done.
  - intros (visible & Hvisible & Hgiven & Hformed) Hloaded.
    rewrite Hchecks, Hvisible, Hloaded.
    destruct (JS.truthy (Form.typed_email (dom w))) eqn:Htruthy.
    + rewrite (Hformed (proj1 (truthy_true _) Htruthy)), andb_false_r. done.
    + destruct visible; [|done].
      apply truthy_false in Htruthy. by destruct (Hgiven eq_refl).
  - intros Hvisible. by rewrite Hchecks, Hvisible.
Qed.

(** X19. For a validated form the handler shows the loading view over
    the page with its form errors cleared and runs the lookup for the
    typed identifier and email; once the lookup has ended it acts on
    the page as it then is: a found order is displayed on it, a failure
    puts the error view with its message on it, and the handler never
    rejects.  The lookup leaves the page alone, so in a run of its own
    the handler resumes on the loading view.  The order view leaves the
    timeline container as it finds it: hidden by an error shown
    meanwhile, it stays hidden. *)
Theorem search_settles (h : host) (w : world page) (input : input) :
  order_id_input (dom w) = Some input ->
  Spec.order_id_shape (Form.typed_id (dom w)) ->
  Form.email_passes (dom w) ->
  tracker_loaded h = true ->
  let loading := Tracker.showLoading (Main.clearAllFormErrors (dom w)) in
  let lookup := Tracker.fetchOrderStatus h (Form.typed_id (dom w)) (Form.typed_email (dom w))
                  (Spec.with_page w loading) in
  Main.handleOrderSearch h w = Form.resume h lookup.1 lookup.2
  /\ dom lookup.2 = loading
  /\ (forall (w' : world page) (data : envelope) (o : envelope_order),
        order data = Some o ->
        Form.resume h (Ok data) w'
        = (Ok tt, Spec.with_page w' (Tracker.display_order h o (dom w'))))
  /\ (forall (w' : world page) (e : JS.error),
        Form.resume h (Throw e) w'
        = (Ok tt,
           Spec.with_page w'
             (Tracker.displayError h
                (JS.or_default (Some (JS.err_message e))
                   "Unable to find order. Please check your order number and email address.")
                (dom w'))))
  /\ (forall (w' : world page) (data : envelope),
        order data = None ->
        exists message : string,
          Form.resume h (Ok data) w'
          = (Ok tt, Spec.with_page w' (Tracker.displayError h message (dom w'))))
  /\ (forall (o : envelope_order) (q : page),
        status_timeline (Tracker.display_order h o q) = status_timeline q).
Proof.
  intros Hinput Hshape Hpasses Hloaded loading lookup.
  split; [|split; [|split; [|split; [|split]]]].
  - rewrite (handleOrderSearch_validated h w input Hinput Hshape Hpasses Hloaded).
    by rewrite search_on_page.
  - subst lookup.
    destruct (fetchOrderStatus_contract h (Form.typed_id (dom w)) (Form.typed_email (dom w))
                (Spec.with_page w loading)) as (o & t & -> & _).
    reflexivity.
  - intros w' data o. apply resume_found.
  - intros w' e. apply resume_failed.
  - intros w' data. apply resume_no_order.
  - intros o q. rewrite display_order_fields. by destruct q.
Qed.

Lemma search_form_refusals_witness :
  let w := Examples.start (Samples.page_with_email "AA-2024-0047" "") in
  Main.handleOrderSearch (Samples.served (Examples.found Examples.printing_order)) w
  = (Ok tt,
     Spec.with_page w
       (Main.showFormError "Please enter your email address." Dom.OrderEmail
          (Main.clearAllFormErrors (dom w)))).
Proof.
  intros w.
  apply (proj1 (search_form_refusals
                  (Samples.served (Examples.found Examples.printing_order)) w
                  (mkInput "order-id" "AA-2024-0047"
                     (Some (mkFormGroup ["form-group"] None)) None None)
                  eq_refl
                  (proj1 (orderIdPattern_shape "AA-2024-0047") eq_refl))).
  - reflexivity.
  - reflexivity.
Defined.

Lemma search_settles_witness :
  let served := Samples.served (Examples.found Examples.printing_order) in
  let w := Examples.start (Examples.tracking_page "AA-2024-0047") in
  let loading := Tracker.showLoading (Main.clearAllFormErrors (dom w)) in
  let lookup := Tracker.fetchOrderStatus served (Form.typed_id (dom w))
                  (Form.typed_email (dom w)) (Spec.with_page w loading) in
  Main.handleOrderSearch served w = Form.resume served lookup.1 lookup.2
  /\ dom lookup.2 = loading.
Proof.
  intros served w loading lookup.
  destruct (search_settles served w
              (mkInput "order-id" "AA-2024-0047"
                 (Some (mkFormGroup ["form-group"] None)) None None)
              eq_refl
              (proj1 (orderIdPattern_shape "AA-2024-0047") eq_refl)
              (ex_intro _ false
                 (conj eq_refl
                    (conj (fun H : false = true => False_ind _ (Bool.diff_false_true H))
                          (fun H : "" <> "" => False_ind _ (H eq_refl)))))
              eq_refl) as (Hrun & Hpage & _).
  split; [exact Hrun | exact Hpage].
Defined.

Section DeepLinkFacts.
Context (h : host) (id_value email_value : string -> string) (form_present : bool).

(** The dispatcher never sees a rejection, and leaves the world the
    handler leaves. *)
Lemma dispatch_submit_run (w : world page) :
  DeepLink.dispatch_submit h form_present w
  = (Ok tt, if form_present then (Main.handleOrderSearch h w).2 else w).
Proof.
  unfold DeepLink.dispatch_submit. destruct form_present; [|done].
  unfold try_catch. by destruct (Main.handleOrderSearch h w) as [[[]|e] w'].
Qed.

Lemma prefill_typed_id orderParam emailParam (p : page) (input : input) :
  order_id_input p = Some input ->
  Form.typed_id (DeepLink.prefill id_value email_value orderParam emailParam p)
  = JS.trim (id_value (default "" orderParam)).
Proof.
  intros Hinput. unfold DeepLink.prefill, DeepLink.set_value, Form.typed_id.
  cbn [Dom.get_input]. rewrite Hinput.
  destruct (JS.truthy_opt emailParam); [|done].
  cbn [Dom.set_input order_email_input]. by destruct (order_email_input p).
Qed.

Lemma prefill_keeps_email orderParam emailParam (p : page) :
  JS.truthy_opt emailParam = false ->
  order_email_input (DeepLink.prefill id_value email_value orderParam emailParam p)
  = order_email_input p.
Proof.
  intros Hemail. unfold DeepLink.prefill. rewrite Hemail.
  unfold DeepLink.set_value. cbn [Dom.get_input].
  by destruct (order_id_input p).
Qed.

End DeepLinkFacts.

(** X20. The deep link does nothing at all, whatever the email
    parameter, unless the [order] parameter is present and not empty and
    the hash is exactly [#track]. *)
Theorem deep_link_needs_order_and_hash (h : host) (id_value email_value : string -> string)
    (form_present : bool) (orderParam emailParam : option string) (hash : string)
    (w : world page) :
  JS.truthy_opt orderParam = false \/ hash <> "#track" ->
  DeepLink.checkOrderParam h id_value email_value form_present orderParam emailParam hash w
  = (Ok tt, w).
Proof.
  intros Hskip. unfold DeepLink.checkOrderParam.
  destruct Hskip as [->|Hhash]; [done|].
  apply String.eqb_neq in Hhash. rewrite Hhash. by rewrite andb_false_r.
Qed.

Lemma deep_link_needs_order_and_hash_witness :
  DeepLink.checkOrderParam (Samples.served (Examples.found Examples.printing_order))
    id id true (Some "AA-2024-0047") None "#track?order=AA-2024-0047"
    (Examples.start (Examples.tracking_page ""))
  = (Ok tt, Examples.start (Examples.tracking_page "")).
Proof.
  apply deep_link_needs_order_and_hash. right. discriminate.
Defined.

(** X21. A deep link with an order parameter and the hash [#track]
    fills the form in, waits 100 ms and submits it as a user would: the
    call itself never throws, every request after the wait is for the
    lookup URL of the filled-in form, there are at most three, and there
    is none unless the form exists, the identifier read back from the
    input has the required shape, the tracker is loaded and the email
    passes.  The identifier searched for is the trimmed value the input
    reads back, and without an email parameter the email input is left
    as it was. *)
Theorem deep_link_submits_the_form (h : host) (id_value email_value : string -> string)
    (form_present : bool) (orderParam emailParam : option string) (w : world page) :
  JS.truthy_opt orderParam = true ->
  let run := DeepLink.checkOrderParam h id_value email_value form_present
               orderParam emailParam "#track" w in
  let p := DeepLink.prefill id_value email_value orderParam emailParam (dom w) in
  run.1 = Ok tt
  /\ (exists t : list event,
        trace run.2 = trace w ++ EvWait 100 :: t
        /\ (Obs.requests t <= 3)%nat
        /\ Forall (fun ev => Spec.is_request ev = true ->
                     exists a, ev = EvFetch (Tracker.lookup_url h (Form.typed_id p)
                                               (Form.typed_email p)) a) t
        /\ (t <> [] ->
            form_present = true
            /\ Spec.order_id_shape (Form.typed_id p)
            /\ tracker_loaded h = true
            /\ Form.email_passes p))
  /\ (forall input, order_id_input (dom w) = Some input ->
        Form.typed_id p = JS.trim (id_value (default "" orderParam)))
  /\ (JS.truthy_opt emailParam = false -> order_email_input p = order_email_input (dom w)).
Proof.
  intros Horder run p. subst run.
  unfold DeepLink.checkOrderParam. rewrite Horder. cbn [andb String.eqb Ascii.eqb Bool.eqb].
  unfold bind, update, sleep, log. cbn [calls trace dom]. fold p.
  rewrite dispatch_submit_run. cbn [fst snd].
  split; [done|]. split; [|split].
  - destruct form_present.
    + destruct (handleOrderSearch_requests h
                  {| calls := calls w; trace := trace w ++ [EvWait 100]; dom := p |})
        as (t & Htrace & _ & Hreq & Hurls & Hsent).
      cbn [calls trace dom] in Htrace, Hurls, Hsent.
      exists t. rewrite Htrace, <- app_assoc. split; [done|]. split; [done|].
      split; [done|]. intros Ht. by split; [|apply Hsent].
    + exists []. cbn [trace]. split; [done|]. split; [apply Nat.le_0_l|].
      split; [constructor|done].
  - intros input Hinput. by apply (prefill_typed_id _ _ _ _ _ input).
  - intros Hemail. by apply prefill_keeps_email.
Qed.

Lemma deep_link_submits_the_form_witness :
  (DeepLink.checkOrderParam (Samples.served (Examples.found Examples.printing_order))
     id id true (Some "AA-2024-0047") None "#track"
     (Examples.start (Examples.tracking_page ""))).1
  = Ok tt.
Proof.
  exact (proj1 (deep_link_submits_the_form
                  (Samples.served (Examples.found Examples.printing_order))
                  id id true (Some "AA-2024-0047") None
                  (Examples.start (Examples.tracking_page "")) eq_refl)).
Defined.

Section LangFacts.
Implicit Types (r : JS.regex) (u v : list ascii) (c : ascii).

Lemma matches_Never u : ~ Lang.matches JS.Never u.
Proof. inversion 1. Qed.

Lemma matches_Empty u : Lang.matches JS.Empty u <-> u = [].
Proof. split; [by inversion 1 | intros ->; constructor]. Qed.

Lemma matches_Seq r1 r2 u :
  Lang.matches (JS.Seq r1 r2) u
  <-> exists u1 u2, u = u1 ++ u2 /\ Lang.matches r1 u1 /\ Lang.matches r2 u2.
Proof.
  split.
  - inversion 1; subst. by eexists _, _.
  - intros (u1 & u2 & -> & H1 & H2). by constructor.
Qed.

Lemma matches_Alt r1 r2 u :
  Lang.matches (JS.Alt r1 r2) u <-> Lang.matches r1 u \/ Lang.matches r2 u.
Proof.
  split.
  - inversion 1; subst; [by left | by right].
  - intros [H|H]; [by apply Lang.MAltL | by apply Lang.MAltR].
Qed.

Lemma matches_seq_ r1 r2 u :
  Lang.matches (JS.seq_ r1 r2) u <-> Lang.matches (JS.Seq r1 r2) u.
Proof.
  rewrite matches_Seq.
  assert (Hnever1 : forall r, Lang.matches JS.Never u
            <-> exists u1 u2, u = u1 ++ u2 /\ Lang.matches JS.Never u1 /\ Lang.matches r u2).
  { intros r. split; [by intros ?%matches_Never|].
    by intros (? & ? & _ & ?%matches_Never & _). }
  assert (Hnever2 : forall r, Lang.matches JS.Never u
            <-> exists u1 u2, u = u1 ++ u2 /\ Lang.matches r u1 /\ Lang.matches JS.Never u2).
  { intros r. split; [by intros ?%matches_Never|].
    by intros (? & ? & _ & _ & ?%matches_Never). }
  assert (Hempty : forall r, Lang.matches r u
            <-> exists u1 u2, u = u1 ++ u2 /\ Lang.matches JS.Empty u1 /\ Lang.matches r u2).
  { intros r. split.
    - intros H. exists [], u. split; [done|]. split; [constructor|done].
    - intros (u1 & u2 & -> & ->%matches_Empty & H). done. }
  destruct r1, r2; simpl; try apply Hnever1; try apply Hnever2; try apply Hempty;
    by rewrite <- matches_Seq.
Qed.

Lemma matches_alt_ r1 r2 u :
  Lang.matches (JS.alt_ r1 r2) u <-> Lang.matches (JS.Alt r1 r2) u.
Proof.
  rewrite matches_Alt.
  destruct r1, r2; simpl; rewrite ?matches_Alt;
    split; intros H; try tauto;
    repeat match goal with
           | H : _ \/ _ |- _ => destruct H
           | H : Lang.matches JS.Never _ |- _ => by apply matches_Never in H
           end; tauto.
Qed.

Lemma nullable_matches r : JS.nullable r = true <-> Lang.matches r [].
Proof.
  induction r as [| |ranges|r1 IH1 r2 IH2|r1 IH1 r2 IH2|r IH]; simpl.
  - split; [done | by intros ?%matches_Never].
  - split; [constructor | done].
  - split; [done | inversion 1].
  - rewrite andb_true_iff, IH1, IH2, matches_Seq. split.
    + intros [H1 H2]. by exists [], [].
    + intros (u1 & u2 & Hnil & H1 & H2). symmetry in Hnil.
      apply app_eq_nil in Hnil as [-> ->]. done.
  - rewrite orb_true_iff, IH1, IH2, matches_Alt. done.
  - split; [constructor | done].
Qed.

(** Reading the first character of a word of [r*]. *)
Lemma matches_Star_inv r' w :
  Lang.matches r' w -> forall r c u, r' = JS.Star r -> w = c :: u ->
  exists u1 u2, u = u1 ++ u2 /\ Lang.matches r (c :: u1) /\ Lang.matches (JS.Star r) u2.
Proof.
  induction 1 as [| | | | | |r0 u1 u2 H1 _ H2 IH2]; intros rr cc uu Hr Hw;
    try discriminate.
  injection Hr as ->. destruct u1 as [|c1 u1]; simpl in Hw.
  - by apply IH2.
  - injection Hw as -> <-. by exists u1, u2.
Qed.

Lemma matches_Star_cons r c u :
  Lang.matches (JS.Star r) (c :: u)
  <-> exists u1 u2, u = u1 ++ u2 /\ Lang.matches r (c :: u1) /\ Lang.matches (JS.Star r) u2.
Proof.
  split.
  - intros H. by eapply matches_Star_inv.
  - intros (u1 & u2 & -> & H1 & H2). by apply (Lang.MStarCons r (c :: u1) u2).
Qed.

Lemma deriv_matches r : forall c u,
  Lang.matches (JS.deriv c r) u <-> Lang.matches r (c :: u).
Proof.
  induction r as [| |ranges|r1 IH1 r2 IH2|r1 IH1 r2 IH2|r IH]; intros c u; simpl.
  - split; intros H; by apply matches_Never in H.
  - split; [by intros ?%matches_Never | inversion 1].
  - destruct (JS.in_ranges c ranges) eqn:Hc.
    + rewrite matches_Empty. split; [intros ->; by constructor | by inversion 1].
    + split; [by intros ?%matches_Never|]. inversion 1; congruence.
  - rewrite matches_alt_, matches_Alt, matches_seq_, !matches_Seq. split.
    + intros [(u1 & u2 & -> & H1 & H2)|H].
      * apply IH1 in H1. by exists (c :: u1), u2.
      * destruct (JS.nullable r1) eqn:Hnull; [|by apply matches_Never in H].
        apply nullable_matches in Hnull. apply IH2 in H. by exists [], (c :: u).
    + intros ([|c1 u1] & u2 & Hsplit & H1 & H2); simpl in Hsplit.
      * subst u2. right. apply nullable_matches in H1. rewrite H1. by apply IH2.
      * injection Hsplit as <- ->. left. exists u1, u2. by rewrite IH1.
  - rewrite matches_alt_, !matches_Alt, IH1, IH2. done.
  - rewrite matches_seq_, matches_Seq, matches_Star_cons.
    split; intros (u1 & u2 & -> & H1 & H2); exists u1, u2; by rewrite ?IH in *.
Qed.

(** The matcher accepts the words of the expression. *)
Lemma test_matches r : forall s,
  JS.test r s = true <-> Lang.matches r (list_ascii_of_string s).
Proof.
  intros s. revert r. induction s as [|c s IH]; intros r; simpl.
  - apply nullable_matches.
  - by rewrite IH, deriv_matches.
Qed.

End LangFacts.

Section EmailFacts.
Implicit Types (r : JS.regex) (u v : list ascii) (c : ascii) (s : string).

Lemma matches_Class ranges u :
  Lang.matches (JS.Class ranges) u <-> exists c, u = [c] /\ JS.in_ranges c ranges = true.
Proof.
  split.
  - inversion 1; subst. by eexists.
  - intros (c & -> & Hc). by constructor.
Qed.

Lemma matches_Star_Class_inv r' u :
  Lang.matches r' u -> forall ranges, r' = JS.Star (JS.Class ranges) ->
  Forall (fun c => JS.in_ranges c ranges = true) u.
Proof.
  induction 1 as [| | | | | |r0 u1 u2 H1 _ H2 IH2]; intros rs Hr; try discriminate.
  - constructor.
  - injection Hr as ->. apply matches_Class in H1 as (c & -> & Hc).
    constructor; [done | by apply IH2].
Qed.

(** The words of [[...]*] are the words over the class. *)
Lemma matches_Star_Class ranges u :
  Lang.matches (JS.Star (JS.Class ranges)) u
  <-> Forall (fun c => JS.in_ranges c ranges = true) u.
Proof.
  split.
  - intros H. by eapply matches_Star_Class_inv.
  - induction 1 as [|c u Hc _ IH]; [constructor|].
    apply (Lang.MStarCons _ [c] u); [by constructor | done].
Qed.

(** The words of [[...]+] *)
Lemma matches_plus_Class ranges u :
  Lang.matches (JS.plus (JS.Class ranges)) u
  <-> u <> [] /\ Forall (fun c => JS.in_ranges c ranges = true) u.
Proof.
  unfold JS.plus. rewrite matches_Seq. split.
  - intros (u1 & u2 & -> & (c & -> & Hc)%matches_Class & H2%matches_Star_Class).
    split; [done | by constructor].
  - intros [Hne Hall]. destruct Hall as [|c u Hc Hall]; [done|].
    exists [c], u. split; [done|]. split; [by constructor | by apply matches_Star_Class].
Qed.

(** The words of [[...]{2,}] *)
Lemma matches_at_least_2 ranges u :
  Lang.matches (JS.at_least 2 (JS.Class ranges)) u
  <-> (2 <= length u)%nat /\ Forall (fun c => JS.in_ranges c ranges = true) u.
Proof.
  change (JS.at_least 2 (JS.Class ranges))
    with (JS.Seq (JS.Seq (JS.Class ranges) (JS.Seq (JS.Class ranges) JS.Empty))
            (JS.Star (JS.Class ranges))).
  rewrite matches_Seq. split.
  - intros (u1 & u2 & -> & H1 & H2%matches_Star_Class).
    apply matches_Seq in H1 as (a & u3 & -> & (c1 & -> & Hc1)%matches_Class & H1).
    apply matches_Seq in H1 as (b & u4 & -> & (c2 & -> & Hc2)%matches_Class & ->%matches_Empty).
    simpl. split; [lia|]. by repeat constructor.
  - intros [Hlen Hall]. destruct Hall as [|c1 u Hc1 Hall]; [simpl in Hlen; lia|].
    destruct Hall as [|c2 u Hc2 Hall]; [simpl in Hlen; lia|].
    exists [c1; c2], u. split; [done|]. split; [|by apply matches_Star_Class].
    apply (Lang.MSeq _ _ [c1] [c2]); [by constructor|].
    apply (Lang.MSeq _ _ [c2] []); [by constructor | constructor].
Qed.

Lemma ascii_code c d : c = d <-> nat_of_ascii c = nat_of_ascii d.
Proof.
  split; [by intros ->|]. intros H.
  by rewrite <- (ascii_nat_embedding c), H, ascii_nat_embedding.
Qed.

Local Ltac codes :=
  unfold JS.in_ranges, JS.code_in; cbn [existsb];
  rewrite ?orb_true_iff, ?andb_true_iff, ?Nat.leb_le;
  unfold Lang.local_char, Lang.domain_char, Lang.alphanumeric, Lang.letter;
  rewrite ?elem_of_cons, ?elem_of_nil, ?ascii_code;
  repeat match goal with
         | |- context [nat_of_ascii (Ascii ?a ?b ?c ?d ?e ?f ?g ?h)] =>
             let n := eval vm_compute in (nat_of_ascii (Ascii a b c d e f g h)) in
             change (nat_of_ascii (Ascii a b c d e f g h)) with n
         end;
  lia.

Lemma in_ranges_local c :
  JS.in_ranges c [("a", "z"); ("A", "Z"); ("0", "9"); (".", "."); ("_", "_");
                  ("%", "%"); ("+", "+"); ("-", "-")]%char = true
  <-> Lang.local_char c.
Proof. codes. Qed.

Lemma in_ranges_domain c :
  JS.in_ranges c [("a", "z"); ("A", "Z"); ("0", "9"); (".", "."); ("-", "-")]%char = true
  <-> Lang.domain_char c.
Proof. codes. Qed.

Lemma in_ranges_letter c :
  JS.in_ranges c [("a", "z"); ("A", "Z")]%char = true <-> Lang.letter c.
Proof. codes. Qed.

Lemma in_ranges_char c d : JS.in_ranges c [(d, d)] = true <-> c = d.
Proof.
  unfold JS.in_ranges, JS.code_in. cbn [existsb].
  rewrite orb_false_r, andb_true_iff, !Nat.leb_le, ascii_code. lia.
Qed.

Lemma string_of_list_ascii_app u v :
  string_of_list_ascii (u ++ v) = string_of_list_ascii u +:+ string_of_list_ascii v.
Proof. induction u as [|c u IH]; [done|]. simpl. by rewrite IH. Qed.

Lemma length_list_ascii s : length (list_ascii_of_string s) = String.length s.
Proof. induction s as [|c s IH]; [done|]. simpl. by rewrite IH. Qed.

Lemma list_ascii_nil s : list_ascii_of_string s = [] <-> s = "".
Proof. by destruct s. Qed.

End EmailFacts.

(** The words of the email pattern. *)
Lemma emailRegex_shape (s : string) :
  JS.test Main.emailRegex s = true <-> Lang.email_shape s.
Proof.
  rewrite test_matches. unfold Main.emailRegex. cbn [JS.sequence foldr].
  unfold Lang.email_shape. split.
  - intros (l & u1 & Hs & [Hl Hlocal]%matches_plus_Class & H)%matches_Seq.
    apply matches_Seq in H as (a & u2 & -> & (c1 & -> & ->%in_ranges_char)%matches_Class & H).
    apply matches_Seq in H as (d & u3 & -> & [Hd Hdomain]%matches_plus_Class & H).
    apply matches_Seq in H as (b & u4 & -> & (c2 & -> & ->%in_ranges_char)%matches_Class & H).
    apply matches_Seq in H as (t & e & -> & [Ht Htld]%matches_at_least_2 & ->%matches_Empty).
    rewrite app_nil_r in Hs.
    exists (string_of_list_ascii l), (string_of_list_ascii d), (string_of_list_ascii t).
    rewrite !list_ascii_of_string_of_list_ascii.
    split; [|split; [|split; [|split; [|split; [|split]]]]].
    + rewrite <- (string_of_list_ascii_of_string s), Hs.
      by rewrite !string_of_list_ascii_app.
    + intros H%(f_equal list_ascii_of_string).
      by rewrite list_ascii_of_string_of_list_ascii in H.
    + eapply Forall_impl; [exact Hlocal|]. intros c. apply in_ranges_local.
    + intros H%(f_equal list_ascii_of_string).
      by rewrite list_ascii_of_string_of_list_ascii in H.
    + eapply Forall_impl; [exact Hdomain|]. intros c. apply in_ranges_domain.
    + by rewrite <- length_list_ascii, list_ascii_of_string_of_list_ascii.
    + eapply Forall_impl; [exact Htld|]. intros c. apply in_ranges_letter.
  - intros (l & d & t & -> & Hl & Hlocal & Hd & Hdomain & Ht & Htld).
    rewrite !list_ascii_of_append.
    apply Lang.MSeq.
    { apply matches_plus_Class. split; [by rewrite list_ascii_nil|].
      eapply Forall_impl; [exact Hlocal|]. intros c. apply in_ranges_local. }
    apply (Lang.MSeq _ _ ["@"%char]); [constructor; by apply in_ranges_char|].
    apply Lang.MSeq.
    { apply matches_plus_Class. split; [by rewrite list_ascii_nil|].
      eapply Forall_impl; [exact Hdomain|]. intros c. apply in_ranges_domain. }
    apply (Lang.MSeq _ _ ["."%char]); [constructor; by apply in_ranges_char|].
    rewrite <- (app_nil_r (list_ascii_of_string t)).
    apply Lang.MSeq; [|constructor].
    apply matches_at_least_2. split; [by rewrite length_list_ascii|].
    eapply Forall_impl; [exact Htld|]. intros c. apply in_ranges_letter.
Qed.

(** X22. The email check accepts exactly the strings of the form
    [local@domain.tld]: a non-empty local part of letters, digits and
    [. _ % + -], a non-empty domain of letters, digits, dots and
    hyphens, and a last label of at least two letters. *)
Theorem email_validation (s : string) :
  JS.test Main.emailRegex s = true <-> Lang.email_shape s.
Proof. exact (emailRegex_shape s). Qed.


Section ThemeFacts.
Implicit Types (st : Theme.state) (e : option Theme.pointer).

Lemma setTheme_theme theme st :
  Theme.data_theme (Theme.setTheme theme st) = Some theme
  /\ Theme.stored (Theme.setTheme theme st) = Some theme.
Proof. done. Qed.

Lemma toggle_prelude_theme e st :
  Theme.data_theme (Theme.set_origin e (Theme.pulse (Theme.add_body_class "theme-transitioning" st)))
  = Theme.data_theme st.
Proof.
  unfold Theme.pulse. cbn [Theme.themeToggle Theme.add_body_class].
  destruct e as [[[x|] [y|]]|], (Theme.themeToggle st); done.
Qed.

Lemma toggleTheme_theme e st :
  let next := if String.eqb (JS.or_default (Theme.data_theme st) "light") "dark"
              then "light" else "dark" in
  Theme.data_theme (Theme.toggleTheme e st) = Some next
  /\ Theme.stored (Theme.toggleTheme e st) = Some next.
Proof.
  intros next. unfold Theme.toggleTheme. cbv zeta. rewrite toggle_prelude_theme.
  done.
Qed.

Lemma toggleTheme_label e st (b : Theme.button) :
  Theme.themeToggle (Theme.toggleTheme e st) = Some b ->
  Theme.aria_label b
  = Some (if bool_decide (Theme.data_theme (Theme.toggleTheme e st) = Some "dark")
          then "Switch to light mode" else "Switch to dark mode").
Proof.
  destruct (toggleTheme_theme e st) as [-> _]. cbv zeta.
  unfold Theme.toggleTheme. cbv zeta. rewrite toggle_prelude_theme.
  cbn [Theme.set_timeout Theme.themeToggle Theme.setTheme].
  destruct (Theme.themeToggle _) as [b0|]; [|done]. intros [= <-].
  cbn [Theme.aria_label].
  by destruct (String.eqb (JS.or_default (Theme.data_theme st) "light") "dark").
Qed.

End ThemeFacts.

(** X23. A click on the theme toggle always leaves the theme [light] or
    [dark], stored under the same name: [light] when the theme was
    [dark], and [dark] in every other case (no theme yet, or any other
    name).  Two clicks give back a theme that was [light] or [dark].
    The label of the button always names the other theme. *)
Theorem toggleTheme_alternates (e e' : option Theme.pointer) (st : Theme.state) :
  let st1 := Theme.toggleTheme e st in
  Theme.stored st1 = Theme.data_theme st1
  /\ (Theme.data_theme st = Some "dark" -> Theme.data_theme st1 = Some "light")
  /\ (Theme.data_theme st <> Some "dark" -> Theme.data_theme st1 = Some "dark")
  /\ (Theme.data_theme st = Some "dark" \/ Theme.data_theme st = Some "light" ->
      Theme.data_theme (Theme.toggleTheme e' st1) = Theme.data_theme st)
  /\ (forall b, Theme.themeToggle st1 = Some b ->
        Theme.aria_label b
        = Some (if bool_decide (Theme.data_theme st1 = Some "dark")
                then "Switch to light mode" else "Switch to dark mode")).
Proof.
  intros st1. subst st1.
  destruct (toggleTheme_theme e st) as [Htheme Hstored].
  destruct (toggleTheme_theme e' (Theme.toggleTheme e st)) as [Htheme' _].
  cbv zeta in *.
  split; [by rewrite Hstored, Htheme|].
  split; [intros Hdark; by rewrite Htheme, Hdark|].
  split; [|split; [|apply toggleTheme_label]].
  - intros Hother. rewrite Htheme. destruct (Theme.data_theme st) as [t|]; [|done].
    unfold JS.or_default. destruct (JS.truthy t) eqn:Ht; [|done].
    destruct (String.eqb_spec t "dark") as [->|]; done.
  - intros Hold. rewrite Htheme', Htheme. by destruct Hold as [-> | ->].
Qed.

(** X24. Initialisation takes a stored theme as it is, whatever its
    name, and otherwise the system preference; it always stores the
    theme it sets.  So, once initialised, a change of the system
    preference never changes the theme again. *)
Theorem initTheme_fixes_theme (st : Theme.state) :
  let st1 := Theme.initTheme st in
  Theme.data_theme st1 = Some (Theme.getPreferredTheme st)
  /\ Theme.stored st1 = Theme.data_theme st1
  /\ (forall t, Theme.stored st = Some t -> t <> "" -> Theme.data_theme st1 = Some t)
  /\ (JS.truthy_opt (Theme.stored st) = false ->
      Theme.data_theme st1 = Some (if Theme.prefers_dark st then "dark" else "light"))
  /\ (forall matches,
        Theme.data_theme (Theme.system_change matches st1) = Theme.data_theme st1
        /\ Theme.stored (Theme.system_change matches st1) = Theme.stored st1).
Proof.
  intros st1. subst st1. unfold Theme.initTheme.
  split; [done|]. split; [done|]. split; [|split].
  - intros t Ht Hne. cbn [Theme.setTheme Theme.data_theme].
    unfold Theme.getPreferredTheme. rewrite Ht. by destruct t.
  - intros Hstored. cbn [Theme.setTheme Theme.data_theme].
    unfold Theme.getPreferredTheme. destruct (Theme.stored st) as [t|]; [|done].
    simpl in Hstored. by rewrite Hstored.
  - intros matches. unfold Theme.system_change.
    cbn [Theme.setTheme Theme.stored Theme.data_theme JS.truthy_opt].
    assert (Htruthy : JS.truthy (Theme.getPreferredTheme st) = true).
    { unfold Theme.getPreferredTheme. destruct (Theme.stored st) as [t|].
      - destruct (JS.truthy t) eqn:Ht; [done|]. by destruct (Theme.prefers_dark st).
      - by destruct (Theme.prefers_dark st). }
    rewrite Htruthy. done.
Qed.

Section NavFacts.
Implicit Types (st : Nav.state) (ns : list Nav.node) (n : Nav.node) (cl : JS.classList).

(** Finding an element after a change that keeps what is looked for. *)
Lemma list_find_alter {A} (P : A -> Prop) `{!forall x, Decision (P x)} (f : A -> A) :
  (forall x, P (f x) <-> P x) ->
  forall (l : list A) (i : nat),
  list_find P (alter f i l)
  = (fun '(k, x) => (k, if bool_decide (k = i) then f x else x)) <$> list_find P l.
Proof.
  intros Hf l. induction l as [|x l IH]; intros i; [done|].
  destruct i as [|i]; simpl.
  - destruct (decide (P (f x))) as [Hfx|Hfx], (decide (P x)) as [Hx|Hx].
    + done.
    + destruct Hx. by apply Hf.
    + destruct Hfx. by apply Hf.
    + destruct (list_find P l) as [[k y]|]; done.
  - destruct (decide (P x)); [done|].
    change (list_alter f i l) with (alter f i l). rewrite IH.
    destruct (list_find P l) as [[k y]|]; [|done]. simpl.
    by rewrite (bool_decide_ext (S k = S i) (k = i)) by lia.
Qed.

Lemma class_remove_other (token other : string) cl :
  token <> other -> token ∈ JS.class_remove [other] cl <-> token ∈ cl.
Proof.
  intros Hne. unfold JS.class_remove. rewrite list_elem_of_filter, list_elem_of_singleton.
  tauto.
Qed.

Lemma class_remove_self (token : string) cl : token ∉ JS.class_remove [token] cl.
Proof.
  unfold JS.class_remove. rewrite list_elem_of_filter, list_elem_of_singleton. tauto.
Qed.

Lemma class_add_other (token other : string) cl :
  token <> other -> token ∈ JS.class_add other cl <-> token ∈ cl.
Proof.
  intros Hne. unfold JS.class_add. destruct (decide (other ∈ cl)); [done|].
  rewrite elem_of_app, list_elem_of_singleton. intuition congruence.
Qed.

Lemma class_add_self (token : string) cl : token ∈ JS.class_add token cl.
Proof.
  unfold JS.class_add. destruct (decide (token ∈ cl)); [done|].
  rewrite elem_of_app, list_elem_of_singleton. by right.
Qed.

Lemma class_toggle_other (token other : string) cl :
  token <> other -> token ∈ Nav.class_toggle other cl <-> token ∈ cl.
Proof.
  intros Hne. unfold Nav.class_toggle.
  destruct (JS.class_contains other cl); [by apply class_remove_other | by apply class_add_other].
Qed.

Lemma class_toggle_self (token : string) cl :
  JS.class_contains token (Nav.class_toggle token cl) = negb (JS.class_contains token cl).
Proof.
  unfold Nav.class_toggle. destruct (JS.class_contains token cl) eqn:Hin; simpl.
  - apply bool_decide_eq_false, class_remove_self.
  - apply bool_decide_eq_true, class_add_self.
Qed.

Lemma class_force_other (token other : string) (force : bool) cl :
  token <> other -> token ∈ Nav.class_force other force cl <-> token ∈ cl.
Proof.
  intros Hne. destruct force; [by apply class_add_other | by apply class_remove_other].
Qed.

Lemma class_force_self (token : string) (force : bool) cl :
  JS.class_contains token (Nav.class_force token force cl) = force.
Proof.
  destruct force; simpl.
  - apply bool_decide_eq_true, class_add_self.
  - apply bool_decide_eq_false, class_remove_self.
Qed.

Lemma alike_refl n : Nav.alike n n.
Proof. by split; [|split]. Qed.

Lemma alike_trans n1 n2 n3 : Nav.alike n1 n2 -> Nav.alike n2 n3 -> Nav.alike n1 n3.
Proof.
  intros (Hid & Hdata & Hcl) (Hid' & Hdata' & Hcl').
  split; [congruence|]. split; [congruence|].
  intros token Hne. by rewrite Hcl', Hcl.
Qed.

Lemma alike_set_expanded (v : string) n : Nav.alike n (Nav.set_expanded v n).
Proof. by split; [|split]. Qed.

Lemma alike_set_classes (g : JS.classList -> JS.classList) n :
  (forall (token : string) cl, token <> "active" -> token ∈ g cl <-> token ∈ cl) ->
  Nav.alike n (Nav.set_classes g n).
Proof. intros Hg. split; [done|]. split; [done|]. intros token Hne. by apply Hg. Qed.

(** Looking an element up in a document whose elements are alike
    finds it at the same place. *)
Lemma find_alike (P : Nav.node -> Prop) `{!forall n, Decision (P n)} ns ns' :
  Forall2 Nav.alike ns ns' ->
  (forall n n', Nav.alike n n' -> P n <-> P n') ->
  match list_find P ns with
  | Some (i, n) => exists n', list_find P ns' = Some (i, n') /\ Nav.alike n n'
  | None => list_find P ns' = None
  end.
Proof.
  intros Hall HP. induction Hall as [|x y l k Hxy Hlk IH]; [done|]. simpl.
  destruct (decide (P x)) as [Hx|Hx], (decide (P y)) as [Hy|Hy].
  - by exists y.
  - destruct Hy. by apply (HP x y).
  - destruct Hx. by apply (HP x y).
  - destruct (list_find P l) as [[i n]|].
    + destruct IH as (n' & -> & Halike). by exists n'.
    + by rewrite IH.
Qed.

Lemma querySelector_alike (token : string) ns ns' :
  token <> "active" -> Forall2 Nav.alike ns ns' ->
  match Nav.querySelector token ns with
  | Some (i, n) => exists n', Nav.querySelector token ns' = Some (i, n') /\ Nav.alike n n'
  | None => Nav.querySelector token ns' = None
  end.
Proof.
  intros Hne Hall. apply find_alike; [done|].
  intros n n' (_ & _ & Hcl). by rewrite Hcl.
Qed.

(** What the two navigation functions do to the toggle and to the
    menu. *)
Lemma mobile_nav_step (f : Nav.node -> Nav.node) (g : JS.classList -> JS.classList)
    ns (i j : nat) (t m : Nav.node) :
  (forall n, Nav.node_classes (f n) = Nav.node_classes n) ->
  (forall (token : string) cl, token <> "active" -> token ∈ g cl <-> token ∈ cl) ->
  Nav.querySelector "nav-toggle" ns = Some (i, t) ->
  Nav.querySelector "nav-links" ns = Some (j, m) ->
  let ns' := alter (Nav.set_classes g) j (alter f i ns) in
  Nav.querySelector "nav-toggle" ns'
  = Some (i, if bool_decide (i = j) then Nav.set_classes g (f t) else f t)
  /\ Nav.querySelector "nav-links" ns'
     = Some (j, Nav.set_classes g (if bool_decide (j = i) then f m else m)).
Proof.
  intros Hf Hg Htoggle Hlinks ns'. subst ns'. unfold Nav.querySelector in *.
  rewrite !list_find_alter, Htoggle, Hlinks; simpl.
  - by rewrite !(bool_decide_eq_true_2 (i = i)), !(bool_decide_eq_true_2 (j = j)) by done.
  - intros n. by rewrite Hf.
  - intros n. by apply Hg.
  - intros n. by rewrite Hf.
  - intros n. by apply Hg.
Qed.

Lemma toggleMobileNav_flips st :
  is_Some (Nav.querySelector "nav-toggle" (Nav.nodes st)) ->
  is_Some (Nav.querySelector "nav-links" (Nav.nodes st)) ->
  is_Some (Nav.querySelector "nav-toggle" (Nav.nodes (Nav.toggleMobileNav st)))
  /\ is_Some (Nav.querySelector "nav-links" (Nav.nodes (Nav.toggleMobileNav st)))
  /\ Nav.expanded (Nav.toggleMobileNav st) = negb (Nav.expanded st)
  /\ Nav.menu_open (Nav.toggleMobileNav st) = negb (Nav.menu_open st).
Proof.
  intros [[i t] Htoggle] [[j m] Hlinks].
  unfold Nav.expanded, Nav.menu_open, Nav.toggleMobileNav. rewrite Htoggle, Hlinks.
  cbn [Nav.nodes Nav.with_nodes].
  edestruct (mobile_nav_step
               (Nav.set_expanded
                  (if negb (bool_decide (Nav.aria_expanded t = Some "true")) then "true" else "false"))
               (Nav.class_toggle "active") (Nav.nodes st) i j t m) as [-> ->]; try done.
  { intros token cl Hne. by apply class_toggle_other. }
  split; [done|]. split; [done|]. split.
  - destruct (bool_decide (i = j)); cbn [Nav.set_classes Nav.set_expanded Nav.aria_expanded];
      by destruct (bool_decide (Nav.aria_expanded t = Some "true")).
  - unfold Nav.active. cbn [Nav.set_classes Nav.node_classes].
    rewrite class_toggle_self. by destruct (bool_decide (j = i)).
Qed.

Lemma closeMobileNav_closes st :
  is_Some (Nav.querySelector "nav-toggle" (Nav.nodes st)) ->
  is_Some (Nav.querySelector "nav-links" (Nav.nodes st)) ->
  is_Some (Nav.querySelector "nav-toggle" (Nav.nodes (Nav.closeMobileNav st)))
  /\ is_Some (Nav.querySelector "nav-links" (Nav.nodes (Nav.closeMobileNav st)))
  /\ Nav.expanded (Nav.closeMobileNav st) = false
  /\ Nav.menu_open (Nav.closeMobileNav st) = false.
Proof.
  intros [[i t] Htoggle] [[j m] Hlinks].
  unfold Nav.expanded, Nav.menu_open, Nav.closeMobileNav. rewrite Htoggle, Hlinks.
  cbn [Nav.nodes Nav.with_nodes].
  edestruct (mobile_nav_step (Nav.set_expanded "false") (JS.class_remove ["active"])
               (Nav.nodes st) i j t m) as [-> ->]; try done.
  { intros token cl Hne. by apply class_remove_other. }
  split; [done|]. split; [done|]. split.
  - by destruct (bool_decide (i = j)).
  - unfold Nav.active. cbn [Nav.set_classes Nav.node_classes].
    apply bool_decide_eq_false, class_remove_self.
Qed.

End NavFacts.

(** X25. When the page has the toggle and the menu, the mobile menu
    and its toggle stay in step: closing leaves the menu closed and
    [aria-expanded] false, every click on the toggle flips both, so
    after [n] clicks the menu is open exactly when [n] is odd.  When
    either element is missing, the two functions do nothing. *)
Theorem mobile_nav_in_step (st : Nav.state) :
  (is_Some (Nav.querySelector "nav-toggle" (Nav.nodes st)) ->
   is_Some (Nav.querySelector "nav-links" (Nav.nodes st)) ->
   Nav.expanded (Nav.toggleMobileNav st) = negb (Nav.expanded st)
   /\ Nav.menu_open (Nav.toggleMobileNav st) = negb (Nav.menu_open st)
   /\ forall n : nat,
        Nav.expanded (Nat.iter n Nav.toggleMobileNav (Nav.closeMobileNav st)) = Nat.odd n
        /\ Nav.menu_open (Nat.iter n Nav.toggleMobileNav (Nav.closeMobileNav st)) = Nat.odd n)
  /\ (Nav.querySelector "nav-toggle" (Nav.nodes st) = None
      \/ Nav.querySelector "nav-links" (Nav.nodes st) = None ->
      Nav.toggleMobileNav st = st /\ Nav.closeMobileNav st = st).
Proof.
  split.
  - intros Htoggle Hlinks.
    destruct (toggleMobileNav_flips st Htoggle Hlinks) as (_ & _ & Hexp & Hopen).
    split; [done|]. split; [done|]. intros n.
    assert (Hiter : let st' := Nat.iter n Nav.toggleMobileNav (Nav.closeMobileNav st) in
              is_Some (Nav.querySelector "nav-toggle" (Nav.nodes st'))
              /\ is_Some (Nav.querySelector "nav-links" (Nav.nodes st'))
              /\ Nav.expanded st' = Nat.odd n /\ Nav.menu_open st' = Nat.odd n);
      [|by destruct Hiter as (_ & _ & ? & ?)].
    induction n as [|n IH].
    + by apply closeMobileNav_closes.
    + destruct IH as (Ht & Hl & He & Ho). cbv zeta.
      change (Nat.iter (S n) Nav.toggleMobileNav (Nav.closeMobileNav st))
        with (Nav.toggleMobileNav (Nat.iter n Nav.toggleMobileNav (Nav.closeMobileNav st))).
      destruct (toggleMobileNav_flips _ Ht Hl) as (Ht' & Hl' & He' & Ho').
      split; [done|]. split; [done|]. rewrite He', Ho', He, Ho, Nat.odd_succ.
      by rewrite Nat.negb_odd.
  - unfold Nav.toggleMobileNav, Nav.closeMobileNav. intros [-> | ->]; [done|].
    by destruct (Nav.querySelector "nav-toggle" (Nav.nodes st)) as [[]|].
Qed.

Lemma mobile_nav_in_step_witness :
  Nav.expanded (Nat.iter 3 Nav.toggleMobileNav (Nav.closeMobileNav Nav.sample)) = true
  /\ Nav.menu_open (Nat.iter 3 Nav.toggleMobileNav (Nav.closeMobileNav Nav.sample)) = true.
Proof.
  exact (proj2 (proj2 (proj1 (mobile_nav_in_step Nav.sample)
                         (ex_intro _ _ eq_refl) (ex_intro _ _ eq_refl))) 3%nat).
Defined.

Section NavigateFacts.
Implicit Types (st : Nav.state) (ns : list Nav.node) (n : Nav.node) (cl : JS.classList).

Lemma class_contains_elem (token : string) cl :
  JS.class_contains token cl = true <-> token ∈ cl.
Proof. unfold JS.class_contains. apply bool_decide_eq_true. Qed.

Lemma class_contains_not_elem (token : string) cl :
  JS.class_contains token cl = false <-> token ∉ cl.
Proof. unfold JS.class_contains. apply bool_decide_eq_false. Qed.

(** The two loops, element by element. *)
Lemma activate_lookup (sectionId : string) (target : nat) ns (i : nat) n :
  ns !! i = Some n ->
  exists a,
    Nav.activate sectionId target ns !! i = Some a
    /\ Nav.alike n a
    /\ ("nav-link" ∈ Nav.node_classes n ->
        Nav.active a = bool_decide (Nav.data_section n = Some sectionId))
    /\ ("section" ∈ Nav.node_classes n -> "nav-link" ∉ Nav.node_classes n ->
        Nav.active a = bool_decide (i = target))
    /\ ("section" ∉ Nav.node_classes n -> "nav-link" ∉ Nav.node_classes n -> a = n).
Proof.
  intros Hn. unfold Nav.activate. rewrite list_lookup_fmap, list_lookup_imap, Hn.
  cbn [fmap option_fmap option_map]. eexists. split; [reflexivity|]. cbv beta.
  destruct (JS.class_contains "section" (Nav.node_classes n)) eqn:Hsection.
  - apply class_contains_elem in Hsection.
    cbn [Nav.set_classes Nav.node_classes].
    destruct (JS.class_contains "nav-link" _) eqn:Hlink.
    + apply class_contains_elem, class_force_other in Hlink; [|done].
      split; [|split; [|split]].
      * split; [done|]. split; [done|]. intros token Hne.
        cbn [Nav.set_classes Nav.node_classes]. by rewrite !class_force_other.
      * intros _. unfold Nav.active. cbn [Nav.set_classes Nav.node_classes].
        apply class_force_self.
      * by intros _ [].
      * by intros [].
    + apply class_contains_not_elem in Hlink. rewrite class_force_other in Hlink by done.
      split; [|split; [|split]].
      * split; [done|]. split; [done|]. intros token Hne.
        cbn [Nav.set_classes Nav.node_classes]. by rewrite class_force_other.
      * by intros ?.
      * intros _ _. unfold Nav.active. cbn [Nav.set_classes Nav.node_classes].
        apply class_force_self.
      * by intros [].
  - apply class_contains_not_elem in Hsection.
    destruct (JS.class_contains "nav-link" (Nav.node_classes n)) eqn:Hlink.
    + apply class_contains_elem in Hlink. split; [|split; [|split]].
      * apply alike_set_classes. intros token cl Hne. by apply class_force_other.
      * intros _. unfold Nav.active. cbn [Nav.set_classes Nav.node_classes].
        apply class_force_self.
      * by intros ?.
      * by intros _ [].
    + apply class_contains_not_elem in Hlink. split; [apply alike_refl|].
      split; [by intros ?|]. split; [by intros ?|]. done.
Qed.

Lemma activate_alike (sectionId : string) (target : nat) ns :
  Forall2 Nav.alike ns (Nav.activate sectionId target ns).
Proof.
  apply Forall2_same_length_lookup_2.
  - unfold Nav.activate. by rewrite length_fmap, length_imap.
  - intros i n a Hn Ha.
    destruct (activate_lookup sectionId target ns i n Hn) as (a' & Ha' & Halike & _).
    congruence.
Qed.

(** Closing the menu, element by element. *)
Lemma closeMobileNav_lookup st (i : nat) n :
  Nav.nodes st !! i = Some n ->
  exists n',
    Nav.nodes (Nav.closeMobileNav st) !! i = Some n'
    /\ Nav.alike n n'
    /\ ((forall m, Nav.querySelector "nav-links" (Nav.nodes st) <> Some (i, m)) ->
        Nav.node_classes n' = Nav.node_classes n)
    /\ (Nav.active n' = true -> Nav.active n = true).
Proof.
  intros Hn. unfold Nav.closeMobileNav.
  destruct (Nav.querySelector "nav-toggle" (Nav.nodes st)) as [[ti t]|];
    [|exists n; by repeat split; try apply alike_refl].
  destruct (Nav.querySelector "nav-links" (Nav.nodes st)) as [[mj m]|];
    [|exists n; by repeat split; try apply alike_refl].
  cbn [Nav.nodes Nav.with_nodes].
  assert (Hrm : forall (token : string) cl,
             token <> "active" -> token ∈ JS.class_remove ["active"] cl <-> token ∈ cl).
  { intros token cl Hne. by apply class_remove_other. }
  destruct (decide (mj = i)) as [->|Hmenu];
    [rewrite list_lookup_alter_eq | rewrite list_lookup_alter_ne by done];
    (destruct (decide (ti = i)) as [->|Htoggle];
     [rewrite list_lookup_alter_eq | rewrite list_lookup_alter_ne by done]);
    rewrite Hn; cbn [fmap option_fmap option_map]; eexists; (split; [reflexivity|]).
  - split; [|split].
    + eapply alike_trans; [apply alike_set_expanded | by apply alike_set_classes].
    + intros Hnot. by destruct (Hnot m).
    + unfold Nav.active. cbn [Nav.set_classes Nav.set_expanded Nav.node_classes].
      intros Hactive%class_contains_elem. by apply class_remove_self in Hactive.
  - split; [|split].
    + by apply alike_set_classes.
    + intros Hnot. by destruct (Hnot m).
    + unfold Nav.active. cbn [Nav.set_classes Nav.node_classes].
      intros Hactive%class_contains_elem. by apply class_remove_self in Hactive.
  - split; [apply alike_set_expanded|]. done.
  - split; [apply alike_refl|]. done.
Qed.

Lemma closeMobileNav_length st :
  length (Nav.nodes (Nav.closeMobileNav st)) = length (Nav.nodes st).
Proof.
  unfold Nav.closeMobileNav.
  destruct (Nav.querySelector "nav-toggle" (Nav.nodes st)) as [[]|],
           (Nav.querySelector "nav-links" (Nav.nodes st)) as [[]|]; try done.
  cbn [Nav.nodes Nav.with_nodes]. by rewrite !length_alter.
Qed.

Lemma navigateToSection_pushed (sectionId : string) st (k : nat) (target : Nav.node) :
  sectionId <> "" ->
  Nav.getElementById sectionId (Nav.nodes st) = Some (k, target) ->
  Nav.pushed (Nav.navigateToSection sectionId st)
  = (if Nav.pushState st then Nav.pushed st ++ ["#" +:+ sectionId] else Nav.pushed st).
Proof.
  intros Hid Hfound. unfold Nav.navigateToSection.
  assert (Htruthy : JS.truthy sectionId = true) by by destruct sectionId.
  rewrite Htruthy, Hfound. cbn [negb]. unfold Nav.closeMobileNav. cbn [Nav.nodes].
  by destruct (Nav.querySelector "nav-toggle" (Nav.activate sectionId k (Nav.nodes st)))
       as [[]|],
     (Nav.querySelector "nav-links" (Nav.activate sectionId k (Nav.nodes st))) as [[]|].
Qed.

Lemma navigateToSection_unknown (sectionId : string) st :
  Nav.getElementById sectionId (Nav.nodes st) = None ->
  Nav.navigateToSection sectionId st = st.
Proof.
  intros Hnone. unfold Nav.navigateToSection. rewrite Hnone.
  by destruct (negb (JS.truthy sectionId)).
Qed.

(** What navigation leaves of the document. *)
Lemma navigateToSection_elements (sectionId : string) (st : Nav.state)
    (k : nat) (target : Nav.node) :
  sectionId <> "" ->
  Nav.getElementById sectionId (Nav.nodes st) = Some (k, target) ->
  let st' := Nav.navigateToSection sectionId st in
  (forall (i : nat) (n : Nav.node),
     Nav.nodes st !! i = Some n ->
     exists n',
       Nav.nodes st' !! i = Some n'
       /\ Nav.alike n n'
       /\ ((forall m, Nav.querySelector "nav-links" (Nav.nodes st) <> Some (i, m)) ->
           ("nav-link" ∈ Nav.node_classes n ->
            Nav.active n' = bool_decide (Nav.data_section n = Some sectionId))
           /\ ("section" ∈ Nav.node_classes n -> "nav-link" ∉ Nav.node_classes n ->
               Nav.active n' = bool_decide (i = k))
           /\ ("section" ∉ Nav.node_classes n -> "nav-link" ∉ Nav.node_classes n ->
               Nav.node_classes n' = Nav.node_classes n)))
  /\ ("section" ∉ Nav.node_classes target ->
      forall (i : nat) (n : Nav.node),
        Nav.nodes st' !! i = Some n ->
        "section" ∈ Nav.node_classes n -> "nav-link" ∉ Nav.node_classes n ->
        Nav.active n = false)
  /\ (is_Some (Nav.querySelector "nav-toggle" (Nav.nodes st)) ->
      is_Some (Nav.querySelector "nav-links" (Nav.nodes st)) ->
      Nav.expanded st' = false /\ Nav.menu_open st' = false)
  /\ Nav.pushed st'
     = (if Nav.pushState st then Nav.pushed st ++ ["#" +:+ sectionId] else Nav.pushed st).
Proof.
  intros Hid Hfound st'. subst st'. unfold Nav.navigateToSection.
  assert (Htruthy : JS.truthy sectionId = true) by by destruct sectionId.
  rewrite Htruthy, Hfound. cbn [negb].
  set (st1 := Nav.mkState _ _ _ _).
  pose proof (activate_alike sectionId k (Nav.nodes st)) as Halike.
  assert (Hstep : forall (i : nat) (n : Nav.node),
            Nav.nodes st !! i = Some n ->
            exists a n',
              Nav.activate sectionId k (Nav.nodes st) !! i = Some a
              /\ Nav.nodes (Nav.closeMobileNav st1) !! i = Some n'
              /\ Nav.alike n a /\ Nav.alike a n'
              /\ ((forall m, Nav.querySelector "nav-links" (Nav.nodes st) <> Some (i, m)) ->
                  Nav.node_classes n' = Nav.node_classes a)
              /\ (Nav.active n' = true -> Nav.active a = true)).
  { intros i n Hn.
    destruct (activate_lookup sectionId k (Nav.nodes st) i n Hn) as (a & Ha & Hna & _).
    destruct (closeMobileNav_lookup st1 i a Ha) as (n' & Hn' & Han' & Hkeep & Hactive).
    exists a, n'. do 4 (split; [done|]). split; [|done].
    intros Hmenu. apply Hkeep. intros m Hm.
    pose proof (querySelector_alike "nav-links" _ _ ltac:(done) Halike) as Hq.
    destruct (Nav.querySelector "nav-links" (Nav.nodes st)) as [[j m0]|] eqn:Hq0.
    - destruct Hq as (m' & Hq & _). subst st1. cbn [Nav.nodes] in Hm.
      rewrite Hq in Hm. injection Hm as -> _. by destruct (Hmenu m0).
    - subst st1. cbn [Nav.nodes] in Hm. congruence. }
  split; [|split; [|split]].
  - intros i n Hn. destruct (Hstep i n Hn) as (a & n' & Ha & Hn' & Hna & Han' & Hkeep & _).
    exists n'. split; [done|]. split; [by eapply alike_trans|].
    intros Hmenu. specialize (Hkeep Hmenu).
    destruct (activate_lookup sectionId k (Nav.nodes st) i n Hn)
      as (a' & Ha' & _ & Hlink & Hsection & Hother).
    assert (a' = a) as -> by congruence.
    unfold Nav.active in *. rewrite Hkeep.
    split; [done|]. split; [done|]. intros Hs Hl. by rewrite (Hother Hs Hl).
  - intros Htarget i n' Hn' Hsection Hlink.
    destruct (Nav.active n') eqn:Hactive; [|done].
    assert (Hlt : (i < length (Nav.nodes st))%nat).
    { apply lookup_lt_Some in Hn'. rewrite closeMobileNav_length in Hn'.
      subst st1. cbn [Nav.nodes] in Hn'.
      by rewrite <- (Forall2_length _ _ _ Halike) in Hn'. }
    apply lookup_lt_is_Some_2 in Hlt as [n Hn].
    destruct (Hstep i n Hn) as (a & n'' & Ha & Hn'' & Hna & Han' & _ & Hwas).
    assert (n'' = n') as -> by congruence.
    destruct (activate_lookup sectionId k (Nav.nodes st) i n Hn)
      as (a' & Ha' & _ & _ & Hsect & _).
    assert (a' = a) as -> by congruence.
    destruct Hna as (_ & _ & Hna), Han' as (_ & _ & Han').
    assert (Hs : "section" ∈ Nav.node_classes n) by by rewrite <- Hna, <- Han'.
    assert (Hl : "nav-link" ∉ Nav.node_classes n) by by rewrite <- Hna, <- Han'.
    rewrite (Hsect Hs Hl) in Hwas. specialize (Hwas Hactive).
    apply bool_decide_eq_true in Hwas as ->.
    apply list_find_Some in Hfound as (Hk & _). congruence.
  - intros Htoggle Hlinks.
    pose proof (querySelector_alike "nav-toggle" _ _ ltac:(done) Halike) as Hqt.
    pose proof (querySelector_alike "nav-links" _ _ ltac:(done) Halike) as Hql.
    destruct Htoggle as [[ti t] Ht], Hlinks as [[mj m] Hm]. rewrite Ht in Hqt.
    rewrite Hm in Hql. destruct Hqt as (t' & Hqt & _), Hql as (m' & Hql & _).
    apply closeMobileNav_closes; subst st1; cbn [Nav.nodes]; by eexists.
  - subst st1. unfold Nav.closeMobileNav. cbn [Nav.nodes].
    by destruct (Nav.querySelector "nav-toggle" (Nav.activate sectionId k (Nav.nodes st)))
         as [[]|],
       (Nav.querySelector "nav-links" (Nav.activate sectionId k (Nav.nodes st))) as [[]|].
Qed.

End NavigateFacts.

(** X26. Navigating to an identifier that names an element shows that
    element only: every element keeps its identity and its other
    classes; apart from the menu element, a navigation link is active
    exactly when its [data-section] is the identifier, a section
    exactly when it is the element found, and the other elements keep
    their classes.  So when the element found is not a section, no
    section is left active.  The menu is closed and the URL pushed. *)
Theorem navigateToSection_shows_target (sectionId : string) (st : Nav.state)
    (k : nat) (target : Nav.node) :
  sectionId <> "" ->
  Nav.getElementById sectionId (Nav.nodes st) = Some (k, target) ->
  let st' := Nav.navigateToSection sectionId st in
  (forall (i : nat) (n : Nav.node),
     Nav.nodes st !! i = Some n ->
     exists n',
       Nav.nodes st' !! i = Some n'
       /\ Nav.alike n n'
       /\ ((forall m, Nav.querySelector "nav-links" (Nav.nodes st) <> Some (i, m)) ->
           ("nav-link" ∈ Nav.node_classes n ->
            Nav.active n' = bool_decide (Nav.data_section n = Some sectionId))
           /\ ("section" ∈ Nav.node_classes n -> "nav-link" ∉ Nav.node_classes n ->
               Nav.active n' = bool_decide (i = k))
           /\ ("section" ∉ Nav.node_classes n -> "nav-link" ∉ Nav.node_classes n ->
               Nav.node_classes n' = Nav.node_classes n)))
  /\ ("section" ∉ Nav.node_classes target ->
      forall (i : nat) (n : Nav.node),
        Nav.nodes st' !! i = Some n ->
        "section" ∈ Nav.node_classes n -> "nav-link" ∉ Nav.node_classes n ->
        Nav.active n = false)
  /\ (is_Some (Nav.querySelector "nav-toggle" (Nav.nodes st)) ->
      is_Some (Nav.querySelector "nav-links" (Nav.nodes st)) ->
      Nav.expanded st' = false /\ Nav.menu_open st' = false)
  /\ Nav.pushed st'
     = (if Nav.pushState st then Nav.pushed st ++ ["#" +:+ sectionId] else Nav.pushed st).
Proof. exact (navigateToSection_elements sectionId st k target). Qed.

Lemma navigateToSection_shows_target_witness :
  Nav.pushed (Nav.navigateToSection "track" Nav.sample) = ["#track"].
Proof.
  exact (proj2 (proj2 (proj2
           (navigateToSection_shows_target "track" Nav.sample 1
              (Nav.mkNode (Some "track") ["section"] None None)
              ltac:(discriminate) eq_refl)))).
Defined.

(** X27. A hash change shows the element the hash names, and home
    when the hash is empty or names no element; with neither, nothing
    changes.  Whenever it shows something it pushes a history entry of
    its own, as a click on a link does.  A hash that names an element
    which is no section leaves no section active. *)
Theorem handleHashChange_target (hash : string) (st : Nav.state) :
  let id := Nav.slice1 hash in
  let shown := if bool_decide (id <> "" /\ is_Some (Nav.getElementById id (Nav.nodes st)))
               then id else "home" in
  Nav.handleHashChange hash st = Nav.navigateToSection shown st
  /\ (is_Some (Nav.getElementById shown (Nav.nodes st)) ->
      Nav.pushed (Nav.handleHashChange hash st)
      = (if Nav.pushState st then Nav.pushed st ++ ["#" +:+ shown] else Nav.pushed st))
  /\ (Nav.getElementById shown (Nav.nodes st) = None -> Nav.handleHashChange hash st = st)
  /\ (forall (k : nat) (target : Nav.node),
        Nav.getElementById shown (Nav.nodes st) = Some (k, target) ->
        "section" ∉ Nav.node_classes target ->
        forall (i : nat) (n : Nav.node),
          Nav.nodes (Nav.handleHashChange hash st) !! i = Some n ->
          "section" ∈ Nav.node_classes n -> "nav-link" ∉ Nav.node_classes n ->
          Nav.active n = false).
Proof.
  intros id shown.
  assert (Hrun : Nav.handleHashChange hash st = Nav.navigateToSection shown st).
  { unfold Nav.handleHashChange. fold id. subst shown.
    destruct (JS.truthy id) eqn:Hid.
    - cbn [andb]. destruct (bool_decide_reflect (is_Some (Nav.getElementById id (Nav.nodes st))))
        as [Hsome|Hnone].
      + rewrite bool_decide_eq_true_2; [done|]. split; [by destruct id | done].
      + rewrite bool_decide_eq_false_2; [done|]. by intros [_ ?].
    - cbn [andb]. rewrite bool_decide_eq_false_2; [done|]. intros [Hne _]. by destruct id. }
  assert (Hshown : shown <> "").
  { subst shown. destruct (bool_decide_reflect
                             (id <> "" /\ is_Some (Nav.getElementById id (Nav.nodes st))))
      as [[Hne _]|_]; done. }
  rewrite Hrun. split; [done|]. split; [|split].
  - intros [[k target] Hfound]. by apply (navigateToSection_pushed shown st k target).
  - apply navigateToSection_unknown.
  - intros k target Hfound Htarget.
    by apply (navigateToSection_elements shown st k target Hshown Hfound).
Qed.

Lemma handleHashChange_target_witness :
  Nav.pushed (Nav.handleHashChange "#order-id" Nav.sample) = ["#order-id"].
Proof.
  exact (proj1 (proj2 (handleHashChange_target "#order-id" Nav.sample))
           (ex_intro _ _ eq_refl)).
Defined.

Section ContactFacts.
Context (formData : Contact.form -> string -> option string) (reset : Contact.form -> Contact.form).
Implicit Types (f : Contact.form) (i : Contact.which).

(** The functions of the element are those of the order form. *)
Lemma showFormError_element (message : string) (i : Dom.which) (p : page) :
  Main.showFormError message i p
  = match Dom.get_input i p with
    | Some inputElement => Dom.set_input i (Contact.showFormError message inputElement) p
    | None => p
    end.
Proof.
  unfold Main.showFormError, Contact.showFormError.
  destruct i, p as [? ? ? ? ? ? ? ? ? ? ? [[? ? [?|] ? ?]|] [[? ? [?|] ? ?]|]]; reflexivity.
Qed.

Lemma clearFormError_element (i : Dom.which) (p : page) :
  Main.clearFormError i p
  = match Dom.get_input i p with
    | Some inputElement => Dom.set_input i (Contact.clearFormError inputElement) p
    | None => p
    end.
Proof.
  unfold Main.clearFormError, Contact.clearFormError.
  destruct i, p as [? ? ? ? ? ? ? ? ? ? ? [[? ? [?|] ? ?]|] [[? ? [?|] ? ?]|]]; reflexivity.
Qed.

Lemma cleared_shows_nothing (o : option input) :
  Spec.shown_error (Contact.clearFormError <$> o) = None.
Proof.
  destruct o as [[? ? [[? [[? ? ? ?]|]]|] ? ?]|]; try done.
  cbn -[JS.class_contains JS.class_add]. by rewrite class_contains_added.
Qed.

Lemma error_shows (message : string) (inputElement : input) (formGroup : form_group) :
  in_group inputElement = Some formGroup ->
  Spec.shown_error (Some (Contact.showFormError message inputElement)) = Some message.
Proof.
  destruct inputElement as [? ? [[? [[? ? ? ?]|]]|] ? ?]; intros [= <-];
    cbn -[JS.class_contains JS.class_remove]; by rewrite class_contains_removed.
Qed.

Lemma truthy_opt_default (o : option string) :
  JS.truthy_opt o = JS.truthy (default "" o).
Proof. by destruct o. Qed.

Lemma errors_after_refusal i j (message : string) f :
  j ∈ Contact.errors (Contact.error_on i message (Contact.clearAllFormErrors f)) -> j = i.
Proof.
  unfold Contact.errors. rewrite list_elem_of_filter. intros [Hshown _].
  destruct i, j; try done; exfalso;
    cbn [Contact.get_input Contact.error_on Contact.clearAllFormErrors
         Contact.contact_name Contact.contact_email Contact.contact_message] in Hshown;
    rewrite cleared_shows_nothing in Hshown; by destruct Hshown.
Qed.

Lemma errors_after_success (message : string) f :
  Contact.errors (Contact.showFormSuccess message (Contact.clearAllFormErrors f)) = [].
Proof.
  apply elem_of_nil_inv. intros j. unfold Contact.errors.
  rewrite list_elem_of_filter. intros [Hshown _].
  destruct j;
    cbn [Contact.get_input Contact.showFormSuccess Contact.clearAllFormErrors
         Contact.contact_name Contact.contact_email Contact.contact_message] in Hshown;
    rewrite cleared_shows_nothing in Hshown; by destruct Hshown.
Qed.

End ContactFacts.

(** X28. With its three inputs in place the contact form is checked
    field by field on the trimmed values: an empty name, then an empty
    email, then an email that is not of the form [local@domain.tld],
    then an empty message is refused with its message on the input
    concerned; only a form that passes all four is thanked, by name,
    and reset.  The errors of an earlier submit are cleared first, so a
    refusal never shows an error on another input than the refused
    one, and the thanks come with no error showing. *)
Theorem contact_form_validation (formData : Contact.form -> string -> option string)
    (reset : Contact.form -> Contact.form) (f : Contact.form)
    (nameInput emailInput messageInput : input) :
  Contact.contact_name f = Some nameInput ->
  Contact.contact_email f = Some emailInput ->
  Contact.contact_message f = Some messageInput ->
  let cleared := Contact.clearAllFormErrors f in
  let field key := default "" (JS.trim <$> formData cleared key) in
  let refused i message :=
    Contact.handleContactSubmit formData reset (Some f)
    = Some (Contact.error_on i message cleared) in
  (field "name" = "" -> refused Contact.Name "Please enter your name.")
  /\ (field "name" <> "" -> field "email" = "" ->
      refused Contact.Email "Please enter your email address.")
  /\ (field "name" <> "" -> field "email" <> "" -> ~ Lang.email_shape (field "email") ->
      refused Contact.Email "Please enter a valid email address.")
  /\ (field "name" <> "" -> Lang.email_shape (field "email") -> field "message" = "" ->
      refused Contact.Message "Please enter a message.")
  /\ (field "name" <> "" -> Lang.email_shape (field "email") -> field "message" <> "" ->
      Contact.handleContactSubmit formData reset (Some f)
      = Some (reset (Contact.showFormSuccess
                       ("Thank you for your message, " +:+ field "name"
                        +:+ "! We'll get back to you soon.") cleared)))
  /\ (forall i j message, j ∈ Contact.errors (Contact.error_on i message cleared) -> j = i)
  /\ (forall message, Contact.errors (Contact.showFormSuccess message cleared) = []).
Proof.
  intros Hname Hemail Hmessage cleared field refused. subst refused.
  assert (Hrun : Contact.handleContactSubmit formData reset (Some f)
    = if negb (JS.truthy (field "name")) then
        Some (Contact.error_on Contact.Name "Please enter your name." cleared)
      else if negb (JS.truthy (field "email")) then
        Some (Contact.error_on Contact.Email "Please enter your email address." cleared)
      else if negb (JS.test Main.emailRegex (field "email")) then
        Some (Contact.error_on Contact.Email "Please enter a valid email address." cleared)
      else if negb (JS.truthy (field "message")) then
        Some (Contact.error_on Contact.Message "Please enter a message." cleared)
      else
        Some (reset (Contact.showFormSuccess
                       ("Thank you for your message, " +:+ field "name"
                        +:+ "! We'll get back to you soon.") cleared))).
  { unfold Contact.handleContactSubmit. fold cleared. cbv zeta.
    rewrite !truthy_opt_default. fold (field "name") (field "email") (field "message").
    subst cleared. cbn [Contact.clearAllFormErrors Contact.contact_name
                        Contact.contact_email Contact.contact_message].
    rewrite Hname, Hemail, Hmessage. cbn [fmap option_fmap option_map].
    rewrite !bool_decide_eq_true_2 by by eexists. rewrite !andb_true_r.
    destruct (JS.truthy (field "name")) eqn:Hn; [|done]. cbn [negb].
    destruct (JS.truthy (field "email")) eqn:He; [|done]. cbn [negb andb].
    destruct (JS.test Main.emailRegex (field "email")); [|done]. cbn [negb].
    destruct (JS.truthy (field "message")) eqn:Hm; [|done]. cbn [negb].
    do 3 f_equal. unfold Contact.template. subst field. cbv beta in Hn |- *.
    destruct (formData _ "name") as [v|]; [done|]. discriminate Hn. }
  rewrite Hrun. clear Hrun.
  assert (Hshape : forall s, Lang.email_shape s -> s <> "").
  { intros s (l & d & t & -> & Hl & _). by destruct l. }
  split; [intros ->; done|].
  split; [intros ?%truthy_true ->; by rewrite H|].
  split.
  { intros Hn%truthy_true He Hbad. rewrite Hn. apply truthy_true in He as He'. rewrite He'.
    cbn [negb]. destruct (JS.test Main.emailRegex (field "email")) eqn:Htest; [|done].
    by apply emailRegex_shape in Htest. }
  split.
  { intros Hn%truthy_true He ->. rewrite Hn. cbn [negb].
    pose proof (Hshape _ He) as Hne. apply truthy_true in Hne. rewrite Hne. cbn [negb].
    apply emailRegex_shape in He. by rewrite He. }
  split.
  { intros Hn%truthy_true He Hm%truthy_true. rewrite Hn, Hm. cbn [negb].
    pose proof (Hshape _ He) as Hne. apply truthy_true in Hne. rewrite Hne. cbn [negb].
    apply emailRegex_shape in He. by rewrite He. }
  split.
  - intros i j message. apply errors_after_refusal.
  - intros message. apply errors_after_success.
Qed.

Lemma contact_form_validation_witness :
  Contact.handleContactSubmit Contact.values id
    (Some (Contact.filled " Ada " "ada@example.org" "  "))
  = Some (Contact.error_on Contact.Message "Please enter a message."
            (Contact.clearAllFormErrors (Contact.filled " Ada " "ada@example.org" "  "))).
Proof.
  refine (proj1 (proj2 (proj2 (proj2
            (contact_form_validation Contact.values id
               (Contact.filled " Ada " "ada@example.org" "  ") _ _ _
               eq_refl eq_refl eq_refl)))) _ _ _).
  - vm_compute. discriminate.
  - apply emailRegex_shape. vm_compute. reflexivity.
  - vm_compute. reflexivity.
Defined.

Section TrimFacts.
Implicit Types (s t a b r : string) (c : ascii) (pats : list string).

Lemma append_cons c s t : String c s +:+ t = String c (s +:+ t).
Proof. reflexivity. Qed.

Lemma append_assoc s t r : (s +:+ t) +:+ r = s +:+ (t +:+ r).
Proof. induction s as [|c s IH]; [done|]. by rewrite !append_cons, IH. Qed.

Lemma append_nil_r s : s +:+ "" = s.
Proof. induction s as [|c s IH]; [done|]. by rewrite append_cons, IH. Qed.

Lemma length_append s t : String.length (s +:+ t) = (String.length s + String.length t)%nat.
Proof. induction s as [|c s IH]; [done|]. rewrite append_cons. simpl. by rewrite IH. Qed.

Lemma rev_app_append s : forall t, String.rev_app s t = String.rev s +:+ t.
Proof.
  unfold String.rev. induction s as [|c s IH]; intros t; [done|]. simpl.
  rewrite (IH (String c t)), (IH (String c "")), append_assoc. done.
Qed.

Lemma rev_append s t : String.rev (s +:+ t) = String.rev t +:+ String.rev s.
Proof.
  induction s as [|c s IH]; simpl.
  - by rewrite append_nil_r.
  - unfold String.rev in *. simpl. rewrite !(rev_app_append _ (String c "")).
    fold (String.rev (s +:+ t)). fold (String.rev s). unfold String.rev.
    by rewrite IH, append_assoc.
Qed.

Lemma rev_rev s : String.rev (String.rev s) = s.
Proof.
  induction s as [|c s IH]; [done|].
  change (String.rev (String c s)) with (String.rev_app s (String c "")).
  rewrite rev_app_append, rev_append, IH. done.
Qed.

Lemma length_rev s : String.length (String.rev s) = String.length s.
Proof.
  induction s as [|c s IH]; [done|].
  change (String.rev (String c s)) with (String.rev_app s (String c "")).
  rewrite rev_app_append, length_append, IH. simpl. lia.
Qed.

Lemma list_ascii_rev s :
  list_ascii_of_string (String.rev s) = reverse (list_ascii_of_string s).
Proof.
  induction s as [|c s IH]; [done|].
  change (String.rev (String c s)) with (String.rev_app s (String c "")).
  rewrite rev_app_append, list_ascii_of_append, IH. simpl. by rewrite reverse_cons.
Qed.

(** A pattern can only be stripped from a string that starts as it
    does. *)
Lemma strip_one_None pats c s :
  Forall (fun p => exists c' p', p = String c' p' /\ c' <> c) pats ->
  JS.strip_one pats (String c s) = None.
Proof.
  induction 1 as [|p pats (c' & p' & -> & Hne) _ IH]; [done|].
  simpl. by rewrite (proj2 (Ascii.eqb_neq c' c) Hne).
Qed.

Lemma whitespace_heads :
  Forall (fun p => exists c' p', p = String c' p' /\ ~ Blank.visible c') JS.whitespace
  /\ Forall (fun p => exists c' p', p = String c' p' /\ ~ Blank.visible c')
       (map String.rev JS.whitespace).
Proof.
  assert (Hcheck : forall pats,
            forallb (fun p => match p with
                              | String c' _ => negb (JS.code_in 33 126 c')
                              | EmptyString => false
                              end) pats = true ->
            Forall (fun p => exists c' p', p = String c' p' /\ ~ Blank.visible c') pats).
  { intros pats Hall. apply Forall_forall. intros p Hp%list_elem_of_In.
    apply (proj1 (forallb_forall _ _) Hall) in Hp. destruct p as [|c' p']; [done|].
    exists c', p'. split; [done|]. unfold Blank.visible. unfold JS.code_in in Hp.
    apply negb_true_iff, andb_false_iff in Hp. rewrite !Nat.leb_gt in Hp. lia. }
  split; apply Hcheck; vm_compute; reflexivity.
Qed.

Lemma strip_one_visible c s :
  Blank.visible c ->
  JS.strip_one JS.whitespace (String c s) = None
  /\ JS.strip_one (map String.rev JS.whitespace) (String c s) = None.
Proof.
  intros Hc. destruct whitespace_heads as [Hw Hr].
  split; apply strip_one_None; (eapply Forall_impl; [eassumption|]);
    intros p (c' & p' & -> & Hc'); exists c', p'; (split; [done|]); by intros ->.
Qed.

Lemma strip_one_blank c s :
  Blank.blank c ->
  JS.strip_one JS.whitespace (String c s) = Some s
  /\ JS.strip_one (map String.rev JS.whitespace) (String c s) = Some s.
Proof.
  unfold Blank.blank. rewrite !elem_of_cons, elem_of_nil. intros Hc.
  rewrite <- (ascii_nat_embedding c).
  destruct Hc as [->|[->|[->|[->|[->|[->|[]]]]]]]; split; reflexivity.
Qed.

(** Stripping removes the blanks in front of a visible character. *)
Lemma strip_all_blanks pats a c r : forall n : nat,
  (forall c s, Blank.blank c -> JS.strip_one pats (String c s) = Some s) ->
  (forall c s, Blank.visible c -> JS.strip_one pats (String c s) = None) ->
  Blank.blanks a -> Blank.visible c -> (String.length a <= n)%nat ->
  JS.strip_all n pats (a +:+ String c r) = String c r.
Proof.
  intros n Hblank Hvisible Ha Hc. revert n.
  induction a as [|c0 a IH]; intros n Hn.
  - change ("" +:+ String c r) with (String c r).
    destruct n as [|n]; [done|]. cbn [JS.strip_all]. by rewrite Hvisible.
  - destruct n as [|n]; [simpl in Hn; lia|]. inversion Ha as [|? ? Hc0 Ha']; subst.
    rewrite append_cons. cbn [JS.strip_all]. rewrite (Hblank c0 _ Hc0).
    apply IH; [done|]. simpl in Hn. lia.
Qed.

Lemma strip_all_only_blanks pats a : forall n : nat,
  (forall c s, Blank.blank c -> JS.strip_one pats (String c s) = Some s) ->
  JS.strip_one pats "" = None ->
  Blank.blanks a -> (String.length a <= n)%nat ->
  JS.strip_all n pats a = "".
Proof.
  intros n Hblank Hempty Ha. revert n.
  induction a as [|c0 a IH]; intros n Hn.
  - destruct n as [|n]; [done|]. cbn [JS.strip_all]. by rewrite Hempty.
  - destruct n as [|n]; [simpl in Hn; lia|]. inversion Ha as [|? ? Hc0 Ha']; subst.
    cbn [JS.strip_all]. rewrite (Hblank c0 _ Hc0). apply IH; [done|]. simpl in Hn. lia.
Qed.

Lemma word_head s : Blank.word s -> exists c r, s = String c r /\ Blank.visible c.
Proof.
  intros [Hne Hall]. destruct s as [|c r]; [done|]. exists c, r. split; [done|].
  by inversion Hall.
Qed.

Lemma word_rev s : Blank.word s -> Blank.word (String.rev s).
Proof.
  intros [Hne Hall]. split.
  - intros Hrev. apply Hne. by rewrite <- (rev_rev s), Hrev.
  - rewrite list_ascii_rev. by apply Forall_reverse.
Qed.

Lemma blanks_rev s : Blank.blanks s -> Blank.blanks (String.rev s).
Proof. unfold Blank.blanks. rewrite list_ascii_rev. apply Forall_reverse. Qed.

(** [trim] removes the blanks around a word, and all of a blank
    string. *)
Lemma trim_word a s b :
  Blank.blanks a -> Blank.word s -> Blank.blanks b -> JS.trim (a +:+ s +:+ b) = s.
Proof.
  intros Ha Hs Hb. unfold JS.trim.
  destruct (word_head s Hs) as (c & r & -> & Hc).
  assert (Hstart : JS.trimStart (a +:+ String c r +:+ b) = String c r +:+ b).
  { unfold JS.trimStart. rewrite append_cons.
    apply strip_all_blanks.
    - intros c0 s0 Hc0. exact (proj1 (strip_one_blank c0 s0 Hc0)).
    - intros c0 s0 Hc0. exact (proj1 (strip_one_visible c0 s0 Hc0)).
    - exact Ha.
    - exact Hc.
    - rewrite length_append. lia. }
  rewrite Hstart. unfold JS.trimEnd. rewrite rev_append.
  destruct (word_head _ (word_rev _ Hs)) as (d & r' & Hrev & Hd). rewrite Hrev.
  rewrite strip_all_blanks.
  - by rewrite <- Hrev, rev_rev.
  - intros c0 s0 Hc0. exact (proj2 (strip_one_blank c0 s0 Hc0)).
  - intros c0 s0 Hc0. exact (proj2 (strip_one_visible c0 s0 Hc0)).
  - by apply blanks_rev.
  - exact Hd.
  - rewrite length_rev, length_append. lia.
Qed.

Lemma trim_blanks a : Blank.blanks a -> JS.trim a = "".
Proof.
  intros Ha. unfold JS.trim.
  assert (Hstart : JS.trimStart a = "").
  { unfold JS.trimStart. apply strip_all_only_blanks.
    - intros c0 s0 Hc0. exact (proj1 (strip_one_blank c0 s0 Hc0)).
    - reflexivity.
    - exact Ha.
    - lia. }
  rewrite Hstart. reflexivity.
Qed.

Lemma order_id_word s : Spec.order_id_shape s -> Blank.word s.
Proof.
  intros [a b d1 d2 d3 d4 d5 d6 d7 d8 Ha Hb H1 H2 H3 H4 H5 H6 H7 H8].
  split; [done|]. rewrite list_ascii_of_string_of_list_ascii.
  unfold Spec.upper, Spec.digit in *.
  repeat (apply Forall_cons_2; [unfold Blank.visible; first [lia | vm_compute; lia]|]).
  apply Forall_nil_2.
Qed.

End TrimFacts.

(** X29. The search form reads what is typed without the blanks around
    it: for an input value made of a word of visible ASCII characters
    between spaces, tabs or line breaks, the identifier, and likewise
    the email, is the word itself, so a well-formed identifier typed
    with blanks around it passes the format check; a value of blanks
    only is read as empty. *)
Theorem search_form_trims_blanks (a s b : string) (p : page) (inputElement : input) :
  Blank.blanks a -> Blank.blanks b ->
  (order_id_input p = Some inputElement ->
   (in_value inputElement = a +:+ s +:+ b -> Blank.word s -> Form.typed_id p = s)
   /\ (in_value inputElement = a +:+ s +:+ b -> Spec.order_id_shape s ->
       JS.test Main.orderIdPattern (Form.typed_id p) = true)
   /\ (in_value inputElement = a -> Form.typed_id p = ""))
  /\ (order_email_input p = Some inputElement ->
      (in_value inputElement = a +:+ s +:+ b -> Blank.word s -> Form.typed_email p = s)
      /\ (in_value inputElement = a -> Form.typed_email p = "")).
Proof.
  intros Ha Hb. unfold Form.typed_id, Form.typed_email.
  split; intros ->; cbn [fmap option_fmap option_map from_option id].
  - split; [|split].
    + intros -> Hs. by apply trim_word.
    + intros -> Hs. rewrite trim_word; [|done|by apply order_id_word|done].
      by apply orderIdPattern_shape.
    + intros ->. by apply trim_blanks.
  - split.
    + intros -> Hs. by apply trim_word.
    + intros ->. by apply trim_blanks.
Qed.

Lemma search_form_trims_blanks_witness :
  Form.typed_id (Examples.tracking_page "  AA-2024-0047 ") = "AA-2024-0047".
Proof.
  refine (proj1 (proj1 (search_form_trims_blanks "  " "AA-2024-0047" " "
                          (Examples.tracking_page "  AA-2024-0047 ") _ _ _)
                   eq_refl) eq_refl _).
  - unfold Blank.blanks, Blank.blank.
    repeat (apply Forall_cons_2; [by repeat constructor|]). apply Forall_nil_2.
  - unfold Blank.blanks, Blank.blank.
    repeat (apply Forall_cons_2; [by repeat constructor|]). apply Forall_nil_2.
  - apply order_id_word, orderIdPattern_shape. reflexivity.
Defined.

Section LingerFacts.
Variable h : host.

(** What a display after the loading view makes of the title and of
    the detail fields. *)
Lemma display_after_loading (o : envelope_order) (q : page) :
  let r := Tracker.display_order h o (Tracker.showLoading q) in
  status_title r = (fun _ => status o) <$> status_title q
  /\ order_product r = Spec.detail (product o) id <$> order_product q
  /\ order_date r = Spec.detail (createdDate o) (Spec.date_shown h) <$> order_date q
  /\ tracking_container r
     = match tracking_container q, tracking_number q with
       | Some container, Some _ =>
           Some (if JS.truthy_opt (trackingNumber o)
                 then JS.class_remove ["hidden"] container
                 else JS.class_add "hidden" container)
       | container, _ => container
       end
  /\ tracking_number r
     = match tracking_container q, tracking_number q with
       | Some _, Some number => Some (Spec.detail (trackingNumber o) id number)
       | _, number => number
       end.
Proof.
  intros r. subst r. rewrite display_order_fields.
  destruct q as [e t m pr d tc tn od os ts tl i1 i2]. rewrite showLoading_fields.
  done.
Qed.

End LingerFacts.

(** X30. The details of an order are only ever overwritten, never
    cleared.  When a second order is displayed after a first, with the
    loading view in between as a new search has it, the title is the
    second order's, but a product or a date the second order lacks
    leaves the product or the date of the first order on display; a
    tracking number it lacks hides the tracking row and keeps its
    text. *)
Theorem previous_order_details_linger (h : host) (o1 o2 : envelope_order) (p : page) :
  let p1 := Tracker.display_order h o1 p in
  let p2 := Tracker.display_order h o2 (Tracker.showLoading p1) in
  status_title p2 = (fun _ => status o2) <$> status_title p
  /\ (JS.truthy_opt (product o2) = false -> order_product p2 = order_product p1)
  /\ (JS.truthy_opt (createdDate o2) = false -> order_date p2 = order_date p1)
  /\ (JS.truthy_opt (trackingNumber o2) = false ->
      tracking_number p2 = tracking_number p1
      /\ forall (container : JS.classList) (number : string),
           tracking_container p = Some container -> tracking_number p = Some number ->
           exists classes, tracking_container p2 = Some classes /\ "hidden" ∈ classes)
  /\ (forall x : string,
        product o1 = Some x -> x <> "" -> is_Some (order_product p) ->
        JS.truthy_opt (product o2) = false ->
        order_product p2 = Some x).
Proof.
  intros p1 p2. subst p2.
  destruct (display_after_loading h o2 p1) as (-> & -> & -> & -> & ->).
  subst p1. rewrite display_order_fields.
  destruct p as [e t m pr d tc tn od os ts tl i1 i2]. unfold Spec.displayed.
  cbn [status_emoji status_title status_message order_product order_date
       tracking_container tracking_number order_details order_status
       timeline_steps status_timeline order_id_input order_email_input].
  split; [by destruct t|].
  split.
  { intros Hnone. unfold Spec.detail at 1. rewrite Hnone. by destruct pr. }
  split.
  { intros Hnone. unfold Spec.detail at 1. rewrite Hnone. by destruct d. }
  split.
  { intros Hnone. split.
    - destruct tc, tn; try done. unfold Spec.detail at 1. by rewrite Hnone.
    - intros container number [= ->] [= ->]. rewrite Hnone. eexists. split; [reflexivity|].
      apply class_add_elem. by left. }
  intros x Hx Hne [shown ->] Hnone. cbn [fmap option_fmap option_map].
  unfold Spec.detail. rewrite Hnone, Hx. cbn [JS.truthy_opt Dom.text_of].
  by destruct x.
Qed.

Lemma previous_order_details_linger_witness :
  order_product
    (Tracker.display_order (Samples.served (Examples.found Examples.printing_order))
       (mkOrder "AA-2024-0052" "In Queue" None None None None)
       (Tracker.showLoading
          (Tracker.display_order (Samples.served (Examples.found Examples.printing_order))
             Examples.printing_order (Examples.tracking_page "AA-2024-0052"))))
  = product Examples.printing_order.
Proof.
  eapply (proj2 (proj2 (proj2 (proj2
            (previous_order_details_linger
               (Samples.served (Examples.found Examples.printing_order))
               Examples.printing_order
               (mkOrder "AA-2024-0052" "In Queue" None None None None)
               (Examples.tracking_page "AA-2024-0052")))))).
  - reflexivity.
  - discriminate.
  - by eexists.
  - reflexivity.
Defined.
